(** * The speech recognition page controller of script.js

    A shallow embedding of class [SpeechRecognitionSystem]: its session
    state, the page controls it reads and writes, the browser capabilities
    it calls (recognizer, synthesizer, fetch, file reader), and every
    handler it installs.  Host calls that can fail take their outcome as an
    argument; [async] handlers are cut at each [await] into a suspended task
    that a later event resumes. *)

From Stdlib Require Import String Ascii List Bool ZArith QArith Lia.
Import ListNotations.
Local Open Scope string_scope.
Local Open Scope Z_scope.

(** ** JavaScript strings

    Strings are byte strings holding the UTF-8 encoding of the source's
    string values.  A surrogate code unit that stands without its partner
    has no UTF-8 encoding; it is held in the three-byte form the encoding
    scheme gives its number: the byte 237 (ED), then a byte from 160 to 191
    (A0 to BF), then a continuation byte.  In the encoding of a well-formed
    string, 237 is followed by a byte below 160.  A lead surrogate directly
    followed by a trail surrogate is a pair, whether the pair is held as
    one four-byte sequence or as two three-byte forms. *)
Module Js.

Definition nl : string := String (ascii_of_nat 10) EmptyString.
Definition dq : string := String (ascii_of_nat 34) EmptyString.

(** [s.startsWith(p)] *)
Definition startsWith (s p : string) : bool := String.prefix p s.

(** [s.includes(t)] *)
Fixpoint includes (s t : string) {struct s} : bool :=
  if String.prefix t s then true
  else match s with
       | EmptyString => false
       | String _ r => includes r t
       end.

Definition lower_ascii (c : ascii) : ascii :=
  let n := nat_of_ascii c in
  if (andb (Nat.leb 65 n) (Nat.leb n 90)) then ascii_of_nat (n + 32) else c.

(** [s.toLowerCase()], on the UTF-8 bytes.  ASCII capitals are mapped to
    their small letters.  Two code points outside ASCII have a lower-case
    form that contains an ASCII letter and are mapped as the host does:
    U+0130 (bytes C4 B0) becomes "i" followed by U+0307 (CC 87), and U+212A
    (E2 84 AA) becomes "k".  Every other byte is kept: the lower-case form
    of any other code point has no ASCII byte, so the result agrees with the
    host's on every ASCII substring test, the only use made of it. *)
Fixpoint toLowerCase (s : string) : string :=
  match s with
  | EmptyString => EmptyString
  | String c r =>
      match nat_of_ascii c, r with
      | 196%nat, String d r' =>
          if Nat.eqb (nat_of_ascii d) 176
          then String "i" (String (ascii_of_nat 204) (String (ascii_of_nat 135) (toLowerCase r')))
          else String c (toLowerCase r)
      | 226%nat, String d (String e r') =>
          if andb (Nat.eqb (nat_of_ascii d) 132) (Nat.eqb (nat_of_ascii e) 170)
          then String "k" (toLowerCase r')
          else String c (toLowerCase r)
      | _, _ => String (lower_ascii c) (toLowerCase r)
      end
  end.

(** Truthiness of a string: [if (s)]. *)
Definition nonempty (s : string) : bool :=
  match s with EmptyString => false | _ => true end.

(** Whether the bytes [c d] begin a lead surrogate (D800 to DBFF), and a
    trail surrogate (DC00 to DFFF). *)
Definition is_lead (c d : ascii) : bool :=
  andb (Nat.eqb (nat_of_ascii c) 237)
       (andb (Nat.leb 160 (nat_of_ascii d)) (Nat.leb (nat_of_ascii d) 175)).

Definition is_trail (c d : ascii) : bool :=
  andb (Nat.eqb (nat_of_ascii c) 237)
       (andb (Nat.leb 176 (nat_of_ascii d)) (Nat.leb (nat_of_ascii d) 191)).

(** Whether [s] holds a surrogate without its partner: a trail surrogate
    that follows no lead surrogate, or a lead surrogate that no trail
    surrogate follows.  These are the strings on which
    [encodeURIComponent] throws a URIError. *)
Fixpoint lone_surrogate (s : string) : bool :=
  match s with
  | EmptyString => false
  | String c r =>
      match r with
      | EmptyString => false
      | String d r2 =>
          if is_trail c d then true
          else if is_lead c d then
            match r2 with
            | String _ (String c2 (String d2 _ as r3)) =>
                if is_trail c2 d2 then lone_surrogate r3 else true
            | _ => true
            end
          else lone_surrogate r
      end
  end.

End Js.

Set Warnings "-register-all".

(** ** JavaScript values, as [response.json()] can produce them *)

(** The result of evaluating an expression: a value, or an exception. *)
Inductive completion (A : Type) : Type :=
| Normal (a : A)
| Thrown.
Arguments Normal {A} a.
Arguments Thrown {A}.

Definition and_then {A B : Type} (c : completion A) (k : A -> completion B)
  : completion B :=
  match c with Normal a => k a | Thrown => Thrown end.

(** A number is held as the text Number::toString prints for it, which
    determines the number and is all the code can observe of it: its text
    in the transcript, whether it is 200, whether it is zero.  So 200 is
    [VNum "200"] however the body spelled it, and 10^21 is [VNum "1e+21"].
    Objects list their own properties, each key once; no value of a parsed
    body is a function. *)
Inductive value : Type :=
| VUndefined
| VNull
| VBool (b : bool)
| VNum (text : string)
| VStr (s : string)
| VArr (items : list value)
| VObj (fields : list (string * value)).

Fixpoint assoc {A : Type} (k : string) (l : list (string * A)) : option A :=
  match l with
  | [] => None
  | (k', a) :: r => if String.eqb k k' then Some a else assoc k r
  end.

(** The conversion of a value to a string, as [+=] on a string, a template
    literal and the [SpeechSynthesisUtterance] constructor apply it.  An
    object is converted by calling its [toString] and [valueOf]: a plain
    object inherits both from [Object.prototype] and gives
    ["[object Object]"], unless it has a key [toString] of its own, whose
    value cannot be called; then, [valueOf] returning the object itself,
    the conversion throws a TypeError.  An array joins the conversions of
    its elements with commas, [null] and [undefined] giving the empty
    string. *)
Fixpoint ToString (v : value) : completion string :=
  match v with
  | VUndefined => Normal "undefined"
  | VNull => Normal "null"
  | VBool true => Normal "true"
  | VBool false => Normal "false"
  | VNum text => Normal text
  | VStr s => Normal s
  | VArr items =>
      (fix join (l : list value) : completion string :=
         match l with
         | [] => Normal ""
         | x :: r =>
             and_then
               (match x with
                | VUndefined | VNull => Normal ""
                | _ => ToString x
                end)
               (fun a =>
                  match r with
                  | [] => Normal a
                  | _ :: _ => and_then (join r) (fun b => Normal (a ++ "," ++ b))
                  end)
         end) items
  | VObj fields =>
      match assoc "toString" fields with
      | Some _ => Thrown
      | None => Normal "[object Object]"
      end
  end.

(** ToBoolean: the test of [if (v)], [v && ...], [v || ...]. *)
Definition truthy (v : value) : bool :=
  match v with
  | VUndefined | VNull => false
  | VBool b => b
  | VNum text => negb (orb (String.eqb text "0") (String.eqb text "NaN"))
  | VStr s => Js.nonempty s
  | VArr _ | VObj _ => true
  end.

(** [v === 200] *)
Definition is_200 (v : value) : bool :=
  match v with VNum text => String.eqb text "200" | _ => false end.

(** [v.k] for the property names the code reads ([responseStatus],
    [responseData], [translatedText]), which no built-in prototype defines:
    a TypeError on [undefined] and [null], the own property of an object,
    [undefined] otherwise. *)
Definition getProp (v : value) (k : string) : completion value :=
  match v with
  | VUndefined | VNull => Thrown
  | VObj fields =>
      Normal (match assoc k fields with Some x => x | None => VUndefined end)
  | _ => Normal VUndefined
  end.

(** ** The fixed tables of the constructor *)

(** [this.messages] *)
Module Messages.
Definition START_PROMPT : string :=
  "Click " ++ Js.dq ++ "Start Recording" ++ Js.dq ++ " to begin".
Definition RECORDING : string := "Recording in progress... Speak clearly".
Definition STOPPED : string := "Recording stopped. Your transcript is ready.".
Definition ERROR_START : string := "Error starting recognition. Please try again.".
Definition BROWSER_ERROR : string :=
  "Speech recognition is not supported in this browser. Please use Chrome or Edge.".
Definition NO_SPEECH : string := "No speech detected. Please try again.".
Definition NETWORK_ERROR : string :=
  "Network error. Please check your internet connection.".
Definition PERMISSION_ERROR : string :=
  "Microphone permission denied. Please allow microphone access.".
Definition PROCESSING_AUDIO : string := "Processing audio file...".
Definition AUDIO_PROCESSED : string := "Audio file processed successfully.".
Definition AUDIO_ERROR : string :=
  "Error processing audio file. Please try another file.".
End Messages.

(** [this.languageMapping], in the order its keys were inserted: the order
    [Object.keys] lists them in. *)
Definition languageMapping : list (string * string) :=
  [ ("en-US", "en"); ("hi-IN", "hi"); ("te-IN", "te"); ("ta-IN", "ta");
    ("kn-IN", "kn"); ("ml-IN", "ml"); ("mr-IN", "mr"); ("bn-IN", "bn");
    ("gu-IN", "gu") ].

(** The names [Object.prototype] defines.  [this.languageMapping] is an
    object literal: reading one of these names from it finds no key of its
    own and yields what the prototype holds, a function (for [__proto__],
    the prototype itself), which is truthy. *)
Definition objectPrototypeNames : list string :=
  [ "constructor"; "hasOwnProperty"; "isPrototypeOf"; "propertyIsEnumerable";
    "toLocaleString"; "toString"; "valueOf"; "__proto__";
    "__defineGetter__"; "__defineSetter__"; "__lookupGetter__";
    "__lookupSetter__" ].

(** What [this.languageMapping[selected] || 'auto'] evaluates to: a string
    (a code of the table, or ["auto"]), or the member of [Object.prototype]
    called [name]. *)
Inductive SourceLang : Type :=
| Code (code : string)
| Inherited (name : string).

Definition sourceLang_of (selected : string) : SourceLang :=
  match assoc selected languageMapping with
  | Some code => if Js.nonempty code then Code code else Code "auto"
  | None =>
      if existsb (String.eqb selected) objectPrototypeNames
      then Inherited selected
      else Code "auto"
  end.

(** ** Data the handlers exchange with the page and the host *)

(** A [<select>]: the value and the text of its selected option. *)
Record Select : Type := mkSelect { sel_value : string; sel_text : string }.

(** A [File] of the file input: [file.name], [file.type]. *)
Record File : Type := mkFile { file_name : string; file_type : string }.

(** A [SpeechSynthesisUtterance]. *)
Record Utterance : Type := mkUtterance {
  utt_text : string;
  utt_lang : string;
  utt_rate : Q;
  utt_pitch : Q
}.

(** The request [translateToEnglish] hands to [fetch]: a GET of
    [https://api.mymemory.translated.net/get?q=Q&langpair=S|T] with [Q] the
    URI-component encoding of [req_q], [T] = [req_target], and [S] the code
    [req_source] holds or, for a member of [Object.prototype], the text the
    host prints for that member. *)
Record Request : Type := mkRequest {
  req_q : string;
  req_source : SourceLang;
  req_target : string
}.

(** How [await fetch(...)] followed by [await response.json()] settles. *)
Inductive fetch_outcome : Type :=
| FetchRejects
| JsonRejects
| Parsed (data : value).

(** A host call made for its effect: it returns or it throws. *)
Inductive call_result : Type := Returns | Throws.

(** One entry of [event.results]: [results[i][0].transcript] and
    [results[i].isFinal]. *)
Record fragment : Type := mkFragment {
  frag_transcript : string;
  isFinal : bool
}.

(** An [async] handler suspended at an [await], with the locals it resumes
    with. *)
Inductive task : Type :=
| TResult (text : string) (rest : list fragment)
          (finalTranscript interimTranscript : string)
    (* onresult, in [await this.translateToEnglish(text)] *)
| TFileRead (file : File)
    (* [reader.readAsArrayBuffer(file)] under way *)
| TFileDecode
    (* reader.onload, in [await audioContext.decodeAudioData(...)] *)
| TFileDelay (filename : string)
    (* simulateAudioTranscription, in the 1500 ms wait *)
| TFileTranslate (transcript : string).
    (* reader.onload, in [await this.translateToEnglish(transcript)] *)

(** [sampleTexts] of simulateAudioTranscription, byte for byte. *)
Definition sampleTexts : list (string * string) :=
  [
     ("hi",
      "à¤¨à¤®à¤¸à¥à¤¤à¥‡, à¤¯à¤¹ à¤à¤• à¤‘à¤¡à¤¿à¤¯à¥‹ à¤«à¤¼à¤¾à¤‡à¤² à¤¹à¥ˆ à¤œà¤¿à¤¸à¥‡ à¤…à¤ªà¤²à¥‹à¤¡ à¤•à¤¿à¤¯à¤¾ à¤—à¤¯à¤¾ à¤¹à¥ˆà¥¤");
     ("te",
      "à°¹à°²à±‹, à°‡à°¦à°¿ à°…à°ªà±à°²à±‹à°¡à± à°šà±‡à°¯à°¬à°¡à°¿à°¨ à°†à°¡à°¿à°¯à±‹ à°«à±ˆà°²à±.");
     ("ta",
      "à®µà®£à®•à¯à®•à®®à¯, à®‡à®¤à¯ à®ªà®¤à®¿à®µà¯‡à®±à¯à®±à®ªà¯à®ªà®Ÿà¯à®Ÿ à®’à®²à®¿à®•à¯ à®•à¯‹à®ªà¯à®ªà¯.");
     ("kn",
      "à²¹à²²à³‹, à²‡à²¦à³ à²…à²ªà³à²²à³‹à²¡à³ à²®à²¾à²¡à²²à²¾à²¦ à²†à²¡à²¿à²¯à³‹ à²«à³ˆà²²à³.");
     ("ml",
      "à´¹à´²àµ‹, à´‡à´¤àµ à´…à´ªàµâ€Œà´²àµ‹à´¡àµ à´šàµ†à´¯àµà´¤ à´“à´¡à´¿à´¯àµ‹ à´«à´¯à´²à´¾à´£àµ.");
     ("mr",
      "à¤¨à¤®à¤¸à¥à¤•à¤¾à¤°, à¤¹à¥‡ à¤…à¤ªà¤²à¥‹à¤¡ à¤•à¥‡à¤²à¥‡à¤²à¥‡ à¤‘à¤¡à¤¿à¤“ à¤«à¤¾à¤‡à¤² à¤†à¤¹à¥‡.");
     ("bn",
      "à¦¹à§à¦¯à¦¾à¦²à§‹, à¦à¦Ÿà¦¿ à¦à¦•à¦Ÿà¦¿ à¦†à¦ªà¦²à§‹à¦¡ à¦•à¦°à¦¾ à¦…à¦¡à¦¿à¦“ à¦«à¦¾à¦‡à¦²à¥¤");
     ("gu",
      "àª¹à«‡àª²à«‹, àª† àª…àªªàª²à«‹àª¡ àª•àª°à«‡àª²à«€ àª“àª¡àª¿àª¯à«‹ àª«àª¾àª‡àª² àª›à«‡.");
     ("default",
      "Hello, this is an uploaded audio file that needs to be transcribed and translated.")
  ].

(** The fixed head of [speakButton.textContent]. *)
Definition speakLabel : string := "ðŸ”Š Speak ".

(** ** The state: the controller's fields, the page controls, the host *)

Record State : Type := mkState {
  isSupported : bool;   (* this.isSupported *)
  isRecording : bool;   (* this.isRecording *)
  transcript : string;   (* this.transcript *)
  uploadedAudio : option File;   (* this.uploadedAudio (None is null) *)
  lastTranslation : value;   (* this.lastTranslation *)
  statusText : string;   (* statusElement.textContent *)
  statusRecording : bool;   (* statusElement.classList has 'recording' *)
  startDisabled : bool;   (* startButton.disabled *)
  stopDisabled : bool;   (* stopButton.disabled *)
  languageSelect : string;   (* languageSelect.value *)
  translationLanguage : Select;   (* the selected option of translationLanguage *)
  transcriptText : string;   (* transcriptElement.textContent *)
  fileInfoText : string;   (* fileInfo.textContent *)
  processDisabled : bool;   (* processAudioButton.disabled *)
  speakDisabled : bool;   (* speakButton.disabled *)
  speakText : string;   (* speakButton.textContent *)
  recognitionLang : string;   (* recognition.lang *)
  speaking : bool;   (* speechSynthesis.speaking *)
  spoken : list Utterance;   (* utterances handed to speechSynthesis.speak, oldest first *)
  requests : list Request;   (* requests handed to fetch, oldest first *)
  tasks : list task   (* async handlers suspended at an await *)
}.

(** Field updates. *)
Definition set_isRecording (x : bool) (s : State) : State :=
  mkState
    (isSupported s) x (transcript s) (uploadedAudio s) (lastTranslation s)
    (statusText s) (statusRecording s) (startDisabled s) (stopDisabled s)
    (languageSelect s) (translationLanguage s) (transcriptText s)
    (fileInfoText s) (processDisabled s) (speakDisabled s) (speakText s)
    (recognitionLang s) (speaking s) (spoken s) (requests s) (tasks s).

Definition set_transcript (x : string) (s : State) : State :=
  mkState
    (isSupported s) (isRecording s) x (uploadedAudio s) (lastTranslation s)
    (statusText s) (statusRecording s) (startDisabled s) (stopDisabled s)
    (languageSelect s) (translationLanguage s) (transcriptText s)
    (fileInfoText s) (processDisabled s) (speakDisabled s) (speakText s)
    (recognitionLang s) (speaking s) (spoken s) (requests s) (tasks s).

Definition set_uploadedAudio (x : option File) (s : State) : State :=
  mkState
    (isSupported s) (isRecording s) (transcript s) x (lastTranslation s)
    (statusText s) (statusRecording s) (startDisabled s) (stopDisabled s)
    (languageSelect s) (translationLanguage s) (transcriptText s)
    (fileInfoText s) (processDisabled s) (speakDisabled s) (speakText s)
    (recognitionLang s) (speaking s) (spoken s) (requests s) (tasks s).

Definition set_lastTranslation (x : value) (s : State) : State :=
  mkState
    (isSupported s) (isRecording s) (transcript s) (uploadedAudio s) x
    (statusText s) (statusRecording s) (startDisabled s) (stopDisabled s)
    (languageSelect s) (translationLanguage s) (transcriptText s)
    (fileInfoText s) (processDisabled s) (speakDisabled s) (speakText s)
    (recognitionLang s) (speaking s) (spoken s) (requests s) (tasks s).

Definition set_statusText (x : string) (s : State) : State :=
  mkState
    (isSupported s) (isRecording s) (transcript s) (uploadedAudio s)
    (lastTranslation s) x (statusRecording s) (startDisabled s)
    (stopDisabled s) (languageSelect s) (translationLanguage s)
    (transcriptText s) (fileInfoText s) (processDisabled s)
    (speakDisabled s) (speakText s) (recognitionLang s) (speaking s)
    (spoken s) (requests s) (tasks s).

Definition set_statusRecording (x : bool) (s : State) : State :=
  mkState
    (isSupported s) (isRecording s) (transcript s) (uploadedAudio s)
    (lastTranslation s) (statusText s) x (startDisabled s) (stopDisabled s)
    (languageSelect s) (translationLanguage s) (transcriptText s)
    (fileInfoText s) (processDisabled s) (speakDisabled s) (speakText s)
    (recognitionLang s) (speaking s) (spoken s) (requests s) (tasks s).

Definition set_startDisabled (x : bool) (s : State) : State :=
  mkState
    (isSupported s) (isRecording s) (transcript s) (uploadedAudio s)
    (lastTranslation s) (statusText s) (statusRecording s) x
    (stopDisabled s) (languageSelect s) (translationLanguage s)
    (transcriptText s) (fileInfoText s) (processDisabled s)
    (speakDisabled s) (speakText s) (recognitionLang s) (speaking s)
    (spoken s) (requests s) (tasks s).

Definition set_stopDisabled (x : bool) (s : State) : State :=
  mkState
    (isSupported s) (isRecording s) (transcript s) (uploadedAudio s)
    (lastTranslation s) (statusText s) (statusRecording s)
    (startDisabled s) x (languageSelect s) (translationLanguage s)
    (transcriptText s) (fileInfoText s) (processDisabled s)
    (speakDisabled s) (speakText s) (recognitionLang s) (speaking s)
    (spoken s) (requests s) (tasks s).

Definition set_languageSelect (x : string) (s : State) : State :=
  mkState
    (isSupported s) (isRecording s) (transcript s) (uploadedAudio s)
    (lastTranslation s) (statusText s) (statusRecording s)
    (startDisabled s) (stopDisabled s) x (translationLanguage s)
    (transcriptText s) (fileInfoText s) (processDisabled s)
    (speakDisabled s) (speakText s) (recognitionLang s) (speaking s)
    (spoken s) (requests s) (tasks s).

Definition set_translationLanguage (x : Select) (s : State) : State :=
  mkState
    (isSupported s) (isRecording s) (transcript s) (uploadedAudio s)
    (lastTranslation s) (statusText s) (statusRecording s)
    (startDisabled s) (stopDisabled s) (languageSelect s) x
    (transcriptText s) (fileInfoText s) (processDisabled s)
    (speakDisabled s) (speakText s) (recognitionLang s) (speaking s)
    (spoken s) (requests s) (tasks s).

Definition set_transcriptText (x : string) (s : State) : State :=
  mkState
    (isSupported s) (isRecording s) (transcript s) (uploadedAudio s)
    (lastTranslation s) (statusText s) (statusRecording s)
    (startDisabled s) (stopDisabled s) (languageSelect s)
    (translationLanguage s) x (fileInfoText s) (processDisabled s)
    (speakDisabled s) (speakText s) (recognitionLang s) (speaking s)
    (spoken s) (requests s) (tasks s).

Definition set_fileInfoText (x : string) (s : State) : State :=
  mkState
    (isSupported s) (isRecording s) (transcript s) (uploadedAudio s)
    (lastTranslation s) (statusText s) (statusRecording s)
    (startDisabled s) (stopDisabled s) (languageSelect s)
    (translationLanguage s) (transcriptText s) x (processDisabled s)
    (speakDisabled s) (speakText s) (recognitionLang s) (speaking s)
    (spoken s) (requests s) (tasks s).

Definition set_processDisabled (x : bool) (s : State) : State :=
  mkState
    (isSupported s) (isRecording s) (transcript s) (uploadedAudio s)
    (lastTranslation s) (statusText s) (statusRecording s)
    (startDisabled s) (stopDisabled s) (languageSelect s)
    (translationLanguage s) (transcriptText s) (fileInfoText s) x
    (speakDisabled s) (speakText s) (recognitionLang s) (speaking s)
    (spoken s) (requests s) (tasks s).

Definition set_speakDisabled (x : bool) (s : State) : State :=
  mkState
    (isSupported s) (isRecording s) (transcript s) (uploadedAudio s)
    (lastTranslation s) (statusText s) (statusRecording s)
    (startDisabled s) (stopDisabled s) (languageSelect s)
    (translationLanguage s) (transcriptText s) (fileInfoText s)
    (processDisabled s) x (speakText s) (recognitionLang s) (speaking s)
    (spoken s) (requests s) (tasks s).

Definition set_speakText (x : string) (s : State) : State :=
  mkState
    (isSupported s) (isRecording s) (transcript s) (uploadedAudio s)
    (lastTranslation s) (statusText s) (statusRecording s)
    (startDisabled s) (stopDisabled s) (languageSelect s)
    (translationLanguage s) (transcriptText s) (fileInfoText s)
    (processDisabled s) (speakDisabled s) x (recognitionLang s)
    (speaking s) (spoken s) (requests s) (tasks s).

Definition set_recognitionLang (x : string) (s : State) : State :=
  mkState
    (isSupported s) (isRecording s) (transcript s) (uploadedAudio s)
    (lastTranslation s) (statusText s) (statusRecording s)
    (startDisabled s) (stopDisabled s) (languageSelect s)
    (translationLanguage s) (transcriptText s) (fileInfoText s)
    (processDisabled s) (speakDisabled s) (speakText s) x (speaking s)
    (spoken s) (requests s) (tasks s).

Definition set_speaking (x : bool) (s : State) : State :=
  mkState
    (isSupported s) (isRecording s) (transcript s) (uploadedAudio s)
    (lastTranslation s) (statusText s) (statusRecording s)
    (startDisabled s) (stopDisabled s) (languageSelect s)
    (translationLanguage s) (transcriptText s) (fileInfoText s)
    (processDisabled s) (speakDisabled s) (speakText s) (recognitionLang s)
    x (spoken s) (requests s) (tasks s).

Definition set_spoken (x : list Utterance) (s : State) : State :=
  mkState
    (isSupported s) (isRecording s) (transcript s) (uploadedAudio s)
    (lastTranslation s) (statusText s) (statusRecording s)
    (startDisabled s) (stopDisabled s) (languageSelect s)
    (translationLanguage s) (transcriptText s) (fileInfoText s)
    (processDisabled s) (speakDisabled s) (speakText s) (recognitionLang s)
    (speaking s) x (requests s) (tasks s).

Definition set_requests (x : list Request) (s : State) : State :=
  mkState
    (isSupported s) (isRecording s) (transcript s) (uploadedAudio s)
    (lastTranslation s) (statusText s) (statusRecording s)
    (startDisabled s) (stopDisabled s) (languageSelect s)
    (translationLanguage s) (transcriptText s) (fileInfoText s)
    (processDisabled s) (speakDisabled s) (speakText s) (recognitionLang s)
    (speaking s) (spoken s) x (tasks s).

Definition set_tasks (x : list task) (s : State) : State :=
  mkState
    (isSupported s) (isRecording s) (transcript s) (uploadedAudio s)
    (lastTranslation s) (statusText s) (statusRecording s)
    (startDisabled s) (stopDisabled s) (languageSelect s)
    (translationLanguage s) (transcriptText s) (fileInfoText s)
    (processDisabled s) (speakDisabled s) (speakText s) (recognitionLang s)
    (speaking s) (spoken s) (requests s) x.

(** ** Handlers: state transformers that may throw *)

Definition M (A : Type) : Type := State -> completion A * State.

Definition ret {A : Type} (a : A) : M A := fun s => (Normal a, s).

Definition bind {A B : Type} (m : M A) (k : A -> M B) : M B :=
  fun s =>
    match m s with
    | (Normal a, s') => k a s'
    | (Thrown, s') => (Thrown, s')
    end.

Definition throw {A : Type} : M A := fun s => (Thrown, s).

(** [try { body } catch (error) { handler }]; the handler starts from the
    state the body had reached. *)
Definition try_catch {A : Type} (body handler : M A) : M A :=
  fun s =>
    match body s with
    | (Normal a, s') => (Normal a, s')
    | (Thrown, s') => handler s'
    end.

(** An expression evaluated for its value, which may throw. *)
Definition lift {A : Type} (c : completion A) : M A := fun s => (c, s).

Definition gets {A : Type} (f : State -> A) : M A := fun s => (Normal (f s), s).
Definition modify (f : State -> State) : M unit := fun s => (Normal tt, f s).

Declare Scope handler_scope.
Delimit Scope handler_scope with handler.
Notation "x <- m ;; k" := (bind m (fun x => k))
  (at level 61, m at next level, right associativity) : handler_scope.
Notation "m ;; k" := (bind m (fun _ => k))
  (at level 61, right associativity) : handler_scope.
Local Open Scope handler_scope.

(** A call into the host made for its effect. *)
Definition call (r : call_result) : M unit :=
  match r with Returns => ret tt | Throws => throw end.

(** Reaching an [await]: the handler is parked. *)
Definition suspend (t : task) : M unit :=
  modify (fun s => set_tasks (tasks s ++ [t]) s).

(** The state a handler leaves, and how it completes. *)
Definition exec {A : Type} (m : M A) (s : State) : State := snd (m s).
Definition completes {A : Type} (m : M A) (s : State) : completion A := fst (m s).

(** *** startRecording, stopRecording and the recognizer callbacks *)

Definition startRecording (start : call_result) : M unit :=
  supported <- gets isSupported ;;
  if negb supported then modify (set_statusText Messages.BROWSER_ERROR)
  else
    try_catch
      (lang <- gets languageSelect ;;
       modify (set_recognitionLang lang) ;;
       call start ;;                                   (* recognition.start() *)
       modify (set_isRecording true) ;;
       modify (set_startDisabled true) ;;
       modify (set_stopDisabled false) ;;
       modify (set_statusText Messages.RECORDING) ;;
       modify (set_statusRecording true))
      (modify (set_statusText Messages.ERROR_START)).

Definition stopRecording (stop : call_result) : M unit :=
  supported <- gets isSupported ;;
  if negb supported then ret tt
  else
    try_catch
      (call stop ;;                                    (* recognition.stop() *)
       modify (set_isRecording false) ;;
       modify (set_startDisabled false) ;;
       modify (set_stopDisabled true) ;;
       modify (set_statusText Messages.STOPPED) ;;
       modify (set_statusRecording false))
      (ret tt).                                        (* console.error only *)

(** [recognition.onnomatch] *)
Definition onnomatch : M unit := modify (set_statusText Messages.NO_SPEECH).

(** The message [recognition.onerror] picks for [event.error]. *)
Definition errorMessage (error : string) : string :=
  if String.eqb error "network" then Messages.NETWORK_ERROR
  else if String.eqb error "not-allowed" then Messages.PERMISSION_ERROR
  else Messages.ERROR_START.

(** [recognition.onerror] *)
Definition onerror (error : string) (stop : call_result) : M unit :=
  modify (set_statusText (errorMessage error)) ;;
  stopRecording stop.

(** *** handleFileSelect *)

Definition handleFileSelect (file : option File) : M unit :=
  match file with
  | Some f =>
      if Js.startsWith (file_type f) "audio/" then
        modify (set_uploadedAudio (Some f)) ;;
        modify (set_fileInfoText ("Selected: " ++ file_name f)) ;;
        modify (set_processDisabled false)
      else
        modify (set_fileInfoText "Please select an audio file") ;;
        modify (set_processDisabled true) ;;
        modify (set_uploadedAudio None)
  | None =>
      modify (set_fileInfoText "No file selected") ;;
      modify (set_processDisabled true) ;;
      modify (set_uploadedAudio None)
  end.

(** *** simulateAudioTranscription, after its delay *)

(** [this.languageMapping[key]], as a string. *)
Definition mapped (key : string) : string :=
  match assoc key languageMapping with Some code => code | None => "undefined" end.

Definition detectedLang (filename : string) : option string :=
  find (fun key => Js.includes (Js.toLowerCase filename) (mapped key))
       (map fst languageMapping).

Definition simulateAudioTranscription (filename : string) : string :=
  let sourceLang :=
    match detectedLang filename with
    | Some key => mapped key
    | None => "default"
    end in
  let fallback :=
    match assoc "default" sampleTexts with Some t => t | None => "undefined" end in
  match assoc sourceLang sampleTexts with
  | Some t => if Js.nonempty t then t else fallback
  | None => fallback
  end.

(** *** updateTranscript and speakTranslation *)

Definition updateTranscript (finalTranscript : value) (interimTranscript : string)
  : M unit :=
  (if truthy finalTranscript then
     modify (set_lastTranslation finalTranscript) ;;
     targetLangName <- gets (fun s => sel_text (translationLanguage s)) ;;
     translation <- lift (ToString finalTranscript) ;;   (* ${finalTranscript} *)
     modify (fun s =>
       set_transcript
         (transcript s ++ "Original: " ++ interimTranscript ++ Js.nl
            ++ targetLangName ++ " Translation: " ++ translation
            ++ Js.nl ++ Js.nl) s) ;;
     modify (set_speakDisabled false)
   else ret tt) ;;
  modify (fun s =>
    set_transcriptText
      (transcript s ++
         (if Js.nonempty interimTranscript
          then "Speaking: " ++ interimTranscript else "")) s).

(** [speechSynthesis.speak(u)]: the host takes the utterance. *)
Definition speak (u : Utterance) : M unit :=
  modify (fun s => set_spoken (spoken s ++ [u]) s).

Definition speakTranslation : M unit :=
  last <- gets lastTranslation ;;
  busy <- gets speaking ;;
  if andb (truthy last) (negb busy) then
    text <- lift (ToString last) ;;      (* new SpeechSynthesisUtterance(...) *)
    target <- gets (fun s => sel_value (translationLanguage s)) ;;
    let utterance :=
      {| utt_text := text;
         utt_lang := if String.eqb target "en" then "en-US" else target;
         utt_rate := 9 # 10;
         utt_pitch := 1 |} in
    speak utterance
  else ret tt.

(** *** translateToEnglish *)

(** Up to [await fetch(...)]: the request is built from the two selects and
    handed to the host, and the call waits for the answer ([true]); or
    [encodeURIComponent] throws on the text, nothing is handed to the host
    and the [catch] returns the text ([false]). *)
Definition translateToEnglish_send (text : string) : M bool :=
  try_catch
    (selected <- gets languageSelect ;;
     let sourceLang := sourceLang_of selected in
     targetLang <- gets (fun s => sel_value (translationLanguage s)) ;;
     (if Js.lone_surrogate text then throw else ret tt) ;;   (* encodeURIComponent(text) *)
     modify (fun s =>
       set_requests (requests s ++ [mkRequest text sourceLang targetLang]) s) ;;
     ret true)
    (ret false).

(** From the settled request to the returned value: the rest of the [try]
    block and its [catch]. *)
Definition translateToEnglish_settle (text : string) (o : fetch_outcome) : value :=
  let body : completion value :=
    match o with
    | FetchRejects => Thrown
    | JsonRejects => Thrown
    | Parsed data =>
        and_then (getProp data "responseStatus") (fun status =>
          if is_200 status then
            and_then (getProp data "responseData") (fun responseData =>
              getProp responseData "translatedText")
          else Normal (VStr text))
    end in
  match body with
  | Normal v => v
  | Thrown => VStr text
  end.

(** The whole call, with the way its request settles when one is made. *)
Definition translateToEnglish (text : string) (o : fetch_outcome) : M value :=
  sent <- translateToEnglish_send text ;;
  if sent : bool then ret (translateToEnglish_settle text o)
  else ret (VStr text).

(** *** recognition.onresult *)

(** A result event: [event.resultIndex] and [event.results]. *)
Record RecognitionEvent : Type := mkEvent {
  resultIndex : nat;
  results : list fragment
}.

(** The body of the [for] loop from entry [results], with the two
    accumulators; it parks at the first final entry whose request is made.
    A final entry whose request cannot be made gets its own text back from
    translateToEnglish, and the loop goes on. *)
Fixpoint onresult_from (results : list fragment)
    (finalTranscript interimTranscript : string) : M unit :=
  match results with
  | [] => updateTranscript (VStr finalTranscript) interimTranscript
  | r :: rest =>
      let transcript := frag_transcript r in
      if isFinal r then
        sent <- translateToEnglish_send transcript ;;
        if sent : bool then
          suspend (TResult transcript rest finalTranscript interimTranscript)
        else
          onresult_from rest (finalTranscript ++ transcript) interimTranscript
      else onresult_from rest finalTranscript (interimTranscript ++ transcript)
  end.

Definition onresult (event : RecognitionEvent) : M unit :=
  onresult_from (skipn (resultIndex event) (results event)) "" "".

(** *** processAudioFile and its reader callbacks *)

Definition processAudioFile : M unit :=
  uploaded <- gets uploadedAudio ;;
  match uploaded with
  | None => ret tt
  | Some file =>
      modify (set_statusText Messages.PROCESSING_AUDIO) ;;
      suspend (TFileRead file)
  end.

(** What the host answers to a suspended task. *)
Inductive reply : Type :=
| Loaded
| ReadFails
| Decoded
| DecodeFails
| TimerFires
| Fetched (o : fetch_outcome).

Definition audio_error : M unit := modify (set_statusText Messages.AUDIO_ERROR).

(** The continuation of a suspended handler on the host's answer; [None]
    when the answer is not one this task waits for. *)
Definition resume (t : task) (r : reply) : option (M unit) :=
  match t, r with
  | TResult text rest finalTranscript interimTranscript, Fetched o =>
      let translatedText := translateToEnglish_settle text o in
      Some (added <- lift (ToString translatedText) ;;   (* finalTranscript += translatedText *)
            onresult_from rest (finalTranscript ++ added) interimTranscript)
  | TFileRead _, Loaded => Some (suspend TFileDecode)
  | TFileRead _, ReadFails => Some audio_error
  | TFileDecode, Decoded =>
      Some (try_catch
              (uploaded <- gets uploadedAudio ;;
               match uploaded with
               | None => throw                (* this.uploadedAudio.name on null *)
               | Some file => suspend (TFileDelay (file_name file))
               end)
              audio_error)
  | TFileDecode, DecodeFails => Some audio_error
  | TFileDelay filename, TimerFires =>
      let transcript := simulateAudioTranscription filename in
      Some (try_catch
              (sent <- translateToEnglish_send transcript ;;
               if sent : bool then suspend (TFileTranslate transcript)
               else
                 updateTranscript (VStr transcript) transcript ;;
                 modify (set_statusText Messages.AUDIO_PROCESSED))
              audio_error)
  | TFileTranslate transcript, Fetched o =>
      let translatedText := translateToEnglish_settle transcript o in
      Some (try_catch
              (updateTranscript translatedText transcript ;;
               modify (set_statusText Messages.AUDIO_PROCESSED))
              audio_error)
  | _, _ => None
  end.

(** ** The page as an event-driven machine *)

(** What the user and the host can do to the page. *)
Inductive event : Type :=
| ClickStart (start : call_result)
| ClickStop (stop : call_result)
| ChangeLanguage (v : string)
| ChangeTranslationLanguage (sel : Select)
| ChangeFile (file : option File)
| ClickProcess
| ClickSpeak
| Result (ev : RecognitionEvent)
| NoMatch
| Error (error : string) (stop : call_result)
| Settle (k : nat) (r : reply)
| Synthesizer (busy : bool).

Fixpoint remove_nth {A : Type} (k : nat) (l : list A) {struct l} : list A :=
  match l with
  | [] => []
  | x :: r =>
      match k with
      | O => r
      | S k' => x :: remove_nth k' r
      end
  end.

(** The listener run for an event.  A disabled button sends no click; the
    recognizer callbacks exist only when recognition is supported. *)
Definition listener (e : event) : M unit :=
  match e with
  | ClickStart start =>
      disabled <- gets startDisabled ;;
      if disabled then ret tt else startRecording start
  | ClickStop stop =>
      disabled <- gets stopDisabled ;;
      if disabled then ret tt else stopRecording stop
  | ChangeLanguage v =>
      modify (set_languageSelect v) ;;
      supported <- gets isSupported ;;
      if supported then modify (set_recognitionLang v) else ret tt
  | ChangeTranslationLanguage sel =>
      modify (set_translationLanguage sel) ;;
      modify (set_speakText (speakLabel ++ sel_text sel))
  | ChangeFile file => handleFileSelect file
  | ClickProcess =>
      disabled <- gets processDisabled ;;
      if disabled then ret tt else processAudioFile
  | ClickSpeak =>
      disabled <- gets speakDisabled ;;
      if disabled then ret tt else speakTranslation
  | Result ev =>
      supported <- gets isSupported ;;
      if supported then onresult ev else ret tt
  | NoMatch =>
      supported <- gets isSupported ;;
      if supported then onnomatch else ret tt
  | Error error stop =>
      supported <- gets isSupported ;;
      if supported then onerror error stop else ret tt
  | Settle k r =>
      pending <- gets tasks ;;
      match nth_error pending k with
      | None => ret tt
      | Some t =>
          match resume t r with
          | None => ret tt
          | Some continuation =>
              modify (set_tasks (remove_nth k pending)) ;;
              continuation
          end
      end
  | Synthesizer busy => modify (set_speaking busy)
  end.

Definition step (s : State) (e : event) : State := exec (listener e) s.

Definition run (s : State) (es : list event) : State := fold_left step es s.

(** The constructor, on the page as loaded: only the page's controls are
    read from [page]. *)
Definition constructor (supported : bool) (page : State) : State :=
  let s :=
    mkState supported false "" None (VStr "")
      (statusText page) (statusRecording page) (startDisabled page)
      (stopDisabled page) (languageSelect page) (translationLanguage page)
      (transcriptText page) (fileInfoText page) (processDisabled page)
      (speakDisabled page)
      (speakLabel ++ sel_text (translationLanguage page))
      "" (speaking page) [] [] [] in
  if supported then s
  else set_stopDisabled true
         (set_startDisabled true (set_statusText Messages.BROWSER_ERROR s)).

(** ** A page to run the handlers on *)

(** A page as it could load: Hindi as the spoken language, English as the
    target, the stop, process and speak buttons disabled. *)
Definition example_page : State :=
  mkState true false "" None (VStr "") "Ready" false false true
    "hi-IN" (mkSelect "en" "English") "" "" true true "" "" false [] [] [].

Definition example_ready : State := constructor true example_page.

Definition example_recording : State := step example_ready (ClickStart Returns).

(** A well-formed answer of the translation service. *)
Definition translated (text : string) : value :=
  VObj [ ("responseData", VObj [ ("translatedText", VStr text) ]);
         ("responseStatus", VNum "200") ].

(** [null] or [undefined]. *)
Definition nullish (v : value) : bool :=
  match v with VUndefined | VNull => true | _ => false end.

(** ** Notions the properties are stated with *)

(** A handler that can only append to [this.transcript]. *)
Definition grows {A : Type} (m : M A) : Prop :=
  forall s : State, exists x : string, transcript (exec m s) = transcript s ++ x.

(** The entries of an event whose translation the loop awaits: the final
    ones for which a request can be made. *)
Definition awaited (frs : list fragment) : list fragment :=
  filter (fun f => andb (isFinal f) (negb (Js.lone_surrogate (frag_transcript f))))
         frs.

(** The text of the entries that are not final, in order. *)
Fixpoint interim_text (frs : list fragment) : string :=
  match frs with
  | [] => ""
  | f :: rest =>
      if isFinal f then interim_text rest
      else frag_transcript f ++ interim_text rest
  end.

(** What translateToEnglish returns for the final entries, converted to
    text and concatenated in order, when the requests made settle as [os]:
    the text of the entry itself where no request can be made.  A
    conversion that throws ends the handler; where [os] ends, so does the
    text. *)
Fixpoint final_text (frs : list fragment) (os : list fetch_outcome)
  : completion string :=
  match frs with
  | [] => Normal ""
  | f :: rest =>
      if isFinal f then
        if Js.lone_surrogate (frag_transcript f) then
          and_then (final_text rest os) (fun r => Normal (frag_transcript f ++ r))
        else
          match os with
          | o :: os' =>
              and_then (ToString (translateToEnglish_settle (frag_transcript f) o))
                (fun translation =>
                   and_then (final_text rest os') (fun r => Normal (translation ++ r)))
          | [] => Normal ""
          end
      else final_text rest os
  end.

(** The block updateTranscript appends. *)
Definition block (original targetLangName translation : string) : string :=
  "Original: " ++ original ++ Js.nl ++ targetLangName ++ " Translation: "
    ++ translation ++ Js.nl ++ Js.nl.

(** What a result event adds to the transcript. *)
Definition entry (s : State) (original translation : string) : string :=
  if Js.nonempty translation
  then block original (sel_text (translationLanguage s)) translation
  else "".

(** A result event handled with nothing in between: the event, then the
    settling of each of its requests in turn. *)
Definition uninterrupted (s : State) (ev : RecognitionEvent)
    (os : list fetch_outcome) : State :=
  run (step s (Result ev))
      (map (fun o => Settle (length (tasks s)) (Fetched o)) os).

(** A result event whose entries from [resultIndex] on are one final entry
    with text [t]. *)
Definition single_final (ev : RecognitionEvent) (t : string) : Prop :=
  skipn (resultIndex ev) (results ev) = [mkFragment t true].

(** A handler that leaves the recording flag, the start button and the
    support flag alone. *)
Definition keeps_recording {A : Type} (m : M A) : Prop :=
  forall s : State,
    isRecording (exec m s) = isRecording s /\
    startDisabled (exec m s) = startDisabled s /\
    isSupported (exec m s) = isSupported s.

(** While the start button can be clicked, nothing is being recorded. *)
Definition idle_when_startable (s : State) : Prop :=
  startDisabled s = false -> isRecording s = false.

(** A handler that leaves the observation [f] of the state as it was. *)
Definition frame {A B : Type} (f : State -> B) (m : M A) : Prop :=
  forall s : State, f (exec m s) = f s.

(** The controls startRecording and stopRecording write, with the two
    languages. *)
Definition recording_controls (s : State)
  : bool * bool * bool * bool * bool * string * string :=
  (isSupported s, isRecording s, startDisabled s, stopDisabled s,
   statusRecording s, recognitionLang s, languageSelect s).

(** While recording: start disabled, stop enabled, the status styled, and
    the recognizer listening in the selected language. *)
Definition recording_consistent (s : State) : Prop :=
  isRecording s = true ->
  isSupported s = true /\ startDisabled s = true /\ stopDisabled s = false /\
  statusRecording s = true /\ recognitionLang s = languageSelect s.


(** A page on which recognition is unsupported and switched off. *)
Definition switched_off (s : State) : Prop :=
  isSupported s = false /\ isRecording s = false /\ startDisabled s = true /\
  stopDisabled s = true /\ recognitionLang s = "".

(** The stored upload and the button that processes it. *)
Definition upload_controls (s : State) : option File * bool :=
  (uploadedAudio s, processDisabled s).

(** A stored upload is an audio file, and then the process button is
    enabled. *)
Definition upload_consistent (s : State) : Prop :=
  forall f : File,
    uploadedAudio s = Some f ->
    Js.startsWith (file_type f) "audio/" = true /\ processDisabled s = false.

(** The target language and the label of the speak button. *)
Definition speak_controls (s : State) : Select * string :=
  (translationLanguage s, speakText s).


(** A handler that keeps [P] true. *)
Definition preserves {A : Type} (P : State -> Prop) (m : M A) : Prop :=
  forall s : State, P s -> P (exec m s).

(** What updateTranscript and speakTranslation write. *)
Definition transcript_controls (s : State)
  : string * value * bool * string * list Utterance * bool :=
  (transcript s, lastTranslation s, speakDisabled s, transcriptText s,
   spoken s, speaking s).

(** The last translation is the empty string it started as, or truthy.
    Once the transcript is not empty, the last translation is truthy and the
    speak button is enabled; a truthy last translation that has a text put
    a block in the transcript.  The display starts with the transcript;
    utterances were handed over only after the first block, each at rate
    0.9 and pitch 1. *)
Definition transcript_consistent (s : State) : Prop :=
  (lastTranslation s = VStr "" \/ truthy (lastTranslation s) = true) /\
  (transcript s <> "" ->
   truthy (lastTranslation s) = true /\ speakDisabled s = false) /\
  (truthy (lastTranslation s) = true ->
   forall text : string,
     ToString (lastTranslation s) = Normal text -> transcript s <> "") /\
  (exists x : string, transcriptText s = transcript s ++ x) /\
  (spoken s <> [] -> transcript s <> "") /\
  Forall (fun u => utt_rate u = 9 # 10 /\ utt_pitch u = 1%Q) (spoken s).


(** What only a result event or a resumed handler may write. *)
Definition translation_state (s : State)
  : string * value * string * list Request * bool :=
  (transcript s, lastTranslation s, transcriptText s, requests s,
   speakDisabled s).

(** The two language selects. *)
Definition language_selects (s : State) : string * Select :=
  (languageSelect s, translationLanguage s).


(** One upload processed with nothing in between: the click, then the
    host's answers to the handler, in turn. *)
Definition processing (s : State) (replies : list reply) : list event :=
  ClickProcess :: map (Settle (length (tasks s))) replies.

(** The same, with the file input changed while the file is being read. *)
Definition processing_after_change (s : State) (file : option File)
    (replies : list reply) : list event :=
  ClickProcess :: ChangeFile file :: map (Settle (length (tasks s))) replies.

(** The request translateToEnglish builds for [text] on page [s]. *)
Definition request_for (s : State) (text : string) : Request :=
  mkRequest text (sourceLang_of (languageSelect s))
    (sel_value (translationLanguage s)).

(** The line of the display that follows the transcript. *)
Definition speaking_line (interim : string) : string :=
  if Js.nonempty interim then "Speaking: " ++ interim else "".


(** What a handler suspended in a translation needs when it resumes, with
    what it must not have written meanwhile. *)
Definition pending_translation_state (s : State)
  : list task * string * Select * list Request * value :=
  (tasks s, transcript s, translationLanguage s, requests s, lastTranslation s).


(** Two strings that differ at most in the case of ASCII letters. *)
Inductive case_variant : string -> string -> Prop :=
| case_variant_nil : case_variant "" ""
| case_variant_cons (c d : ascii) (a b : string) :
    Js.lower_ascii c = Js.lower_ascii d ->
    case_variant a b ->
    case_variant (String c a) (String d b).


(** An answer of the translation service whose [translatedText] is [v]. *)
Definition answering (v : value) : value :=
  VObj [ ("responseData", VObj [ ("translatedText", v) ]);
         ("responseStatus", VNum "200") ].

(** A value that is truthy and has no text: [{toString: 1}]. *)
Definition textless : value := VObj [ ("toString", VNum "1") ].

(** A page on which the speak button is enabled and the last translation
    has no text: a result is translated to "hello", then an uploaded file
    is processed and the service answers with [textless]. *)
Definition example_textless : State :=
  run example_ready
    [ Result (mkEvent 0 [mkFragment "namaste" true]);
      Settle 0 (Fetched (Parsed (translated "hello")));
      ChangeFile (Some (mkFile "talk_hi.wav" "audio/wav"));
      ClickProcess;
      Settle 0 Loaded; Settle 0 Decoded; Settle 0 TimerFires;
      Settle 0 (Fetched (Parsed (answering textless))) ].

(** What a handler suspended in the translation of [text], with entries
    [rest] to go and [finalTranscript] so far, will hand to updateTranscript
    when its requests settle as [os] (with fewer answers than requests, the
    accumulator it has then). *)
Definition task_final (text : string) (rest : list fragment)
    (finalTranscript : string) (os : list fetch_outcome) : completion string :=
  match os with
  | [] => Normal finalTranscript
  | o :: os' =>
      and_then (ToString (translateToEnglish_settle text o)) (fun translation =>
      and_then (final_text rest os') (fun r =>
      Normal (finalTranscript ++ translation ++ r)))
  end.

(** A handler that only adds to the suspended handlers. *)
Definition extends {A : Type} (m : M A) : Prop :=
  forall s : State, exists new : list task, tasks (exec m s) = (tasks s ++ new)%list.

(** The suspended handlers an event leaves suspended. *)
Definition remaining (s : State) (e : event) : list task :=
  match e with
  | Settle j r =>
      match nth_error (tasks s) j with
      | Some t =>
          match resume t r with
          | Some _ => remove_nth j (tasks s)
          | None => tasks s
          end
      | None => tasks s
      end
  | _ => tasks s
  end.

(** Where the handler suspended at index [k] on page [s] is found after
    event [e], an event that does not resume it: one place down when a
    handler before it is resumed. *)
Definition shifted (s : State) (k : nat) (e : event) : nat :=
  match e with
  | Settle j r =>
      match nth_error (tasks s) j with
      | Some t =>
          match resume t r with
          | Some _ => if Nat.ltb j k then pred k else k
          | None => k
          end
      | None => k
      end
  | _ => k
  end.

(** What happens while a handler is suspended: any other event of the page,
    or the answer to the handler's request. *)
Inductive move : Type :=
| Other (e : event)
| Answer (o : fetch_outcome).

(** The page after the moves [sch], with the index at which the handler
    that was suspended at [k] is suspended then: when resumed, a handler
    that suspends again is the last of the suspended handlers. *)
Fixpoint play (s : State) (k : nat) (sch : list move) : State * nat :=
  match sch with
  | [] => (s, k)
  | Other e :: sch' => play (step s e) (shifted s k e) sch'
  | Answer o :: sch' =>
      let s' := step s (Settle k (Fetched o)) in
      play s' (pred (length (tasks s'))) sch'
  end.

(** No other event of [sch] settles the handler suspended at [k]. *)
Fixpoint apart (s : State) (k : nat) (sch : list move) : Prop :=
  match sch with
  | [] => True
  | Other e :: sch' =>
      (forall r : reply, e <> Settle k r) /\ apart (step s e) (shifted s k e) sch'
  | Answer o :: sch' =>
      let s' := step s (Settle k (Fetched o)) in
      apart s' (pred (length (tasks s'))) sch'
  end.

(** The answers among the moves, in order. *)
Fixpoint answers (sch : list move) : list fetch_outcome :=
  match sch with
  | [] => []
  | Other _ :: sch' => answers sch'
  | Answer o :: sch' => o :: answers sch'
  end.

(** The code unit D800, a surrogate, alone. *)
Definition lone : string :=
  String (ascii_of_nat 237) (String (ascii_of_nat 160) (String (ascii_of_nat 128) EmptyString)).

(** The handlers of two result events. *)
Inductive side : Type := First | Second.

Definition side_eqb (a b : side) : bool :=
  match a, b with
  | First, First | Second, Second => true
  | _, _ => false
  end.

Definition other (sd : side) : side :=
  match sd with First => Second | Second => First end.

(** The answers a schedule gives to one of the two handlers, in order. *)
Definition answers_to (sd : side) (sch : list (side * fetch_outcome))
  : list fetch_outcome :=
  map snd (filter (fun m => side_eqb (fst m) sd) sch).

(** The handler answered last. *)
Fixpoint last_side (sch : list (side * fetch_outcome)) : option side :=
  match sch with
  | [] => None
  | (sd, _) :: sch' =>
      match sch' with
      | [] => Some sd
      | _ :: _ => last_side sch'
      end
  end.

(** Where a handler resumed on page [before] is suspended on page [after]:
    last, when it has suspended again (as many handlers are suspended as
    before); nowhere, when it has ended. *)
Definition parked_again (before after : State) : option nat :=
  if Nat.eqb (length (tasks after)) (length (tasks before))
  then Some (pred (length (tasks after)))
  else None.

(** The indices at which the two handlers are suspended. *)
Definition positions (k1 k2 : option nat) (sd : side) : option nat :=
  match sd with First => k1 | Second => k2 end.

(** The page after the answers [sch], each given to the handler it names,
    found at the index [pos] holds for it. *)
Fixpoint play2 (s : State) (pos : side -> option nat)
    (sch : list (side * fetch_outcome)) : State :=
  match sch with
  | [] => s
  | (sd, o) :: sch' =>
      match pos sd with
      | None => s
      | Some k =>
          let e := Settle k (Fetched o) in
          let s' := step s e in
          play2 s'
            (fun x => if side_eqb x sd then parked_again s s'
                      else option_map (fun j => shifted s j e) (pos x))
            sch'
      end
  end.

(** A result handler suspended at index [k], which will hand [Fin] and
    [Itot] to updateTranscript when its requests settle as [R]. *)
Definition pending (a : State) (k : nat) (R : list fetch_outcome)
    (Itot Fin : string) : Prop :=
  exists (text : string) (rest : list fragment) (F I : string),
    nth_error (tasks a) k = Some (TResult text rest F I) /\
    length R = S (length (awaited rest)) /\
    task_final text rest F R = Normal Fin /\
    I ++ interim_text rest = Itot.

(** Whether the handler of the first of two result events ends before that
    of the second: it has ended before the second event arrives ([k1] is
    [None]); or both are suspended when the second has arrived and the last
    answer of the schedule goes to the second.  A second event with nothing
    to await ([k2] is [None]) ends when it arrives. *)
Definition first_ends_first (k1 k2 : option nat)
    (sch : list (side * fetch_outcome)) : bool :=
  match k1, k2 with
  | None, _ => true
  | Some _, None => false
  | Some _, Some _ =>
      match last_side sch with
      | Some First => false
      | _ => true
      end
  end.
(** * Properties *)

Ltac handler_unfold :=
  unfold exec, completes, bind, gets, modify, lift, try_catch, call, ret,
    throw, suspend, speak in *.

(** ** Strings *)

Lemma prefix_append (a b : string) : String.prefix a (a ++ b) = true.
Proof.
  induction a as [|c a IH]; simpl.
  - destruct b; reflexivity.
  - rewrite IH. destruct (ascii_dec c c); [reflexivity | congruence].
Qed.

Lemma append_empty_r (a : string) : a ++ "" = a.
Proof. induction a as [|c a IH]; simpl; [|rewrite IH]; reflexivity. Qed.

Lemma append_assoc (a b c : string) : (a ++ b) ++ c = a ++ (b ++ c).
Proof. induction a as [|x a IH]; simpl; [|rewrite IH]; reflexivity. Qed.

(** ** Recognizer start, stop and error *)

Lemma startRecording_throws_state (s : State) :
  isSupported s = true ->
  exec (startRecording Throws) s =
    set_statusText Messages.ERROR_START (set_recognitionLang (languageSelect s) s).
Proof.
  intros H. unfold startRecording. handler_unfold. rewrite H. reflexivity.
Qed.

Lemma stopRecording_throws_state (s : State) :
  exec (stopRecording Throws) s = s.
Proof.
  unfold stopRecording. handler_unfold. destruct (isSupported s); reflexivity.
Qed.

Lemma startRecording_completes (start : call_result) (s : State) :
  completes (startRecording start) s = Normal tt.
Proof.
  unfold startRecording. handler_unfold.
  destruct (isSupported s), start; reflexivity.
Qed.

Lemma stopRecording_completes (stop : call_result) (s : State) :
  completes (stopRecording stop) s = Normal tt.
Proof.
  unfold stopRecording. handler_unfold.
  destruct (isSupported s), stop; reflexivity.
Qed.

Lemma stopRecording_returns_status (s : State) :
  isSupported s = true ->
  statusText (exec (stopRecording Returns) s) = Messages.STOPPED.
Proof.
  intros H. unfold stopRecording. handler_unfold. rewrite H. reflexivity.
Qed.

Lemma onerror_stop_returns_status (error : string) (s : State) :
  isSupported s = true ->
  statusText (exec (onerror error Returns) s) = Messages.STOPPED.
Proof.
  intros H. unfold onerror, stopRecording. handler_unfold. simpl.
  rewrite H. reflexivity.
Qed.

(** C3: the error callback writes the message picked for the error code
    and then calls stopRecording; when [recognition.stop()] returns, that
    call writes STOPPED over it.  On a recording page, after the handler
    for a [network] error has run, the status is STOPPED, which is not the
    network message the handler had picked. *)
Theorem onerror_network_status_overwritten :
  errorMessage "network" = Messages.NETWORK_ERROR /\
  statusText (step example_recording (Error "network" Returns)) = Messages.STOPPED /\
  isRecording (step example_recording (Error "network" Returns)) = false /\
  Messages.STOPPED <> Messages.NETWORK_ERROR.
Proof.
  repeat split; try reflexivity. discriminate.
Qed.

(** C4, as the code has it: no failure of [recognition.start()] or
    [recognition.stop()] leaves its handler; a failing start puts the
    generic start-error message in the status; a failing stop is only
    logged, and leaves the status and the whole state as they were. *)
Theorem recognizer_failures_caught (s : State) :
  completes (startRecording Throws) s = Normal tt /\
  completes (stopRecording Throws) s = Normal tt /\
  (isSupported s = true ->
   statusText (exec (startRecording Throws) s) = Messages.ERROR_START) /\
  exec (stopRecording Throws) s = s.
Proof.
  repeat split.
  - apply startRecording_completes.
  - apply stopRecording_completes.
  - intros H. rewrite startRecording_throws_state by exact H. reflexivity.
  - apply stopRecording_throws_state.
Qed.

Lemma recognizer_failures_caught_witness :
  isSupported example_recording = true /\
  statusText (exec (startRecording Throws) example_recording) = Messages.ERROR_START /\
  exec (stopRecording Throws) example_recording = example_recording.
Proof.
  split; [reflexivity|].
  split.
  - apply (recognizer_failures_caught example_recording). reflexivity.
  - apply (recognizer_failures_caught example_recording).
Defined.

(** C4 as stated fails: were a failing stop to put a generic message in the
    status, the status after it would be that one message on every page;
    but it is whatever the status was before. *)
Lemma stop_failure_shows_no_message :
  ~ (exists generic : string,
       forall s : State, isSupported s = true ->
         statusText (exec (stopRecording Throws) s) = generic).
Proof.
  intros [g Hg].
  pose proof (Hg example_ready eq_refl) as H1.
  pose proof (Hg example_recording eq_refl) as H2.
  rewrite stopRecording_throws_state in H1, H2.
  rewrite <- H1 in H2. discriminate H2.
Qed.

(** *** The start button is disabled while recording *)

Lemma keeps_ret {A : Type} (a : A) : keeps_recording (ret a).
Proof. intros s. repeat split. Qed.

Lemma keeps_throw {A : Type} : keeps_recording (@throw A).
Proof. intros s. repeat split. Qed.

Lemma keeps_gets {A : Type} (f : State -> A) : keeps_recording (gets f).
Proof. intros s. repeat split. Qed.

Lemma keeps_lift {A : Type} (c : completion A) : keeps_recording (lift c).
Proof. intros s. repeat split. Qed.

Lemma keeps_modify (f : State -> State) :
  (forall s, isRecording (f s) = isRecording s) ->
  (forall s, startDisabled (f s) = startDisabled s) ->
  (forall s, isSupported (f s) = isSupported s) ->
  keeps_recording (modify f).
Proof. intros H1 H2 H3 s. split; [apply H1 | split; [apply H2 | apply H3]]. Qed.

Lemma keeps_bind {A B : Type} (m : M A) (k : A -> M B) :
  keeps_recording m -> (forall a, keeps_recording (k a)) ->
  keeps_recording (bind m k).
Proof.
  intros Hm Hk s. destruct (Hm s) as (R & D & U).
  unfold exec, bind in *. destruct (m s) as [[a|] s1]; simpl in R, D, U.
  - destruct (Hk a s1) as (R' & D' & U'). unfold exec in R', D', U'.
    repeat split; congruence.
  - repeat split; assumption.
Qed.

Lemma keeps_try_catch {A : Type} (body handler : M A) :
  keeps_recording body -> keeps_recording handler ->
  keeps_recording (try_catch body handler).
Proof.
  intros Hb Hh s. destruct (Hb s) as (R & D & U).
  unfold exec, try_catch in *. destruct (body s) as [[a|] s1]; simpl in R, D, U.
  - repeat split; assumption.
  - destruct (Hh s1) as (R' & D' & U'). unfold exec in R', D', U'.
    repeat split; congruence.
Qed.

Lemma keeps_if {A : Type} (b : bool) (m1 m2 : M A) :
  keeps_recording m1 -> keeps_recording m2 ->
  keeps_recording (if b then m1 else m2).
Proof. destruct b; auto. Qed.

Create HintDb keeps.
#[local] Hint Resolve keeps_ret keeps_throw keeps_gets keeps_lift keeps_bind
  keeps_try_catch keeps_if : keeps.
#[local] Hint Extern 1 (keeps_recording (modify _)) =>
  (apply keeps_modify; intros; reflexivity) : keeps.
#[local] Hint Extern 2 (keeps_recording (suspend _)) => unfold suspend : keeps.
#[local] Hint Extern 2 (keeps_recording (speak _)) => unfold speak : keeps.

Ltac keeps_auto := intros; auto 20 with keeps.

Lemma keeps_updateTranscript (f : value) (i : string) :
  keeps_recording (updateTranscript f i).
Proof. unfold updateTranscript. keeps_auto. Qed.

Lemma keeps_translateToEnglish_send (text : string) :
  keeps_recording (translateToEnglish_send text).
Proof. unfold translateToEnglish_send. keeps_auto. Qed.

Lemma keeps_onresult_from (frs : list fragment) :
  forall f i : string, keeps_recording (onresult_from frs f i).
Proof.
  induction frs as [|r rest IH]; intros f i; simpl.
  - apply keeps_updateTranscript.
  - pose proof (keeps_translateToEnglish_send (frag_transcript r)).
    destruct (isFinal r); [|apply IH].
    apply keeps_bind; [assumption|]. intros [|]; [keeps_auto | apply IH].
Qed.

Lemma keeps_resume (t : task) (r : reply) (m : M unit) :
  resume t r = Some m -> keeps_recording m.
Proof.
  pose proof keeps_onresult_from. pose proof keeps_updateTranscript.
  pose proof keeps_translateToEnglish_send.
  destruct t, r; simpl; intros E; inversion E; subst; clear E;
    unfold audio_error; keeps_auto.
  apply keeps_try_catch; [|keeps_auto].
  apply keeps_bind; [keeps_auto|]. intros [file|]; keeps_auto.
Qed.

Lemma keeps_listener (e : event) :
  match e with
  | ClickStart _ | ClickStop _ | Error _ _ => True
  | _ => keeps_recording (listener e)
  end.
Proof.
  pose proof keeps_updateTranscript. pose proof keeps_onresult_from.
  destruct e; simpl listener; try exact I.
  - keeps_auto.
  - keeps_auto.
  - unfold handleFileSelect. destruct file; keeps_auto.
  - unfold processAudioFile.
    apply keeps_bind; [keeps_auto|]. intros d. apply keeps_if; [keeps_auto|].
    apply keeps_bind; [keeps_auto|]. intros [file|]; keeps_auto.
  - unfold speakTranslation. keeps_auto.
  - unfold onresult. keeps_auto.
  - unfold onnomatch. keeps_auto.
  - apply keeps_bind; [keeps_auto|]. intros pending.
    destruct (nth_error pending k) as [t|]; [|keeps_auto].
    destruct (resume t r) as [m|] eqn:E; [|keeps_auto].
    pose proof (keeps_resume t r m E). keeps_auto.
  - keeps_auto.
Qed.

(** No event changes [this.isSupported]. *)
Lemma isSupported_step (s : State) (e : event) :
  isSupported (step s e) = isSupported s.
Proof.
  pose proof (keeps_listener e) as K. unfold step.
  destruct e; try (apply K); simpl listener.
  - unfold startRecording. handler_unfold.
    destruct (startDisabled s), (isSupported s) eqn:Es, start; simpl;
      rewrite ?Es; reflexivity.
  - unfold stopRecording. handler_unfold.
    destruct (stopDisabled s), (isSupported s) eqn:Es, stop; simpl;
      rewrite ?Es; reflexivity.
  - unfold onerror, stopRecording. handler_unfold. simpl.
    destruct (isSupported s) eqn:Es, stop; simpl; rewrite ?Es; simpl;
      rewrite ?Es; reflexivity.
Qed.

Lemma isSupported_run (es : list event) :
  forall s : State, isSupported (run s es) = isSupported s.
Proof.
  unfold run. induction es as [|e es IH]; intros s; simpl; [reflexivity|].
  rewrite IH. apply isSupported_step.
Qed.

Lemma idle_when_startable_step (s : State) (e : event) :
  idle_when_startable s -> idle_when_startable (step s e).
Proof.
  unfold idle_when_startable, step. intros I.
  assert (K : forall m : M unit, keeps_recording m ->
            startDisabled (exec m s) = false -> isRecording (exec m s) = false).
  { intros m Hm. destruct (Hm s) as (R & D & _). rewrite R, D. exact I. }
  pose proof (keeps_listener e) as L.
  destruct e; try (apply K; exact L); simpl listener.
  - unfold startRecording. handler_unfold.
    destruct (startDisabled s) eqn:D, (isSupported s), start; simpl;
      intros E; solve [discriminate | congruence | apply I; congruence].
  - unfold stopRecording. handler_unfold.
    destruct (stopDisabled s), (isSupported s), stop; simpl;
      intros E; solve [reflexivity | apply I; exact E].
  - unfold onerror, stopRecording. handler_unfold. simpl.
    destruct (isSupported s) eqn:Es, stop; simpl; rewrite ?Es; simpl;
      intros E; solve [reflexivity | apply I; exact E].
Qed.

(** On every page reached from the constructor, a click on the start button
    finds the recording flag false. *)
Lemma idle_when_startable_reachable (supported : bool) (page : State)
    (es : list event) :
  idle_when_startable (run (constructor supported page) es).
Proof.
  assert (G : forall es s, idle_when_startable s -> idle_when_startable (run s es)).
  { unfold run. induction es0 as [|e es0 IH]; intros s I; simpl.
    - exact I.
    - apply IH. apply idle_when_startable_step. exact I. }
  apply G. intros _. destruct supported; reflexivity.
Qed.

Lemma step_click_start (s : State) (start : call_result) :
  startDisabled s = false ->
  step s (ClickStart start) = exec (startRecording start) s.
Proof.
  intros D. unfold step, listener. handler_unfold. rewrite D. reflexivity.
Qed.

(** C10: when [recognition.start()] throws, startRecording leaves the
    recording flag, the transcript, the last translation, the upload, both
    button states, the [recording] styling and every other control of the
    page as they were; the status text becomes the generic start-error
    message.  (The recognizer's language had been assigned before the
    call.)  On every page reached from the constructor, a click on the
    enabled start button finds the recording flag false, and a failing
    start leaves it false. *)
Theorem startRecording_failure_atomic :
  (forall s : State,
     isSupported s = true ->
     let s' := exec (startRecording Throws) s in
     completes (startRecording Throws) s = Normal tt /\
     isRecording s' = isRecording s /\
     transcript s' = transcript s /\
     lastTranslation s' = lastTranslation s /\
     uploadedAudio s' = uploadedAudio s /\
     startDisabled s' = startDisabled s /\
     stopDisabled s' = stopDisabled s /\
     statusRecording s' = statusRecording s /\
     statusText s' = Messages.ERROR_START /\
     s' = set_statusText Messages.ERROR_START
            (set_recognitionLang (languageSelect s) s)) /\
  (forall (page : State) (es : list event),
     let s := run (constructor true page) es in
     startDisabled s = false ->
     let s' := step s (ClickStart Throws) in
     isRecording s = false /\
     isRecording s' = false /\
     startDisabled s' = false /\
     stopDisabled s' = stopDisabled s /\
     statusRecording s' = statusRecording s /\
     transcript s' = transcript s /\
     statusText s' = Messages.ERROR_START).
Proof.
  split.
  - intros s H s'. subst s'. rewrite startRecording_throws_state by exact H.
    repeat split. apply startRecording_completes.
  - intros page es s D s'.
    assert (U : isSupported s = true).
    { unfold s. rewrite isSupported_run. reflexivity. }
    assert (R : isRecording s = false).
    { apply (idle_when_startable_reachable true page es). exact D. }
    unfold s'. rewrite step_click_start by exact D.
    rewrite startRecording_throws_state by exact U. simpl.
    repeat split; assumption.
Qed.

Lemma startRecording_failure_atomic_witness :
  isRecording (exec (startRecording Throws) example_ready) = false /\
  statusText (exec (startRecording Throws) example_ready) = Messages.ERROR_START /\
  isRecording (step (run (constructor true example_page)
                         [ClickStart Returns; ClickStop Returns])
                    (ClickStart Throws)) = false.
Proof.
  destruct startRecording_failure_atomic as [F G].
  pose proof (F example_ready eq_refl) as H.
  destruct H as (_ & Hrec & _ & _ & _ & _ & _ & _ & Hstatus & _).
  pose proof (G example_page [ClickStart Returns; ClickStop Returns] eq_refl) as H2.
  destruct H2 as (_ & Hrec2 & _).
  split; [rewrite Hrec; reflexivity | split; [exact Hstatus | exact Hrec2]].
Defined.

(** ** File selection *)

(** C6: selecting a file whose type does not start with [audio/] disables
    the process button, shows the fixed message and clears the stored
    upload, whatever was stored before. *)
Theorem handleFileSelect_rejects_non_audio (f : File) (s : State) :
  Js.startsWith (file_type f) "audio/" = false ->
  let s' := exec (handleFileSelect (Some f)) s in
  processDisabled s' = true /\
  fileInfoText s' = "Please select an audio file" /\
  uploadedAudio s' = None /\
  completes (handleFileSelect (Some f)) s = Normal tt.
Proof.
  intros H. unfold handleFileSelect. rewrite H. handler_unfold.
  repeat split.
Qed.

Lemma handleFileSelect_rejects_non_audio_witness :
  let before :=
    exec (handleFileSelect (Some (mkFile "song.mp3" "audio/mpeg"))) example_ready in
  let after := exec (handleFileSelect (Some (mkFile "notes.txt" "text/plain"))) before in
  uploadedAudio before = Some (mkFile "song.mp3" "audio/mpeg") /\
  processDisabled after = true /\
  fileInfoText after = "Please select an audio file" /\
  uploadedAudio after = None.
Proof.
  intros before after. split; [reflexivity|].
  pose proof (handleFileSelect_rejects_non_audio
                (mkFile "notes.txt" "text/plain") before eq_refl) as H.
  destruct H as (H1 & H2 & H3 & _).
  split; [exact H1 | split; [exact H2 | exact H3]].
Defined.

(** ** Speech synthesis *)

(** C7, as the code has it: while the synthesizer reports that it is
    speaking, speakTranslation changes nothing: no utterance is handed over
    and nothing the host holds is touched.  When it is idle and the last
    translation is truthy and converts to text, exactly one utterance is
    handed over, with that text, rate 0.9 and pitch 1.  When it is idle and
    converting the last translation throws, the utterance is never built:
    the handler ends in the exception and nothing is handed over.  A falsy
    last translation leaves everything as it was. *)
Theorem speakTranslation_when_busy_or_idle (s : State) :
  (speaking s = true -> exec speakTranslation s = s) /\
  (speaking s = false -> truthy (lastTranslation s) = true ->
   forall text : string,
     ToString (lastTranslation s) = Normal text ->
     exists u : Utterance,
       spoken (exec speakTranslation s) = (spoken s ++ [u])%list /\
       utt_text u = text /\
       utt_rate u = 9 # 10 /\
       utt_pitch u = 1%Q /\
       utt_lang u =
         (if String.eqb (sel_value (translationLanguage s)) "en"
          then "en-US" else sel_value (translationLanguage s))) /\
  (speaking s = false -> truthy (lastTranslation s) = true ->
   ToString (lastTranslation s) = Thrown ->
   exec speakTranslation s = s /\ completes speakTranslation s = Thrown) /\
  (truthy (lastTranslation s) = false -> exec speakTranslation s = s).
Proof.
  split; [|split; [|split]].
  - intros H. unfold speakTranslation. handler_unfold. rewrite H.
    rewrite andb_false_r. reflexivity.
  - intros H T text E. unfold speakTranslation. handler_unfold.
    rewrite H, T, E. simpl.
    exists (mkUtterance text
              (if String.eqb (sel_value (translationLanguage s)) "en"
               then "en-US" else sel_value (translationLanguage s))
              (9 # 10) 1).
    split; [reflexivity|]. split; [reflexivity|]. split; [reflexivity|].
    split; reflexivity.
  - intros H T E. unfold speakTranslation. handler_unfold.
    rewrite H, T, E. simpl. split; reflexivity.
  - intros T. unfold speakTranslation. handler_unfold. rewrite T. reflexivity.
Qed.

Lemma speakTranslation_when_busy_or_idle_witness :
  let idle := set_lastTranslation (VStr "hello") example_ready in
  let busy := set_speaking true idle in
  exec speakTranslation busy = busy /\
  spoken (exec speakTranslation idle) = [mkUtterance "hello" "en-US" (9 # 10) 1] /\
  exec speakTranslation example_textless = example_textless.
Proof.
  intros idle busy. split; [|split].
  - destruct (speakTranslation_when_busy_or_idle busy) as (H & _).
    apply H. reflexivity.
  - destruct (speakTranslation_when_busy_or_idle idle) as (_ & H & _).
    destruct (H eq_refl eq_refl "hello" eq_refl) as (u & Hs & Ht & Hr & Hp & Hl).
    rewrite Hs. destruct u as [t l r p]. simpl in Ht, Hr, Hp, Hl.
    rewrite Ht, Hl, Hr, Hp. reflexivity.
  - destruct (speakTranslation_when_busy_or_idle example_textless)
      as (_ & _ & H & _).
    apply (H eq_refl eq_refl eq_refl).
Defined.

(** C7 as stated fails: an idle synthesizer and a last translation do not
    always give an utterance.  On [example_textless] the speak button is
    enabled, the synthesizer is idle, and the last translation is the
    object the service answered, whose conversion to text throws: a click
    on the speak button hands nothing to the synthesizer. *)
Lemma speak_translation_without_text :
  let s := example_textless in
  speaking s = false /\
  speakDisabled s = false /\
  lastTranslation s = textless /\
  truthy (lastTranslation s) = true /\
  spoken (step s ClickSpeak) = spoken s /\
  completes speakTranslation s = Thrown /\
  ~ (exists u : Utterance,
       spoken (exec speakTranslation s) = (spoken s ++ [u])%list).
Proof.
  vm_compute. repeat (split; [reflexivity|]). intros [u H]. discriminate H.
Qed.

(** ** Translation *)

Lemma is_200_spec (v : value) : is_200 v = true <-> v = VNum "200".
Proof.
  destruct v; simpl; split; intros H; try discriminate; try congruence.
  - apply String.eqb_eq in H. congruence.
  - inversion H. reflexivity.
Qed.

Lemma getProp_nullish (v : value) (k : string) :
  getProp v k = Thrown <-> nullish v = true.
Proof. destruct v; simpl; split; intros H; congruence. Qed.

(** What translateToEnglish_send does, by the text it is given. *)
Lemma translateToEnglish_send_run (text : string) (s : State) :
  translateToEnglish_send text s =
    if Js.lone_surrogate text then (Normal false, s)
    else (Normal true,
          set_requests (requests s ++ [request_for s text])%list s).
Proof.
  unfold translateToEnglish_send. handler_unfold.
  destruct (Js.lone_surrogate text); reflexivity.
Qed.

Lemma translateToEnglish_completes (text : string) (o : fetch_outcome) (s : State) :
  completes (translateToEnglish text o) s =
    Normal (if Js.lone_surrogate text then VStr text
            else translateToEnglish_settle text o).
Proof.
  unfold completes, translateToEnglish, bind.
  rewrite translateToEnglish_send_run.
  destruct (Js.lone_surrogate text); reflexivity.
Qed.

Lemma translateToEnglish_exec (text : string) (o : fetch_outcome) (s : State) :
  exec (translateToEnglish text o) s =
    if Js.lone_surrogate text then s
    else set_requests (requests s ++ [request_for s text])%list s.
Proof.
  unfold exec, translateToEnglish, bind.
  rewrite translateToEnglish_send_run.
  destruct (Js.lone_surrogate text); reflexivity.
Qed.

(** The value the [try] block and its [catch] return for a parsed body. *)
Lemma translateToEnglish_settle_cases (text : string) (o : fetch_outcome) :
  (forall data responseData : value,
     o = Parsed data ->
     getProp data "responseStatus" = Normal (VNum "200") ->
     getProp data "responseData" = Normal responseData ->
     nullish responseData = false ->
     exists translatedText : value,
       getProp responseData "translatedText" = Normal translatedText /\
       translateToEnglish_settle text o = translatedText) /\
  (forall data responseData : value,
     o = Parsed data ->
     getProp data "responseStatus" = Normal (VNum "200") ->
     getProp data "responseData" = Normal responseData ->
     nullish responseData = true ->
     translateToEnglish_settle text o = VStr text) /\
  (forall data : value,
     o = Parsed data ->
     getProp data "responseStatus" <> Normal (VNum "200") ->
     translateToEnglish_settle text o = VStr text) /\
  (o = FetchRejects \/ o = JsonRejects ->
   translateToEnglish_settle text o = VStr text).
Proof.
  split; [|split; [|split]].
  - intros data rd -> Hs Hd Hn. unfold translateToEnglish_settle.
    rewrite Hs, Hd. simpl.
    destruct (getProp rd "translatedText") as [v|] eqn:E.
    + exists v. split; reflexivity.
    + apply getProp_nullish in E. congruence.
  - intros data rd -> Hs Hd Hn. unfold translateToEnglish_settle.
    rewrite Hs, Hd. simpl.
    apply getProp_nullish with (k := "translatedText") in Hn. rewrite Hn.
    reflexivity.
  - intros data -> Hs. unfold translateToEnglish_settle.
    destruct (getProp data "responseStatus") as [st|] eqn:E; simpl; [|reflexivity].
    destruct (is_200 st) eqn:E2; [|reflexivity].
    apply is_200_spec in E2. congruence.
  - intros [-> | ->]; reflexivity.
Qed.

(** C1, as the code has it: translateToEnglish hands at most one request to
    fetch, never a second one, and writes nothing else; the one text for
    which it hands over none is a text [encodeURIComponent] throws on, which
    the [catch] returns.  When a request is made, the call returns
    [responseData.translatedText] if the parsed body has [responseStatus]
    200 and a [responseData] that is neither null nor undefined.  In every
    other case it returns the input text: a 200 body without [responseData]
    (reading the property throws inside the [try]), any other
    [responseStatus], a body that is null, and fetch or json failing. *)
Theorem translateToEnglish_returns (text : string) (o : fetch_outcome) (s : State) :
  let r := completes (translateToEnglish text o) s in
  let s' := exec (translateToEnglish text o) s in
  s' = set_requests
         (requests s ++
            (if Js.lone_surrogate text then [] else [request_for s text]))%list s /\
  (Js.lone_surrogate text = true -> r = Normal (VStr text)) /\
  (forall data responseData : value,
     Js.lone_surrogate text = false ->
     o = Parsed data ->
     getProp data "responseStatus" = Normal (VNum "200") ->
     getProp data "responseData" = Normal responseData ->
     nullish responseData = false ->
     exists translatedText : value,
       getProp responseData "translatedText" = Normal translatedText /\
       r = Normal translatedText) /\
  (forall data responseData : value,
     o = Parsed data ->
     getProp data "responseStatus" = Normal (VNum "200") ->
     getProp data "responseData" = Normal responseData ->
     nullish responseData = true ->
     r = Normal (VStr text)) /\
  (forall data : value,
     o = Parsed data ->
     getProp data "responseStatus" <> Normal (VNum "200") ->
     r = Normal (VStr text)) /\
  (o = FetchRejects \/ o = JsonRejects -> r = Normal (VStr text)).
Proof.
  intros r s'. subst r s'.
  rewrite translateToEnglish_completes, translateToEnglish_exec.
  destruct (translateToEnglish_settle_cases text o) as (A & B & C & D).
  split; [|split; [|split; [|split; [|split]]]].
  - destruct (Js.lone_surrogate text).
    + rewrite app_nil_r. destruct s; reflexivity.
    + reflexivity.
  - intros ->. reflexivity.
  - intros data rd -> Ho Hs Hd Hn.
    destruct (A data rd Ho Hs Hd Hn) as (v & Hv & E).
    exists v. split; [exact Hv | rewrite E; reflexivity].
  - intros data rd Ho Hs Hd Hn. rewrite (B data rd Ho Hs Hd Hn).
    destruct (Js.lone_surrogate text); reflexivity.
  - intros data Ho Hs. rewrite (C data Ho Hs).
    destruct (Js.lone_surrogate text); reflexivity.
  - intros Ho. rewrite (D Ho). destruct (Js.lone_surrogate text); reflexivity.
Qed.

Lemma translateToEnglish_returns_witness :
  completes (translateToEnglish "namaste" (Parsed (translated "hello"))) example_ready
    = Normal (VStr "hello") /\
  completes (translateToEnglish "namaste"
               (Parsed (VObj [("responseStatus", VStr "403")]))) example_ready
    = Normal (VStr "namaste") /\
  completes (translateToEnglish "namaste" FetchRejects) example_ready
    = Normal (VStr "namaste").
Proof.
  split; [|split].
  - destruct (translateToEnglish_returns "namaste" (Parsed (translated "hello"))
                example_ready) as (_ & _ & H & _).
    destruct (H (translated "hello") (VObj [("translatedText", VStr "hello")])
                eq_refl eq_refl eq_refl eq_refl eq_refl) as (v & Hv & Hr).
    simpl in Hv. rewrite Hr. congruence.
  - destruct (translateToEnglish_returns "namaste"
                (Parsed (VObj [("responseStatus", VStr "403")])) example_ready)
      as (_ & _ & _ & _ & H & _).
    apply (H _ eq_refl). simpl. discriminate.
  - destruct (translateToEnglish_returns "namaste" FetchRejects example_ready)
      as (_ & _ & _ & _ & _ & H).
    apply H. left. reflexivity.
Defined.

(** C1 as stated fails: the value returned for a body with [responseStatus]
    200 is not always what [data.responseData.translatedText] evaluates to.
    For the body [{responseStatus: 200}] that expression throws, and the
    input text is returned.  (A text on which [encodeURIComponent] throws
    never gets a response: it is returned with no request made.) *)
Lemma status_200_without_responseData :
  ~ (forall (text : string) (data : value) (s : State),
       getProp data "responseStatus" = Normal (VNum "200") ->
       completes (translateToEnglish text (Parsed data)) s =
         and_then (getProp data "responseData")
                  (fun responseData => getProp responseData "translatedText")) /\
  completes (translateToEnglish "namaste" (Parsed (VObj [("responseStatus", VNum "200")])))
            example_ready = Normal (VStr "namaste") /\
  (completes (translateToEnglish lone (Parsed (translated "hello"))) example_ready
     = Normal (VStr lone) /\
   requests (exec (translateToEnglish lone (Parsed (translated "hello"))) example_ready)
     = []).
Proof.
  split; [|split; [reflexivity | split; reflexivity]].
  intros H.
  specialize (H "namaste" (VObj [("responseStatus", VNum "200")]) example_ready eq_refl).
  discriminate H.
Qed.

(** ** The transcription stub *)

Lemma prefix_spec (p s : string) :
  String.prefix p s = true <-> exists r, s = p ++ r.
Proof.
  revert s. induction p as [|c p IH]; intros s; simpl.
  - split; [intros _; exists s; reflexivity | destruct s; reflexivity].
  - destruct s as [|d s]; simpl.
    + split; [discriminate | intros [r Hr]; discriminate].
    + destruct (ascii_dec c d) as [->|N].
      * split.
        -- intros H. apply IH in H. destruct H as [r Hr]. exists r. congruence.
        -- intros [r Hr]. apply IH. exists r. congruence.
      * split; [discriminate | intros [r Hr]; congruence].
Qed.

(** [Js.includes] is the substring test. *)
Lemma includes_spec (s t : string) :
  Js.includes s t = true <-> exists a b, s = a ++ t ++ b.
Proof.
  induction s as [|c s IH]; cbn [Js.includes].
  - destruct (String.prefix t "") eqn:E.
    + split; [intros _ | reflexivity].
      apply prefix_spec in E. destruct E as [r Hr]. exists "", r. exact Hr.
    + split; [discriminate|]. intros (a & b & H).
      destruct a; simpl in H; [|discriminate].
      assert (String.prefix t "" = true) by (apply prefix_spec; exists b; exact H).
      congruence.
  - destruct (String.prefix t (String c s)) eqn:E.
    + split; [intros _ | reflexivity].
      apply prefix_spec in E. destruct E as [r Hr]. exists "", r. exact Hr.
    + rewrite IH. split.
      * intros (a & b & H). exists (String c a), b. simpl. congruence.
      * intros (a & b & H). destruct a as [|d a]; simpl in H.
        -- assert (String.prefix t (String c s) = true)
             by (apply prefix_spec; exists b; exact H).
           congruence.
        -- exists a, b. congruence.
Qed.

(** C5: the stub answers the Hindi sample for [audio_hi_sample.mp3] and the
    English fallback for [clip.mp3].  For every filename it takes the first
    code of the language mapping, in the mapping's order, that occurs in
    the lower-cased filename, and answers that code's sample; the code [en]
    has no sample of its own and gives the English fallback, as does a
    filename in which no code occurs. *)
Theorem simulateAudioTranscription_selects :
  assoc "hi" sampleTexts = Some (simulateAudioTranscription "audio_hi_sample.mp3") /\
  simulateAudioTranscription "AUDIO_HI_SAMPLE.MP3" =
    simulateAudioTranscription "audio_hi_sample.mp3" /\
  simulateAudioTranscription "clip.mp3" =
    "Hello, this is an uploaded audio file that needs to be transcribed and translated." /\
  assoc "default" sampleTexts = Some (simulateAudioTranscription "clip.mp3") /\
  (forall filename : string,
     let occurs code := Js.includes (Js.toLowerCase filename) code in
     Some (simulateAudioTranscription filename) =
       if occurs "en" then assoc "default" sampleTexts
       else if occurs "hi" then assoc "hi" sampleTexts
       else if occurs "te" then assoc "te" sampleTexts
       else if occurs "ta" then assoc "ta" sampleTexts
       else if occurs "kn" then assoc "kn" sampleTexts
       else if occurs "ml" then assoc "ml" sampleTexts
       else if occurs "mr" then assoc "mr" sampleTexts
       else if occurs "bn" then assoc "bn" sampleTexts
       else if occurs "gu" then assoc "gu" sampleTexts
       else assoc "default" sampleTexts) /\
  (forall filename : string,
     (forall key code : string, In (key, code) languageMapping ->
        Js.includes (Js.toLowerCase filename) code = false) ->
     simulateAudioTranscription filename = simulateAudioTranscription "clip.mp3").
Proof.
  assert (cascade : forall filename : string,
     let occurs code := Js.includes (Js.toLowerCase filename) code in
     Some (simulateAudioTranscription filename) =
       if occurs "en" then assoc "default" sampleTexts
       else if occurs "hi" then assoc "hi" sampleTexts
       else if occurs "te" then assoc "te" sampleTexts
       else if occurs "ta" then assoc "ta" sampleTexts
       else if occurs "kn" then assoc "kn" sampleTexts
       else if occurs "ml" then assoc "ml" sampleTexts
       else if occurs "mr" then assoc "mr" sampleTexts
       else if occurs "bn" then assoc "bn" sampleTexts
       else if occurs "gu" then assoc "gu" sampleTexts
       else assoc "default" sampleTexts).
  { intros filename occurs. subst occurs.
    unfold simulateAudioTranscription, detectedLang.
    generalize (Js.toLowerCase filename) as lf. intros lf.
    change (map fst languageMapping) with
      ["en-US"; "hi-IN"; "te-IN"; "ta-IN"; "kn-IN"; "ml-IN"; "mr-IN"; "bn-IN"; "gu-IN"].
    unfold find.
    change (mapped "en-US") with "en". change (mapped "hi-IN") with "hi".
    change (mapped "te-IN") with "te". change (mapped "ta-IN") with "ta".
    change (mapped "kn-IN") with "kn". change (mapped "ml-IN") with "ml".
    change (mapped "mr-IN") with "mr". change (mapped "bn-IN") with "bn".
    change (mapped "gu-IN") with "gu".
    destruct (Js.includes lf "en"); [reflexivity|].
    destruct (Js.includes lf "hi"); [reflexivity|].
    destruct (Js.includes lf "te"); [reflexivity|].
    destruct (Js.includes lf "ta"); [reflexivity|].
    destruct (Js.includes lf "kn"); [reflexivity|].
    destruct (Js.includes lf "ml"); [reflexivity|].
    destruct (Js.includes lf "mr"); [reflexivity|].
    destruct (Js.includes lf "bn"); [reflexivity|].
    destruct (Js.includes lf "gu"); reflexivity. }
  repeat split; try reflexivity.
  - exact cascade.
  - intros filename H.
    pose proof (cascade filename) as C. simpl in C.
    rewrite (H "en-US" "en"), (H "hi-IN" "hi"), (H "te-IN" "te"),
      (H "ta-IN" "ta"), (H "kn-IN" "kn"), (H "ml-IN" "ml"), (H "mr-IN" "mr"),
      (H "bn-IN" "bn"), (H "gu-IN" "gu") in C by (simpl; tauto).
    injection C as C. exact C.
Qed.

Lemma simulateAudioTranscription_selects_witness :
  simulateAudioTranscription "voice.wav" = simulateAudioTranscription "clip.mp3".
Proof.
  apply simulateAudioTranscription_selects.
  intros key code H. simpl in H.
  repeat (destruct H as [H | H]; [inversion H; reflexivity|]).
  contradiction.
Defined.

(** ** The transcript only grows *)

Lemma grows_ret {A : Type} (a : A) : grows (ret a).
Proof. intros s. exists "". symmetry. apply append_empty_r. Qed.

Lemma grows_throw {A : Type} : grows (@throw A).
Proof. intros s. exists "". symmetry. apply append_empty_r. Qed.

Lemma grows_gets {A : Type} (f : State -> A) : grows (gets f).
Proof. intros s. exists "". symmetry. apply append_empty_r. Qed.

Lemma grows_lift {A : Type} (c : completion A) : grows (lift c).
Proof. intros s. exists "". symmetry. apply append_empty_r. Qed.

Lemma grows_modify (f : State -> State) :
  (forall s, transcript (f s) = transcript s) -> grows (modify f).
Proof.
  intros H s. exists "". unfold exec, modify. simpl. rewrite H.
  symmetry. apply append_empty_r.
Qed.

Lemma grows_append (x : string) :
  grows (modify (fun s => set_transcript (transcript s ++ x) s)).
Proof. intros s. exists x. reflexivity. Qed.

Lemma grows_bind {A B : Type} (m : M A) (k : A -> M B) :
  grows m -> (forall a, grows (k a)) -> grows (bind m k).
Proof.
  intros Hm Hk s. destruct (Hm s) as [x Hx].
  unfold exec, bind in *. destruct (m s) as [[a|] s1]; simpl in Hx.
  - destruct (Hk a s1) as [y Hy]. unfold exec in Hy.
    exists (x ++ y). rewrite Hy, Hx. apply append_assoc.
  - exists x. exact Hx.
Qed.

Lemma grows_try_catch {A : Type} (body handler : M A) :
  grows body -> grows handler -> grows (try_catch body handler).
Proof.
  intros Hb Hh s. destruct (Hb s) as [x Hx].
  unfold exec, try_catch in *. destruct (body s) as [[a|] s1]; simpl in Hx.
  - exists x. exact Hx.
  - destruct (Hh s1) as [y Hy]. unfold exec in Hy.
    exists (x ++ y). rewrite Hy, Hx. apply append_assoc.
Qed.

Lemma grows_if {A : Type} (b : bool) (m1 m2 : M A) :
  grows m1 -> grows m2 -> grows (if b then m1 else m2).
Proof. destruct b; auto. Qed.

Create HintDb grows.
#[local] Hint Resolve grows_ret grows_throw grows_gets grows_lift grows_append grows_bind
  grows_try_catch grows_if : grows.
#[local] Hint Extern 1 (grows (modify _)) =>
  (apply grows_modify; intros; reflexivity) : grows.
#[local] Hint Extern 2 (grows (call ?r)) => (destruct r; simpl) : grows.
#[local] Hint Extern 2 (grows (suspend _)) => unfold suspend : grows.
#[local] Hint Extern 2 (grows (speak _)) => unfold speak : grows.

Ltac grows_auto := intros; auto 20 with grows.

Lemma grows_startRecording (r : call_result) : grows (startRecording r).
Proof. unfold startRecording. grows_auto. Qed.

Lemma grows_stopRecording (r : call_result) : grows (stopRecording r).
Proof. unfold stopRecording. grows_auto. Qed.

Lemma grows_onerror (error : string) (r : call_result) : grows (onerror error r).
Proof. unfold onerror. pose proof (grows_stopRecording r). grows_auto. Qed.

Lemma grows_handleFileSelect (file : option File) : grows (handleFileSelect file).
Proof. unfold handleFileSelect. destruct file; grows_auto. Qed.

Lemma grows_updateTranscript (f : value) (i : string) : grows (updateTranscript f i).
Proof. unfold updateTranscript. grows_auto. Qed.

Lemma grows_speakTranslation : grows speakTranslation.
Proof. unfold speakTranslation. grows_auto. Qed.

Lemma grows_translateToEnglish_send (text : string) :
  grows (translateToEnglish_send text).
Proof. unfold translateToEnglish_send. grows_auto. Qed.

Lemma grows_onresult_from (frs : list fragment) :
  forall f i : string, grows (onresult_from frs f i).
Proof.
  induction frs as [|r rest IH]; intros f i; simpl.
  - apply grows_updateTranscript.
  - pose proof (grows_translateToEnglish_send (frag_transcript r)).
    destruct (isFinal r); [|apply IH].
    apply grows_bind; [assumption|]. intros [|]; [grows_auto | apply IH].
Qed.

Lemma grows_processAudioFile : grows processAudioFile.
Proof.
  unfold processAudioFile. apply grows_bind; [grows_auto|].
  intros [file|]; grows_auto.
Qed.

Lemma grows_resume (t : task) (r : reply) (m : M unit) :
  resume t r = Some m -> grows m.
Proof.
  pose proof grows_onresult_from. pose proof grows_updateTranscript.
  pose proof grows_translateToEnglish_send.
  destruct t, r; simpl; intros E; inversion E; subst; clear E;
    unfold audio_error; grows_auto.
  apply grows_try_catch; [|grows_auto].
  apply grows_bind; [grows_auto|]. intros [file|]; grows_auto.
Qed.

Lemma grows_listener (e : event) : grows (listener e).
Proof.
  pose proof grows_startRecording. pose proof grows_stopRecording.
  pose proof grows_onerror. pose proof grows_handleFileSelect.
  pose proof grows_processAudioFile. pose proof grows_speakTranslation.
  destruct e; simpl; unfold onnomatch, onresult; try solve [grows_auto].
  - pose proof grows_onresult_from. grows_auto.
  - apply grows_bind; [grows_auto|]. intros pending.
    destruct (nth_error pending k) as [t|]; [|grows_auto].
    destruct (resume t r) as [m|] eqn:E; [|grows_auto].
    pose proof (grows_resume t r m E). grows_auto.
Qed.

(** C8: every event the page can receive leaves a transcript that starts
    with the transcript before it, and so does every sequence of events. *)
Theorem transcript_only_grows :
  (forall (s : State) (e : event),
     exists x : string, transcript (step s e) = transcript s ++ x) /\
  (forall (s : State) (e : event),
     String.prefix (transcript s) (transcript (step s e)) = true) /\
  (forall (es : list event) (s : State),
     exists x : string, transcript (run s es) = transcript s ++ x) /\
  (forall (supported : bool) (page : State),
     transcript (constructor supported page) = "").
Proof.
  assert (one : forall s e, exists x, transcript (step s e) = transcript s ++ x).
  { intros s e. apply grows_listener. }
  split; [exact one|]. split; [|split].
  - intros s e. destruct (one s e) as [x Hx]. rewrite Hx. apply prefix_append.
  - unfold run. induction es as [|e es IH]; intros s; simpl.
    + exists "". symmetry. apply append_empty_r.
    + destruct (IH (step s e)) as [y Hy]. destruct (one s e) as [x Hx].
      exists (x ++ y). rewrite Hy, Hx. apply append_assoc.
  - intros [|] page; reflexivity.
Qed.

(** ** Suspended handlers *)

Lemma nth_error_last {A : Type} (l : list A) (a : A) :
  nth_error (l ++ [a]) (length l) = Some a.
Proof. induction l as [|x l IH]; simpl; [reflexivity | exact IH]. Qed.

Lemma remove_nth_last {A : Type} (l : list A) (a : A) :
  remove_nth (length l) (l ++ [a]) = l.
Proof. induction l as [|x l IH]; simpl; [reflexivity | rewrite IH; reflexivity]. Qed.

Lemma nth_error_app_Some {A : Type} (l r : list A) (k : nat) (a : A) :
  nth_error l k = Some a -> nth_error (l ++ r) k = Some a.
Proof.
  revert k. induction l as [|x l IH]; intros [|k]; simpl; intros H;
    try discriminate; [exact H | apply IH; exact H].
Qed.

Lemma length_remove_nth {A : Type} (l : list A) (k : nat) (a : A) :
  nth_error l k = Some a -> S (length (remove_nth k l)) = length l.
Proof.
  revert k. induction l as [|x l IH]; intros [|k]; simpl; intros H;
    try discriminate; [reflexivity | rewrite (IH k H); reflexivity].
Qed.

Lemma nth_error_remove_nth {A : Type} (l : list A) :
  forall j k : nat,
    j <> k ->
    nth_error (remove_nth j l) (if Nat.ltb j k then pred k else k) = nth_error l k.
Proof.
  induction l as [|x l IH]; intros j k N.
  - simpl. destruct (Nat.ltb j k), k as [|[|k]]; reflexivity.
  - destruct j as [|j], k as [|k]; simpl; try reflexivity.
    + congruence.
    + assert (N' : j <> k) by congruence.
      specialize (IH j k N'). change (Nat.ltb (S j) (S k)) with (Nat.ltb j k).
      destruct (Nat.ltb j k) eqn:E.
      * apply Nat.ltb_lt in E. destruct k as [|k]; [lia|]. exact IH.
      * exact IH.
Qed.

(** Settling task [k] runs its continuation on the page without it. *)
Lemma step_settle (s : State) (k : nat) (t : task) (r : reply) (m : M unit) :
  nth_error (tasks s) k = Some t ->
  resume t r = Some m ->
  step s (Settle k r) = exec m (set_tasks (remove_nth k (tasks s)) s).
Proof.
  intros Ht Hm. unfold step, listener. handler_unfold.
  simpl. rewrite Ht, Hm. reflexivity.
Qed.

Lemma step_result (s : State) (ev : RecognitionEvent) :
  isSupported s = true ->
  step s (Result ev) =
    exec (onresult_from (skipn (resultIndex ev) (results ev)) "" "") s.
Proof.
  intros H. unfold step, listener, onresult. handler_unfold. rewrite H. reflexivity.
Qed.

(** *** Handlers only add to the suspended handlers *)

Lemma extends_ret {A : Type} (a : A) : extends (ret a).
Proof. intros s. exists []. symmetry. apply app_nil_r. Qed.

Lemma extends_throw {A : Type} : extends (@throw A).
Proof. intros s. exists []. symmetry. apply app_nil_r. Qed.

Lemma extends_gets {A : Type} (f : State -> A) : extends (gets f).
Proof. intros s. exists []. symmetry. apply app_nil_r. Qed.

Lemma extends_lift {A : Type} (c : completion A) : extends (lift c).
Proof. intros s. exists []. symmetry. apply app_nil_r. Qed.

Lemma extends_modify (f : State -> State) :
  (forall s, tasks (f s) = tasks s) -> extends (modify f).
Proof.
  intros H s. exists []. unfold exec, modify. simpl. rewrite H.
  symmetry. apply app_nil_r.
Qed.

Lemma extends_suspend (t : task) : extends (suspend t).
Proof. intros s. exists [t]. reflexivity. Qed.

Lemma extends_bind {A B : Type} (m : M A) (k : A -> M B) :
  extends m -> (forall a, extends (k a)) -> extends (bind m k).
Proof.
  intros Hm Hk s. destruct (Hm s) as [x Hx].
  unfold exec, bind in *. destruct (m s) as [[a|] s1]; simpl in Hx.
  - destruct (Hk a s1) as [y Hy]. unfold exec in Hy.
    exists (x ++ y)%list. rewrite Hy, Hx. symmetry. apply app_assoc.
  - exists x. exact Hx.
Qed.

Lemma extends_try_catch {A : Type} (body handler : M A) :
  extends body -> extends handler -> extends (try_catch body handler).
Proof.
  intros Hb Hh s. destruct (Hb s) as [x Hx].
  unfold exec, try_catch in *. destruct (body s) as [[a|] s1]; simpl in Hx.
  - exists x. exact Hx.
  - destruct (Hh s1) as [y Hy]. unfold exec in Hy.
    exists (x ++ y)%list. rewrite Hy, Hx. symmetry. apply app_assoc.
Qed.

Lemma extends_if {A : Type} (b : bool) (m1 m2 : M A) :
  extends m1 -> extends m2 -> extends (if b then m1 else m2).
Proof. destruct b; auto. Qed.

Create HintDb extends.
#[local] Hint Resolve extends_ret extends_throw extends_gets extends_lift
  extends_suspend extends_bind extends_try_catch extends_if : extends.
#[local] Hint Extern 1 (extends (modify _)) =>
  (apply extends_modify; intros; reflexivity) : extends.
#[local] Hint Extern 2 (extends (call ?r)) => (destruct r; simpl) : extends.
#[local] Hint Extern 2 (extends (speak _)) => unfold speak : extends.

Ltac extends_auto := intros; auto 20 with extends.

Lemma extends_updateTranscript (f : value) (i : string) :
  extends (updateTranscript f i).
Proof. unfold updateTranscript. extends_auto. Qed.

Lemma extends_translateToEnglish_send (text : string) :
  extends (translateToEnglish_send text).
Proof. unfold translateToEnglish_send. extends_auto. Qed.

Lemma extends_onresult_from (frs : list fragment) :
  forall f i : string, extends (onresult_from frs f i).
Proof.
  induction frs as [|r rest IH]; intros f i; simpl.
  - apply extends_updateTranscript.
  - pose proof (extends_translateToEnglish_send (frag_transcript r)).
    destruct (isFinal r); [|apply IH].
    apply extends_bind; [assumption|]. intros [|]; [extends_auto | apply IH].
Qed.

Lemma extends_resume (t : task) (r : reply) (m : M unit) :
  resume t r = Some m -> extends m.
Proof.
  pose proof extends_onresult_from. pose proof extends_updateTranscript.
  pose proof extends_translateToEnglish_send.
  destruct t, r; simpl; intros E; inversion E; subst; clear E;
    unfold audio_error; extends_auto.
  apply extends_try_catch; [|extends_auto].
  apply extends_bind; [extends_auto|]. intros [file|]; extends_auto.
Qed.

Lemma extends_listener (e : event) :
  match e with
  | Settle _ _ => True
  | _ => extends (listener e)
  end.
Proof.
  pose proof extends_updateTranscript. pose proof extends_onresult_from.
  destruct e; simpl listener; try exact I.
  - unfold startRecording. extends_auto.
  - unfold stopRecording. extends_auto.
  - extends_auto.
  - extends_auto.
  - unfold handleFileSelect. destruct file; extends_auto.
  - unfold processAudioFile.
    apply extends_bind; [extends_auto|]. intros d. apply extends_if; [extends_auto|].
    apply extends_bind; [extends_auto|]. intros [file|]; extends_auto.
  - unfold speakTranslation. extends_auto.
  - unfold onresult. extends_auto.
  - unfold onnomatch. extends_auto.
  - unfold onerror, stopRecording. extends_auto.
  - extends_auto.
Qed.

(** After an event, the suspended handlers are those it left suspended,
    then those it suspended. *)
Lemma tasks_step (s : State) (e : event) :
  exists new : list task, tasks (step s e) = (remaining s e ++ new)%list.
Proof.
  pose proof (extends_listener e) as L. unfold step.
  destruct e; try (apply L).
  unfold remaining, listener. handler_unfold. simpl.
  destruct (nth_error (tasks s) k) as [t|] eqn:Et;
    [|exists []; symmetry; apply app_nil_r].
  destruct (resume t r) as [m|] eqn:Em;
    [|exists []; symmetry; apply app_nil_r].
  destruct (extends_resume t r m Em (set_tasks (remove_nth k (tasks s)) s))
    as [new H].
  exists new. exact H.
Qed.

(** A suspended handler stays suspended, at its shifted index, through an
    event that does not settle it. *)
Lemma task_stays (s : State) (k : nat) (t : task) (e : event) :
  nth_error (tasks s) k = Some t ->
  (forall r : reply, e <> Settle k r) ->
  nth_error (tasks (step s e)) (shifted s k e) = Some t.
Proof.
  intros H N. destruct (tasks_step s e) as [new E]. rewrite E.
  apply nth_error_app_Some.
  destruct e; try exact H. unfold remaining, shifted.
  destruct (nth_error (tasks s) k0) as [t0|]; [|exact H].
  destruct (resume t0 r); [|exact H].
  rewrite nth_error_remove_nth; [exact H|].
  intros ->. apply (N r). reflexivity.
Qed.

(** ** The loop of a result event *)

Lemma and_then_normal {A B : Type} (c : completion A) (k : A -> completion B) (b : B) :
  and_then c k = Normal b -> exists a : A, c = Normal a /\ k a = Normal b.
Proof. destruct c as [a|]; simpl; intros H; [exists a; auto | discriminate]. Qed.

Lemma final_text_nil (frs : list fragment) :
  exists P : string, final_text frs [] = Normal P.
Proof.
  induction frs as [|f rest [P IH]]; simpl.
  - exists "". reflexivity.
  - destruct (isFinal f); [|exists P; exact IH].
    destruct (Js.lone_surrogate (frag_transcript f)).
    + rewrite IH. simpl. eexists. reflexivity.
    + exists "". reflexivity.
Qed.

Lemma final_text_awaited_nil (frs : list fragment) (os : list fetch_outcome) :
  awaited frs = [] -> final_text frs os = final_text frs [].
Proof.
  unfold awaited. induction frs as [|f rest IH]; simpl; intros H; [reflexivity|].
  destruct (isFinal f); simpl in H.
  - destruct (Js.lone_surrogate (frag_transcript f)); simpl in H; [|discriminate].
    rewrite (IH H). reflexivity.
  - exact (IH H).
Qed.

(** A text made from more answers is made, as far as it goes, from fewer. *)
Lemma final_text_app (frs : list fragment) :
  forall (os os' : list fetch_outcome) (x : string),
    final_text frs (os ++ os') = Normal x ->
    exists y : string, final_text frs os = Normal y.
Proof.
  induction frs as [|f rest IH]; simpl; intros os os' x H.
  - exists "". reflexivity.
  - destruct (isFinal f); [|exact (IH os os' x H)].
    destruct (Js.lone_surrogate (frag_transcript f)).
    + apply and_then_normal in H. destruct H as (r & Hr & _).
      destruct (IH os os' r Hr) as [y Hy]. rewrite Hy. simpl. eexists. reflexivity.
    + destruct os as [|o os]; [exists ""; reflexivity|]. simpl in H.
      apply and_then_normal in H. destruct H as (tr & Htr & H).
      apply and_then_normal in H. destruct H as (r & Hr & _).
      destruct (IH os os' r Hr) as [y Hy]. rewrite Htr, Hy. simpl.
      eexists. reflexivity.
Qed.

Lemma task_final_prefix (text : string) (rest : list fragment) (F pre : string)
    (os : list fetch_outcome) :
  task_final text rest (F ++ pre) os =
    and_then (task_final text rest pre os) (fun r => Normal (F ++ r)).
Proof.
  destruct os as [|o os]; simpl; [reflexivity|].
  destruct (ToString (translateToEnglish_settle text o)); simpl; [|reflexivity].
  destruct (final_text rest os); simpl; [|reflexivity].
  rewrite append_assoc. reflexivity.
Qed.

Lemma task_final_app (text : string) (rest : list fragment) (F : string)
    (os os' : list fetch_outcome) (x : string) :
  task_final text rest F (os ++ os') = Normal x ->
  exists y : string, task_final text rest F os = Normal y.
Proof.
  destruct os as [|o os]; simpl; intros H; [exists F; reflexivity|].
  apply and_then_normal in H. destruct H as (tr & Htr & H).
  apply and_then_normal in H. destruct H as (r & Hr & _).
  destruct (final_text_app rest os os' r Hr) as [y Hy].
  rewrite Htr, Hy. simpl. eexists. reflexivity.
Qed.

(** The accumulator of the handler once its first answer has come. *)
Lemma task_final_next (text : string) (rest : list fragment) (F : string)
    (o : fetch_outcome) (tr text' : string) (rest' : list fragment) (pre : string) :
  ToString (translateToEnglish_settle text o) = Normal tr ->
  (forall os, final_text rest os = task_final text' rest' pre os) ->
  forall os, task_final text' rest' ((F ++ tr) ++ pre) os
             = task_final text rest F (o :: os).
Proof.
  intros Htr H os. rewrite task_final_prefix, <- H. simpl. rewrite Htr. simpl.
  destruct (final_text rest os); simpl; [|reflexivity].
  rewrite append_assoc. reflexivity.
Qed.

(** The loop from entries none of which waits for an answer: it runs to
    updateTranscript. *)
Lemma onresult_from_finished (frs : list fragment) :
  forall (F I : string) (a : State) (P : string),
    awaited frs = [] ->
    final_text frs [] = Normal P ->
    onresult_from frs F I a =
      updateTranscript (VStr (F ++ P)) (I ++ interim_text frs) a.
Proof.
  unfold awaited. induction frs as [|f rest IH]; simpl; intros F I a P Ha HP.
  - injection HP as <-. rewrite !append_empty_r. reflexivity.
  - destruct (isFinal f); simpl in Ha.
    + destruct (Js.lone_surrogate (frag_transcript f)) eqn:El; simpl in Ha;
        [|discriminate].
      apply and_then_normal in HP. destruct HP as (r & Hr & HP).
      injection HP as <-.
      unfold bind. rewrite translateToEnglish_send_run, El.
      rewrite (IH _ _ _ r Ha Hr). rewrite append_assoc. reflexivity.
    + rewrite (IH _ _ _ P Ha HP). rewrite append_assoc. reflexivity.
Qed.

(** The loop up to the first entry that waits for an answer: the request
    for it is sent and the handler is suspended. *)
Lemma onresult_from_waiting (frs : list fragment) :
  forall (F I : string) (a : State) (f : fragment) (aw : list fragment),
    awaited frs = f :: aw ->
    exists (rest : list fragment) (pre ipre : string),
      awaited rest = aw /\
      interim_text frs = ipre ++ interim_text rest /\
      (forall os, final_text frs os = task_final (frag_transcript f) rest pre os) /\
      onresult_from frs F I a =
        (Normal tt,
         set_tasks
           (tasks a ++ [TResult (frag_transcript f) rest (F ++ pre) (I ++ ipre)])%list
           (set_requests (requests a ++ [request_for a (frag_transcript f)])%list a)).
Proof.
  unfold awaited. induction frs as [|g rest0 IH]; simpl; intros F I a f aw Ha.
  - discriminate.
  - destruct (isFinal g); simpl in Ha.
    + destruct (Js.lone_surrogate (frag_transcript g)) eqn:El; simpl in Ha.
      * destruct (IH (F ++ frag_transcript g) I a f aw Ha)
          as (rest & pre & ipre & Haw & Hi & Hf & Hrun).
        exists rest, (frag_transcript g ++ pre), ipre.
        split; [exact Haw|]. split; [exact Hi|]. split.
        -- intros os. rewrite Hf. symmetry. apply task_final_prefix.
        -- unfold bind. rewrite translateToEnglish_send_run, El. rewrite Hrun.
           rewrite append_assoc. reflexivity.
      * injection Ha as <- <-.
        exists rest0, "", "".
        split; [reflexivity|]. split; [reflexivity|]. split.
        -- intros [|o os]; reflexivity.
        -- unfold bind. rewrite translateToEnglish_send_run, El.
           rewrite !append_empty_r. reflexivity.
    + destruct (IH F (I ++ frag_transcript g) a f aw Ha)
        as (rest & pre & ipre & Haw & Hi & Hf & Hrun).
      exists rest, pre, (frag_transcript g ++ ipre).
      split; [exact Haw|]. split.
      * rewrite Hi. symmetry. apply append_assoc.
      * split; [exact Hf|]. rewrite Hrun. rewrite append_assoc. reflexivity.
Qed.

(** The answer to a suspended result handler: its translation is converted
    and added, and the loop goes on; a conversion that throws ends the
    handler. *)
Lemma step_settle_result (a : State) (k : nat) (text : string)
    (rest : list fragment) (F I : string) (o : fetch_outcome) :
  nth_error (tasks a) k = Some (TResult text rest F I) ->
  step a (Settle k (Fetched o)) =
    match ToString (translateToEnglish_settle text o) with
    | Normal added =>
        exec (onresult_from rest (F ++ added) I)
             (set_tasks (remove_nth k (tasks a)) a)
    | Thrown => set_tasks (remove_nth k (tasks a)) a
    end.
Proof.
  intros H. erewrite step_settle; [|exact H|reflexivity].
  unfold exec, bind, lift.
  destruct (ToString (translateToEnglish_settle text o)); reflexivity.
Qed.

(** What updateTranscript does with a string. *)
Lemma updateTranscript_string (f i : string) (s : State) :
  let s' := exec (updateTranscript (VStr f) i) s in
  transcript s' = transcript s ++ entry s i f /\
  transcriptText s' = transcript s' ++ speaking_line i /\
  requests s' = requests s /\
  tasks s' = tasks s /\
  translationLanguage s' = translationLanguage s /\
  isSupported s' = isSupported s /\
  lastTranslation s' = (if Js.nonempty f then VStr f else lastTranslation s) /\
  languageSelect s' = languageSelect s.
Proof.
  unfold updateTranscript, entry, block, speaking_line. handler_unfold. simpl.
  destruct (Js.nonempty f); simpl; repeat split.
  symmetry. apply append_empty_r.
Qed.

(** *** A suspended handler through any schedule *)

(** After moves that hold fewer answers than the handler awaits, each
    converting to text, the handler is suspended at the index [play] gives,
    in the translation of the next entry that waits for one. *)
Lemma play_position (sch : list move) :
  forall (a : State) (k : nat) (text : string) (rest : list fragment)
         (F I F0 : string),
    nth_error (tasks a) k = Some (TResult text rest F I) ->
    apart a k sch ->
    (length (answers sch) <= length (awaited rest))%nat ->
    task_final text rest F (answers sch) = Normal F0 ->
    exists (text' : string) (rest' : list fragment) (F' I' : string),
      nth_error (tasks (fst (play a k sch))) (snd (play a k sch))
        = Some (TResult text' rest' F' I') /\
      awaited rest' = skipn (length (answers sch)) (awaited rest) /\
      I' ++ interim_text rest' = I ++ interim_text rest /\
      (forall os, task_final text' rest' F' os
                  = task_final text rest F (answers sch ++ os)%list).
Proof.
  induction sch as [|[e|o] sch IH]; intros a k text rest F I F0 Hk Hap Hlen Hfin.
  - exists text, rest, F, I. repeat split. exact Hk.
  - simpl in *. destruct Hap as [Hne Hap].
    apply (IH (step a e) (shifted a k e) text rest F I F0); try assumption.
    apply task_stays; assumption.
  - simpl in Hap, Hlen, Hfin. simpl play. simpl answers.
    apply and_then_normal in Hfin. destruct Hfin as (tr & Htr & Hfin).
    apply and_then_normal in Hfin. destruct Hfin as (r & Hr & _).
    destruct (awaited rest) as [|f aw] eqn:Ea; [simpl in Hlen; lia|].
    simpl in Hlen.
    pose proof (step_settle_result a k text rest F I o Hk) as Hstep.
    rewrite Htr in Hstep.
    destruct (onresult_from_waiting rest (F ++ tr) I
                (set_tasks (remove_nth k (tasks a)) a) f aw Ea)
      as (rest' & pre & ipre & Haw & Hi & Hf & Hrun).
    unfold exec in Hstep. rewrite Hrun in Hstep. simpl snd in Hstep.
    set (a' := step a (Settle k (Fetched o))) in *.
    assert (Ht : tasks a' =
                 (remove_nth k (tasks a) ++
                    [TResult (frag_transcript f) rest' ((F ++ tr) ++ pre) (I ++ ipre)])%list).
    { rewrite Hstep. reflexivity. }
    assert (Hidx : pred (length (tasks a')) = length (remove_nth k (tasks a))).
    { rewrite Ht, length_app. simpl. lia. }
    rewrite Hidx in *.
    destruct (IH a' (length (remove_nth k (tasks a))) (frag_transcript f) rest'
                ((F ++ tr) ++ pre) (I ++ ipre) ((F ++ tr) ++ r))
      as (text'' & rest'' & F'' & I'' & Hk'' & Haw'' & Hi'' & Hf'').
    + rewrite Ht. apply nth_error_last.
    + exact Hap.
    + rewrite Haw. lia.
    + rewrite task_final_prefix, <- Hf, Hr. reflexivity.
    + exists text'', rest'', F'', I''.
      split; [exact Hk''|]. split; [rewrite Haw'', Haw; reflexivity|]. split.
      * rewrite Hi'', Hi. apply append_assoc.
      * intros os. rewrite Hf''.
        apply (task_final_next text rest F o tr _ _ _ Htr Hf).
Qed.

(** The last answer the handler awaits: the loop runs to its end, and
    updateTranscript is given everything the event has brought. *)
Lemma play_last_answer (sch : list move) (a : State) (k : nat) (text : string)
    (rest : list fragment) (F I : string) (o : fetch_outcome) (Fin : string) :
  nth_error (tasks a) k = Some (TResult text rest F I) ->
  apart a k sch ->
  length (answers sch) = length (awaited rest) ->
  task_final text rest F (answers sch ++ [o])%list = Normal Fin ->
  let b := fst (play a k sch) in
  let j := snd (play a k sch) in
  step b (Settle j (Fetched o)) =
    exec (updateTranscript (VStr Fin) (I ++ interim_text rest))
         (set_tasks (remove_nth j (tasks b)) b).
Proof.
  intros Hk Hap Hlen Hfin b j.
  destruct (task_final_app _ _ _ _ _ _ Hfin) as [F0 HF0].
  destruct (play_position sch a k text rest F I F0 Hk Hap) as
    (text' & rest' & F' & I' & Hk' & Haw & Hi & Hf); [lia | exact HF0 |].
  fold b j in Hk'. rewrite Hlen, skipn_all in Haw.
  rewrite <- Hf in Hfin. simpl in Hfin.
  apply and_then_normal in Hfin. destruct Hfin as (tr & Htr & Hfin).
  apply and_then_normal in Hfin. destruct Hfin as (P & HP & Hfin).
  injection Hfin as <-.
  rewrite (step_settle_result b j text' rest' F' I' o Hk'), Htr.
  unfold exec. rewrite (onresult_from_finished rest' _ _ _ P Haw HP).
  rewrite append_assoc, Hi. reflexivity.
Qed.

(** An answer before the last: the request for the next entry that waits
    for one is sent, the handler is suspended again, and nothing else is
    written. *)
Lemma play_earlier_answer (sch : list move) (a : State) (k : nat) (text : string)
    (rest : list fragment) (F I : string) (o : fetch_outcome) (F0 : string)
    (f : fragment) :
  nth_error (tasks a) k = Some (TResult text rest F I) ->
  apart a k sch ->
  nth_error (awaited rest) (length (answers sch)) = Some f ->
  task_final text rest F (answers sch ++ [o])%list = Normal F0 ->
  let b := fst (play a k sch) in
  let j := snd (play a k sch) in
  exists t : task,
    step b (Settle j (Fetched o)) =
      set_tasks (remove_nth j (tasks b) ++ [t])%list
        (set_requests (requests b ++ [request_for b (frag_transcript f)])%list b).
Proof.
  intros Hk Hap Hnth Hfin b j.
  destruct (task_final_app _ _ _ _ _ _ Hfin) as [F1 HF1].
  assert (Hlt : (length (answers sch) < length (awaited rest))%nat).
  { apply nth_error_Some. rewrite Hnth. discriminate. }
  destruct (play_position sch a k text rest F I F1 Hk Hap) as
    (text' & rest' & F' & I' & Hk' & Haw & Hi & Hf); [lia | exact HF1 |].
  fold b j in Hk'.
  rewrite <- Hf in Hfin. simpl in Hfin.
  apply and_then_normal in Hfin. destruct Hfin as (tr & Htr & _).
  assert (Hhead : exists aw, awaited rest' = f :: aw).
  { rewrite Haw. clear - Hnth. revert Hnth.
    generalize (length (answers sch)) as n. generalize (awaited rest) as l.
    induction l as [|x l IH]; intros [|n]; simpl; intros H; try discriminate.
    - injection H as ->. eexists. reflexivity.
    - apply IH. exact H. }
  destruct Hhead as [aw Hhead].
  destruct (onresult_from_waiting rest' (F' ++ tr) I'
              (set_tasks (remove_nth j (tasks b)) b) f aw Hhead)
    as (rest'' & pre & ipre & _ & _ & _ & Hrun).
  rewrite (step_settle_result b j text' rest' F' I' o Hk'), Htr.
  unfold exec. rewrite Hrun. eexists. reflexivity.
Qed.

(** An answer whose translation cannot be converted to text: the handler
    ends there and writes nothing. *)
Lemma play_thrown_answer (sch : list move) (a : State) (k : nat) (text : string)
    (rest : list fragment) (F I : string) (o : fetch_outcome) (F0 : string) :
  nth_error (tasks a) k = Some (TResult text rest F I) ->
  apart a k sch ->
  (length (answers sch) <= length (awaited rest))%nat ->
  task_final text rest F (answers sch) = Normal F0 ->
  task_final text rest F (answers sch ++ [o])%list = Thrown ->
  let b := fst (play a k sch) in
  let j := snd (play a k sch) in
  step b (Settle j (Fetched o)) = set_tasks (remove_nth j (tasks b)) b.
Proof.
  intros Hk Hap Hlen HF0 Hfin b j.
  destruct (play_position sch a k text rest F I F0 Hk Hap Hlen HF0) as
    (text' & rest' & F' & I' & Hk' & Haw & Hi & Hf).
  fold b j in Hk'.
  rewrite <- Hf in Hfin. simpl in Hfin.
  rewrite (step_settle_result b j text' rest' F' I' o Hk').
  destruct (ToString (translateToEnglish_settle text' o)) as [tr|]; [|reflexivity].
  simpl in Hfin. destruct (final_text_nil rest') as [P HP].
  rewrite HP in Hfin. discriminate Hfin.
Qed.

(** ** Result events *)

(** A result event with an entry that waits for an answer: the request for
    the first such entry is sent and the handler is suspended, last of the
    suspended handlers; nothing else is written. *)
Lemma result_delivery_waiting (s : State) (ev : RecognitionEvent)
    (f : fragment) (aw : list fragment) :
  let frs := skipn (resultIndex ev) (results ev) in
  isSupported s = true ->
  awaited frs = f :: aw ->
  exists (rest : list fragment) (pre ipre : string),
    awaited rest = aw /\
    interim_text frs = ipre ++ interim_text rest /\
    (forall os, final_text frs os = task_final (frag_transcript f) rest pre os) /\
    step s (Result ev) =
      set_tasks (tasks s ++ [TResult (frag_transcript f) rest pre ipre])%list
        (set_requests (requests s ++ [request_for s (frag_transcript f)])%list s).
Proof.
  intros frs Hs Ha.
  destruct (onresult_from_waiting frs "" "" s f aw Ha)
    as (rest & pre & ipre & Haw & Hi & Hf & Hrun).
  exists rest, pre, ipre. split; [exact Haw|]. split; [exact Hi|].
  split; [exact Hf|].
  rewrite (step_result s ev Hs). unfold exec. fold frs. rewrite Hrun. reflexivity.
Qed.

(** A result event with no entry that waits for an answer is handled when
    it is delivered. *)
Lemma result_delivery_finished (s : State) (ev : RecognitionEvent) :
  let frs := skipn (resultIndex ev) (results ev) in
  isSupported s = true ->
  awaited frs = [] ->
  exists F : string,
    (forall os, final_text frs os = Normal F) /\
    step s (Result ev) = exec (updateTranscript (VStr F) (interim_text frs)) s.
Proof.
  intros frs Hs Ha. destruct (final_text_nil frs) as [P HP].
  exists P. split.
  - intros os. rewrite (final_text_awaited_nil frs os Ha). exact HP.
  - rewrite (step_result s ev Hs). unfold exec. fold frs.
    rewrite (onresult_from_finished frs "" "" s P Ha HP). reflexivity.
Qed.

Lemma set_requests_same (s : State) : set_requests (requests s) s = s.
Proof. destruct s. reflexivity. Qed.

Lemma set_tasks_same (s : State) : set_tasks (tasks s) s = s.
Proof. destruct s. reflexivity. Qed.

(** The loop from any entry on, with the answers coming one after the
    other and nothing in between. *)
Lemma onresult_from_run (os : list fetch_outcome) :
  forall (frs : list fragment) (F I : string) (a : State) (Fin : string),
    length os = length (awaited frs) ->
    and_then (final_text frs os) (fun r => Normal (F ++ r)) = Normal Fin ->
    run (exec (onresult_from frs F I) a)
        (map (fun o => Settle (length (tasks a)) (Fetched o)) os)
    = exec (updateTranscript (VStr Fin) (I ++ interim_text frs))
           (set_requests
              (requests a ++
                 map (fun f => request_for a (frag_transcript f)) (awaited frs))%list
              a).
Proof.
  induction os as [|o os IH]; intros frs F I a Fin Hlen Hfin.
  - symmetry in Hlen. apply length_zero_iff_nil in Hlen.
    destruct (final_text_nil frs) as [P HP]. rewrite HP in Hfin. simpl in Hfin.
    injection Hfin as <-. unfold run. simpl.
    unfold exec. rewrite (onresult_from_finished frs F I a P Hlen HP).
    rewrite Hlen. simpl map. rewrite app_nil_r, set_requests_same. reflexivity.
  - destruct (awaited frs) as [|f aw] eqn:Ea; [discriminate|].
    simpl in Hlen. injection Hlen as Hlen.
    destruct (onresult_from_waiting frs F I a f aw Ea)
      as (rest & pre & ipre & Haw & Hi & Hf & Hrun).
    rewrite Hf in Hfin. simpl in Hfin.
    destruct (ToString (translateToEnglish_settle (frag_transcript f) o))
      as [tr|] eqn:Htr; simpl in Hfin; [|discriminate].
    destruct (final_text rest os) as [r|] eqn:Hr; simpl in Hfin; [|discriminate].
    injection Hfin as <-.
    set (a2 := set_requests (requests a ++ [request_for a (frag_transcript f)])%list a).
    set (T := TResult (frag_transcript f) rest (F ++ pre) (I ++ ipre)).
    assert (E1 : exec (onresult_from frs F I) a = set_tasks (tasks a ++ [T])%list a2).
    { unfold exec. rewrite Hrun. reflexivity. }
    assert (E2 : step (set_tasks (tasks a ++ [T])%list a2)
                      (Settle (length (tasks a)) (Fetched o))
                 = exec (onresult_from rest ((F ++ pre) ++ tr) (I ++ ipre)) a2).
    { rewrite (step_settle_result _ (length (tasks a)) (frag_transcript f) rest
                 (F ++ pre) (I ++ ipre) o); [|apply nth_error_last].
      rewrite Htr. f_equal.
      change (tasks (set_tasks (tasks a ++ [T])%list a2)) with (tasks a ++ [T])%list.
      rewrite remove_nth_last. subst a2. destruct a. reflexivity. }
    rewrite E1. simpl map. unfold run. simpl fold_left. rewrite E2.
    change (length (tasks a)) with (length (tasks a2)).
    fold (run (exec (onresult_from rest ((F ++ pre) ++ tr) (I ++ ipre)) a2)
              (map (fun o0 => Settle (length (tasks a2)) (Fetched o0)) os)).
    rewrite (IH rest ((F ++ pre) ++ tr) (I ++ ipre) a2 (((F ++ pre) ++ tr) ++ r)).
    + rewrite Haw, Hi. rewrite !append_assoc.
      f_equal. subst a2. simpl map. unfold request_for at 3. simpl.
      rewrite <- app_assoc. destruct a. reflexivity.
    + rewrite Haw. exact Hlen.
    + rewrite Hr. reflexivity.
Qed.

(** A result event handled with nothing in between. *)
Lemma result_uninterrupted (s : State) (ev : RecognitionEvent)
    (os : list fetch_outcome) (F : string) :
  let frs := skipn (resultIndex ev) (results ev) in
  isSupported s = true ->
  length os = length (awaited frs) ->
  final_text frs os = Normal F ->
  uninterrupted s ev os =
    exec (updateTranscript (VStr F) (interim_text frs))
         (set_requests
            (requests s ++
               map (fun f => request_for s (frag_transcript f)) (awaited frs))%list
            s).
Proof.
  intros frs Hs Hlen Hfin. unfold uninterrupted.
  rewrite (step_result s ev Hs). fold frs.
  apply (onresult_from_run os frs "" "" s F Hlen).
  rewrite Hfin. reflexivity.
Qed.

(** The handler is suspended where [play] says, as long as fewer answers
    have come than it awaits. *)
Lemma play_suspended (sch : list move) (a : State) (k : nat) (text : string)
    (rest : list fragment) (F I F0 : string) :
  nth_error (tasks a) k = Some (TResult text rest F I) ->
  apart a k sch ->
  (length (answers sch) <= length (awaited rest))%nat ->
  task_final text rest F (answers sch) = Normal F0 ->
  exists t : task,
    nth_error (tasks (fst (play a k sch))) (snd (play a k sch)) = Some t.
Proof.
  intros Hk Hap Hlen HF0.
  destruct (play_position sch a k text rest F I F0 Hk Hap Hlen HF0)
    as (text' & rest' & F' & I' & Hk' & _).
  eexists. exact Hk'.
Qed.

Lemma final_text_no_finals (frs : list fragment) :
  filter isFinal frs = [] ->
  awaited frs = [] /\ forall os, final_text frs os = Normal "".
Proof.
  unfold awaited. induction frs as [|f rest IH]; simpl; intros H.
  - split; reflexivity.
  - destruct (isFinal f); [discriminate|]. simpl. exact (IH H).
Qed.

(** C2, as the code has it.  A result event sends the request for its first
    final entry and suspends; each answer but the last sends the request
    for the next final entry; nothing else is written meanwhile, whatever
    else happens on the page.  The last answer appends one block for the
    event to the transcript as it then is, when the translations, converted
    to text and concatenated, are not empty: [Original:] with the text of
    the event's entries that are not final, then the target language's name
    and the translations; when they are empty nothing is appended.  The
    display becomes the transcript followed by one [Speaking:] line made of
    the text of the entries that are not final (no line when there is none),
    so an earlier line is replaced.  A final entry whose text
    [encodeURIComponent] rejects gets no request and stands untranslated; an
    event with no entry to await is handled when it is delivered.  An answer
    whose translation cannot be converted to text ends the handler: nothing
    is appended and no further request is made.  Handled with nothing in
    between, the event sends its requests in order and appends its block to
    the transcript it found. *)
Theorem onresult_translates_and_appends (s : State) (ev : RecognitionEvent) :
  let frs := skipn (resultIndex ev) (results ev) in
  let n := length (tasks s) in
  let s0 := step s (Result ev) in
  isSupported s = true ->
  (awaited frs = [] ->
   exists F : string,
     (forall os, final_text frs os = Normal F) /\
     transcript s0 = transcript s ++ entry s (interim_text frs) F /\
     transcriptText s0 = transcript s0 ++ speaking_line (interim_text frs) /\
     requests s0 = requests s /\
     tasks s0 = tasks s) /\
  (filter isFinal frs = [] ->
   transcript s0 = transcript s /\
   transcriptText s0 = transcript s ++ speaking_line (interim_text frs) /\
   requests s0 = requests s) /\
  (forall (f : fragment) (aw : list fragment),
     awaited frs = f :: aw ->
     requests s0 = (requests s ++ [request_for s (frag_transcript f)])%list /\
     length (tasks s0) = S n /\
     transcript s0 = transcript s /\
     transcriptText s0 = transcriptText s /\
     lastTranslation s0 = lastTranslation s) /\
  (forall (sch : list move) (o : fetch_outcome) (F : string),
     apart s0 n sch ->
     S (length (answers sch)) = length (awaited frs) ->
     final_text frs (answers sch ++ [o])%list = Normal F ->
     let a := fst (play s0 n sch) in
     let s' := step a (Settle (snd (play s0 n sch)) (Fetched o)) in
     transcript s' = transcript a ++ entry a (interim_text frs) F /\
     transcriptText s' = transcript s' ++ speaking_line (interim_text frs) /\
     requests s' = requests a /\
     S (length (tasks s')) = length (tasks a)) /\
  (forall (sch : list move) (o : fetch_outcome) (F : string) (f : fragment),
     apart s0 n sch ->
     nth_error (awaited frs) (S (length (answers sch))) = Some f ->
     final_text frs (answers sch ++ [o])%list = Normal F ->
     let a := fst (play s0 n sch) in
     let s' := step a (Settle (snd (play s0 n sch)) (Fetched o)) in
     requests s' = (requests a ++ [request_for a (frag_transcript f)])%list /\
     length (tasks s') = length (tasks a) /\
     transcript s' = transcript a /\
     transcriptText s' = transcriptText a /\
     lastTranslation s' = lastTranslation a) /\
  (forall (sch : list move) (o : fetch_outcome) (F0 : string),
     apart s0 n sch ->
     (length (answers sch) < length (awaited frs))%nat ->
     final_text frs (answers sch) = Normal F0 ->
     final_text frs (answers sch ++ [o])%list = Thrown ->
     let a := fst (play s0 n sch) in
     let s' := step a (Settle (snd (play s0 n sch)) (Fetched o)) in
     s' = set_tasks (tasks s') a /\
     S (length (tasks s')) = length (tasks a)) /\
  (forall (os : list fetch_outcome) (F : string),
     length os = length (awaited frs) ->
     final_text frs os = Normal F ->
     let s' := uninterrupted s ev os in
     requests s' =
       (requests s ++
          map (fun f => request_for s (frag_transcript f)) (awaited frs))%list /\
     transcript s' = transcript s ++ entry s (interim_text frs) F /\
     transcriptText s' = transcript s' ++ speaking_line (interim_text frs) /\
     tasks s' = tasks s).
Proof.
  intros frs n s0 Hs.
  assert (W : forall f aw, awaited frs = f :: aw ->
            exists rest pre ipre,
              awaited rest = aw /\
              interim_text frs = ipre ++ interim_text rest /\
              (forall os, final_text frs os = task_final (frag_transcript f) rest pre os) /\
              s0 = set_tasks (tasks s ++ [TResult (frag_transcript f) rest pre ipre])%list
                     (set_requests (requests s ++ [request_for s (frag_transcript f)])%list s) /\
              nth_error (tasks s0) n = Some (TResult (frag_transcript f) rest pre ipre)).
  { intros f aw Ea.
    destruct (result_delivery_waiting s ev f aw Hs Ea)
      as (rest & pre & ipre & Haw & Hi & Hf & Hstep).
    exists rest, pre, ipre. split; [exact Haw|]. split; [exact Hi|].
    split; [exact Hf|]. split; [exact Hstep|].
    unfold s0. rewrite Hstep. apply nth_error_last. }
  split; [|split; [|split; [|split; [|split; [|split]]]]].
  - intros Ha. destruct (result_delivery_finished s ev Hs Ha) as (F & HF & Hstep).
    exists F. split; [exact HF|]. unfold s0. rewrite Hstep.
    destruct (updateTranscript_string F (interim_text frs) s)
      as (H1 & H2 & H3 & H4 & _).
    split; [exact H1|]. split; [exact H2|]. split; [exact H3 | exact H4].
  - intros Hn. destruct (final_text_no_finals frs Hn) as [Ha HF0].
    destruct (result_delivery_finished s ev Hs Ha) as (F & HF & Hstep).
    fold frs in HF, Hstep. specialize (HF []). rewrite HF0 in HF.
    injection HF as <-. unfold s0. rewrite Hstep.
    destruct (updateTranscript_string "" (interim_text frs) s)
      as (H1 & H2 & H3 & _).
    unfold entry in H1. simpl in H1. rewrite append_empty_r in H1.
    split; [exact H1|]. split; [rewrite H2; reflexivity | exact H3].
  - intros f aw Ea. destruct (W f aw Ea) as (rest & pre & ipre & _ & _ & _ & E & _).
    rewrite E. simpl. split; [reflexivity|]. split; [|repeat split].
    rewrite length_app. simpl. unfold n. lia.
  - intros sch o F Hap Hlen Hfin a s'.
    destruct (awaited frs) as [|f aw] eqn:Ea; [discriminate|].
    destruct (W f aw eq_refl) as (rest & pre & ipre & Haw & Hi & Hf & _ & Hk).
    simpl in Hlen. injection Hlen as Hlen. rewrite <- Haw in Hlen.
    rewrite Hf in Hfin.
    pose proof (play_last_answer sch s0 n _ rest pre ipre o F Hk Hap Hlen Hfin) as E.
    destruct (task_final_app _ _ _ _ _ _ Hfin) as [F0 HF0].
    destruct (play_suspended sch s0 n _ rest pre ipre F0 Hk Hap) as [t Ht];
      [lia | exact HF0 |].
    fold a in E, Ht. simpl in E. fold s' in E. rewrite <- Hi in E.
    destruct (updateTranscript_string F (interim_text frs)
                (set_tasks (remove_nth (snd (play s0 n sch)) (tasks a)) a))
      as (H1 & H2 & H3 & H4 & _).
    rewrite <- E in H1, H2, H3, H4.
    split; [exact H1|]. split; [exact H2|]. split; [exact H3|].
    rewrite H4. simpl. apply (length_remove_nth _ _ t Ht).
  - intros sch o F f Hap Hnth Hfin a s'.
    destruct (awaited frs) as [|f0 aw] eqn:Ea; [discriminate|].
    destruct (W f0 aw eq_refl) as (rest & pre & ipre & Haw & Hi & Hf & _ & Hk).
    simpl in Hnth. rewrite <- Haw in Hnth. rewrite Hf in Hfin.
    destruct (play_earlier_answer sch s0 n _ rest pre ipre o F f Hk Hap Hnth Hfin)
      as [t E].
    destruct (task_final_app _ _ _ _ _ _ Hfin) as [F0 HF0].
    assert (Hlt : (length (answers sch) < length (awaited rest))%nat).
    { apply nth_error_Some. rewrite Hnth. discriminate. }
    destruct (play_suspended sch s0 n _ rest pre ipre F0 Hk Hap) as [t0 Ht];
      [lia | exact HF0 |].
    fold a in E, Ht. fold s' in E. rewrite E. simpl.
    split; [reflexivity|]. split; [|repeat split].
    rewrite length_app. simpl. pose proof (length_remove_nth _ _ t0 Ht). lia.
  - intros sch o F0 Hap Hlt HF0 Hfin a s'.
    destruct (awaited frs) as [|f aw] eqn:Ea; [simpl in Hlt; lia|].
    destruct (W f aw eq_refl) as (rest & pre & ipre & Haw & Hi & Hf & _ & Hk).
    simpl in Hlt. rewrite <- Haw in Hlt. rewrite Hf in HF0, Hfin.
    assert (Hle : (length (answers sch) <= length (awaited rest))%nat) by lia.
    pose proof (play_thrown_answer sch s0 n _ rest pre ipre o F0 Hk Hap Hle HF0 Hfin)
      as E.
    destruct (play_suspended sch s0 n _ rest pre ipre F0 Hk Hap Hle HF0) as [t Ht].
    fold a in E, Ht. simpl in E. fold s' in E. rewrite E. simpl.
    split; [reflexivity|]. apply (length_remove_nth _ _ t Ht).
  - intros os F Hlen Hfin s'. unfold s'.
    rewrite (result_uninterrupted s ev os F Hs Hlen Hfin).
    destruct (updateTranscript_string F (interim_text frs)
                (set_requests
                   (requests s ++
                      map (fun f => request_for s (frag_transcript f)) (awaited frs))%list
                   s))
      as (H1 & H2 & H3 & H4 & _).
    split; [exact H3|]. split; [exact H1|]. split; [exact H2 | exact H4].
Qed.

Lemma onresult_translates_and_appends_witness :
  let ev := mkEvent 1 [ mkFragment "old" true; mkFragment "namaste" true;
                        mkFragment "dun" false ] in
  let s' := uninterrupted example_ready ev [Parsed (translated "hello")] in
  let sch := [Other (ClickStop Returns); Other (Synthesizer true)] in
  let a := fst (play (step example_ready (Result ev)) 0 sch) in
  let late := step a (Settle (snd (play (step example_ready (Result ev)) 0 sch))
                             (Fetched (Parsed (translated "hello")))) in
  requests s' = [mkRequest "namaste" (Code "hi") "en"] /\
  transcript s' =
    "Original: dun" ++ Js.nl ++ "English Translation: hello" ++ Js.nl ++ Js.nl /\
  transcriptText s' = transcript s' ++ "Speaking: dun" /\
  transcript late =
    "Original: dun" ++ Js.nl ++ "English Translation: hello" ++ Js.nl ++ Js.nl.
Proof.
  intros ev s' sch a late.
  destruct (onresult_translates_and_appends example_ready ev eq_refl)
    as (_ & _ & _ & L & _ & _ & U).
  destruct (U [Parsed (translated "hello")] "hello" eq_refl eq_refl)
    as (Hr & Ht & Hd & _).
  assert (Hap : apart (step example_ready (Result ev)) (length (tasks example_ready)) sch).
  { simpl. split; [intros r H; discriminate H|].
    split; [intros r H; discriminate H | exact I]. }
  destruct (L sch (Parsed (translated "hello")) "hello" Hap eq_refl eq_refl)
    as (Hl & _).
  split; [exact Hr|]. split; [exact Ht|]. split; [exact Hd | exact Hl].
Defined.

(** C2 as stated fails, in four ways.  A final entry does not always put a
    block in the transcript: when the service answers with an empty
    translation, the request is sent and the transcript stays as it was.
    Two final entries of one event give one block, not two.  A translation
    that has no text ends the handler: nothing is appended, and the
    event's second final entry is never sent for translation.  A final
    entry whose text [encodeURIComponent] rejects triggers no translation;
    its own text is appended. *)
Lemma final_entry_without_block :
  ~ (forall (s : State) (ev : RecognitionEvent) (os : list fetch_outcome),
       isSupported s = true ->
       length os = length (filter isFinal (skipn (resultIndex ev) (results ev))) ->
       filter isFinal (skipn (resultIndex ev) (results ev)) <> [] ->
       exists appended : string,
         appended <> "" /\
         transcript (uninterrupted s ev os) = transcript s ++ appended) /\
  (let ev := mkEvent 0 [mkFragment "ek" true; mkFragment "do" true] in
   transcript (uninterrupted example_ready ev
                 [Parsed (translated "one"); Parsed (translated "two")])
     = block "" "English" "onetwo" /\
   let s' := uninterrupted example_ready ev
               [Parsed (answering textless); Parsed (translated "two")] in
   transcript s' = "" /\
   tasks s' = [] /\
   requests s' = [mkRequest "ek" (Code "hi") "en"]) /\
  (let s' := step example_ready (Result (mkEvent 0 [mkFragment lone true])) in
   requests s' = [] /\
   tasks s' = [] /\
   transcript s' = block "" "English" lone).
Proof.
  split; [|split].
  - intros H.
    destruct (H example_ready (mkEvent 0 [mkFragment "namaste" true])
                [Parsed (translated "")] eq_refl eq_refl) as (x & Hx & E).
    + discriminate.
    + apply Hx. vm_compute in E. symmetry. exact E.
  - vm_compute. repeat split.
  - vm_compute. repeat split.
Qed.

(** ** Two result events in flight *)

Lemma entry_same_language (a b : State) (i f : string) :
  translationLanguage a = translationLanguage b -> entry a i f = entry b i f.
Proof. unfold entry. intros ->. reflexivity. Qed.

(** One answer to a suspended result handler: with the last answer it
    awaits it runs to updateTranscript and ends; with an earlier one it
    suspends again, last, and writes nothing. *)
Lemma pending_step (a : State) (k : nat) (o : fetch_outcome)
    (R : list fetch_outcome) (Itot Fin : string) :
  pending a k (o :: R) Itot Fin ->
  let s' := step a (Settle k (Fetched o)) in
  translationLanguage s' = translationLanguage a /\
  match R with
  | [] =>
      parked_again a s' = None /\
      s' = exec (updateTranscript (VStr Fin) Itot)
                (set_tasks (remove_nth k (tasks a)) a)
  | _ :: _ =>
      exists k' : nat,
        parked_again a s' = Some k' /\
        pending s' k' R Itot Fin /\
        transcript s' = transcript a /\
        lastTranslation s' = lastTranslation a /\
        length (tasks s') = length (tasks a) /\
        k' = length (remove_nth k (tasks a))
  end.
Proof.
  intros (text & rest & F & I & Hk & Hlen & Hfin & Hi) s'.
  simpl in Hlen. injection Hlen as Hlen.
  pose proof (length_remove_nth _ _ _ Hk) as Hrem.
  pose proof (step_settle_result a k text rest F I o Hk) as Hstep. fold s' in Hstep.
  pose proof Hfin as Hfin'. simpl in Hfin'.
  apply and_then_normal in Hfin'. destruct Hfin' as (tr & Htr & Hfin').
  apply and_then_normal in Hfin'. destruct Hfin' as (r & Hr & Hfin').
  injection Hfin' as HFin. rewrite Htr in Hstep.
  destruct R as [|o' R'].
  - symmetry in Hlen. apply length_zero_iff_nil in Hlen.
    unfold exec in Hstep.
    rewrite (onresult_from_finished rest _ _ _ r Hlen Hr) in Hstep.
    rewrite append_assoc, HFin, Hi in Hstep. fold (exec (updateTranscript (VStr Fin) Itot)
      (set_tasks (remove_nth k (tasks a)) a)) in Hstep.
    destruct (updateTranscript_string Fin Itot (set_tasks (remove_nth k (tasks a)) a))
      as (_ & _ & _ & H4 & H5 & _).
    rewrite <- Hstep in H4, H5. simpl in H4, H5.
    split; [exact H5|]. split; [|exact Hstep].
    unfold parked_again. rewrite H4.
    destruct (Nat.eqb_spec (length (remove_nth k (tasks a))) (length (tasks a)));
      [lia | reflexivity].
  - destruct (awaited rest) as [|f aw] eqn:Ea; [discriminate|].
    simpl in Hlen. injection Hlen as Hlen.
    destruct (onresult_from_waiting rest (F ++ tr) I
                (set_tasks (remove_nth k (tasks a)) a) f aw Ea)
      as (rest' & pre & ipre & Haw & Hi' & Hf & Hrun).
    unfold exec in Hstep. rewrite Hrun in Hstep. simpl snd in Hstep.
    assert (Ht : tasks s' =
                 (remove_nth k (tasks a) ++
                    [TResult (frag_transcript f) rest' ((F ++ tr) ++ pre) (I ++ ipre)])%list).
    { rewrite Hstep. reflexivity. }
    assert (Hl : length (tasks s') = length (tasks a)).
    { rewrite Ht, length_app. simpl. lia. }
    split; [rewrite Hstep; reflexivity|].
    exists (length (remove_nth k (tasks a))).
    split; [|split; [|split; [|split; [|split]]]].
    + unfold parked_again. rewrite Hl, Nat.eqb_refl. f_equal. lia.
    + exists (frag_transcript f), rest', ((F ++ tr) ++ pre), (I ++ ipre).
      split; [rewrite Ht; apply nth_error_last|].
      split; [simpl; rewrite Haw; lia|]. split.
      * rewrite (task_final_next text rest F o tr _ _ _ Htr Hf). exact Hfin.
      * rewrite <- Hi, Hi'. apply append_assoc.
    + rewrite Hstep. reflexivity.
    + rewrite Hstep. reflexivity.
    + exact Hl.
    + reflexivity.
Qed.

(** A suspended result handler is not touched by an event that settles
    another. *)
Lemma pending_stays (a : State) (k : nat) (e : event) (R : list fetch_outcome)
    (Itot Fin : string) :
  pending a k R Itot Fin ->
  (forall r : reply, e <> Settle k r) ->
  pending (step a e) (shifted a k e) R Itot Fin.
Proof.
  intros (text & rest & F & I & Hk & H) N.
  exists text, rest, F, I. split; [|exact H].
  apply task_stays; assumption.
Qed.

Lemma pending_nonempty (a : State) (k : nat) (R : list fetch_outcome)
    (Itot Fin : string) :
  pending a k R Itot Fin -> R <> [].
Proof.
  intros (text & rest & F & I & _ & Hlen & _) ->. discriminate Hlen.
Qed.

Lemma pending_index (a : State) (k : nat) (R : list fetch_outcome)
    (Itot Fin : string) :
  pending a k R Itot Fin -> (k < length (tasks a))%nat.
Proof.
  intros (text & rest & F & I & Hk & _). apply nth_error_Some. rewrite Hk. discriminate.
Qed.

Lemma answers_to_cons (sd m : side) (o : fetch_outcome)
    (sch : list (side * fetch_outcome)) :
  answers_to sd ((m, o) :: sch) =
    if side_eqb m sd then o :: answers_to sd sch else answers_to sd sch.
Proof. unfold answers_to. simpl. destruct (side_eqb m sd); reflexivity. Qed.

Lemma answers_to_none (sch : list (side * fetch_outcome)) :
  answers_to First sch = [] -> answers_to Second sch = [] -> sch = [].
Proof.
  destruct sch as [|[[|] o] sch]; [reflexivity| |]; rewrite !answers_to_cons; simpl;
    discriminate.
Qed.

Lemma last_side_only (sd : side) (sch : list (side * fetch_outcome)) :
  answers_to (other sd) sch = [] -> sch <> [] -> last_side sch = Some sd.
Proof.
  induction sch as [|[m o] sch IH]; intros H N; [congruence|].
  rewrite answers_to_cons in H.
  destruct (side_eqb m (other sd)) eqn:E; [discriminate|].
  simpl. destruct sch as [|m' sch'].
  - destruct m, sd; simpl in E; congruence.
  - apply IH; [exact H | discriminate].
Qed.

Lemma last_side_cons (m : side * fetch_outcome) (sch : list (side * fetch_outcome)) :
  sch <> [] -> last_side (m :: sch) = last_side sch.
Proof. destruct m as [sd o]. destruct sch; [congruence | reflexivity]. Qed.

Lemma play2_cons (s : State) (pos : side -> option nat) (sd : side)
    (o : fetch_outcome) (sch : list (side * fetch_outcome)) :
  play2 s pos ((sd, o) :: sch) =
    match pos sd with
    | None => s
    | Some k =>
        play2 (step s (Settle k (Fetched o)))
          (fun x => if side_eqb x sd
                    then parked_again s (step s (Settle k (Fetched o)))
                    else option_map (fun j => shifted s j (Settle k (Fetched o))) (pos x))
          sch
    end.
Proof. reflexivity. Qed.

(** One handler left: its answers come, and with the last its block is
    appended. *)
Lemma play2_one (sd : side) (sch : list (side * fetch_outcome)) :
  forall (a : State) (pos : side -> option nat) (k : nat) (Itot Fin : string),
    pos sd = Some k ->
    pending a k (answers_to sd sch) Itot Fin ->
    answers_to (other sd) sch = [] ->
    let s' := play2 a pos sch in
    transcript s' = transcript a ++ entry a Itot Fin /\
    translationLanguage s' = translationLanguage a /\
    lastTranslation s' = (if Js.nonempty Fin then VStr Fin else lastTranslation a) /\
    S (length (tasks s')) = length (tasks a).
Proof.
  induction sch as [|[m o] sch IH]; intros a pos k Itot Fin Hpos Hp Ho.
  - exfalso. apply (pending_nonempty _ _ _ _ _ Hp). reflexivity.
  - rewrite answers_to_cons in Hp, Ho.
    assert (Em : m = sd).
    { destruct m, sd; simpl in Ho; try reflexivity; discriminate. }
    subst m.
    assert (E1 : side_eqb sd sd = true) by (destruct sd; reflexivity).
    assert (E2 : side_eqb sd (other sd) = false) by (destruct sd; reflexivity).
    rewrite E1 in Hp. rewrite E2 in Ho.
    rewrite play2_cons, Hpos.
    destruct (pending_step a k o _ Itot Fin Hp) as [Hl Hstep].
    destruct (answers_to sd sch) as [|o' R'] eqn:ER.
    + destruct Hstep as [_ Hstep].
      assert (sch = []).
      { destruct sd; [apply answers_to_none | apply answers_to_none]; assumption. }
      subst sch. simpl play2.
      destruct (updateTranscript_string Fin Itot (set_tasks (remove_nth k (tasks a)) a))
        as (H1 & _ & _ & H4 & H5 & _ & H7 & _).
      rewrite <- Hstep in H1, H4, H5, H7.
      split; [exact H1|]. split; [exact H5|]. split; [exact H7|].
      rewrite H4. simpl. destruct Hp as (text & rest & F & I & Hk & _).
      apply (length_remove_nth _ _ _ Hk).
    + destruct Hstep as (k' & Hpark & Hp' & Ht & Hlt & Hlen & _).
      destruct (IH (step a (Settle k (Fetched o)))
                  (fun x => if side_eqb x sd
                            then parked_again a (step a (Settle k (Fetched o)))
                            else option_map
                                   (fun j => shifted a j (Settle k (Fetched o))) (pos x))
                  k' Itot Fin) as (H1 & H2 & H3 & H4).
      * rewrite E1. exact Hpark.
      * exact Hp'.
      * exact Ho.
      * split; [rewrite H1, Ht; f_equal; apply entry_same_language; exact Hl|].
        split; [rewrite H2; exact Hl|].
        split; [rewrite H3, Hlt; reflexivity|].
        rewrite H4. exact Hlen.
Qed.

Lemma other_other (sd : side) : other (other sd) = sd.
Proof. destruct sd; reflexivity. Qed.

Lemma side_eqb_refl (sd : side) : side_eqb sd sd = true.
Proof. destruct sd; reflexivity. Qed.

Lemma side_eqb_other (sd : side) : side_eqb sd (other sd) = false.
Proof. destruct sd; reflexivity. Qed.

Lemma side_eqb_other_l (sd : side) : side_eqb (other sd) sd = false.
Proof. destruct sd; reflexivity. Qed.

Lemma shifted_settle (a : State) (k j : nat) (o : fetch_outcome)
    (R : list fetch_outcome) (Itot Fin : string) :
  pending a k R Itot Fin ->
  shifted a j (Settle k (Fetched o)) = if Nat.ltb k j then pred j else j.
Proof.
  intros (text & rest & F & I & Hk & _). unfold shifted. rewrite Hk. reflexivity.
Qed.

(** Two handlers suspended: their answers come in any order, and each
    appends its block with its last answer. *)
Lemma play2_two (sch : list (side * fetch_outcome)) :
  forall (a : State) (pos : side -> option nat) (sd : side) (k k' : nat)
         (Is Fs Io Fo : string),
    pos sd = Some k ->
    pos (other sd) = Some k' ->
    k <> k' ->
    pending a k (answers_to sd sch) Is Fs ->
    pending a k' (answers_to (other sd) sch) Io Fo ->
    let s' := play2 a pos sch in
    (last_side sch = Some (other sd) ->
     transcript s' = transcript a ++ entry a Is Fs ++ entry a Io Fo /\
     lastTranslation s' =
       (if Js.nonempty Fo then VStr Fo
        else if Js.nonempty Fs then VStr Fs else lastTranslation a)) /\
    (last_side sch = Some sd ->
     transcript s' = transcript a ++ entry a Io Fo ++ entry a Is Fs /\
     lastTranslation s' =
       (if Js.nonempty Fs then VStr Fs
        else if Js.nonempty Fo then VStr Fo else lastTranslation a)) /\
    translationLanguage s' = translationLanguage a /\
    S (S (length (tasks s'))) = length (tasks a).
Proof.
  induction sch as [|[m o] sch IH]; intros a pos sd k k' Is Fs Io Fo Hk Hk' Hne Hp Hp'.
  - exfalso. apply (pending_nonempty _ _ _ _ _ Hp). reflexivity.
  - assert (Main : forall (sd : side) (k k' : nat) (Is Fs Io Fo : string),
              m = sd ->
              pos sd = Some k -> pos (other sd) = Some k' -> k <> k' ->
              pending a k (answers_to sd ((m, o) :: sch)) Is Fs ->
              pending a k' (answers_to (other sd) ((m, o) :: sch)) Io Fo ->
              let s' := play2 a pos ((m, o) :: sch) in
              (last_side ((m, o) :: sch) = Some (other sd) ->
               transcript s' = transcript a ++ entry a Is Fs ++ entry a Io Fo /\
               lastTranslation s' =
                 (if Js.nonempty Fo then VStr Fo
                  else if Js.nonempty Fs then VStr Fs else lastTranslation a)) /\
              (last_side ((m, o) :: sch) = Some sd ->
               transcript s' = transcript a ++ entry a Io Fo ++ entry a Is Fs /\
               lastTranslation s' =
                 (if Js.nonempty Fs then VStr Fs
                  else if Js.nonempty Fo then VStr Fo else lastTranslation a)) /\
              translationLanguage s' = translationLanguage a /\
              S (S (length (tasks s'))) = length (tasks a)).
    { clear sd k k' Is Fs Io Fo Hk Hk' Hne Hp Hp'.
      intros sd k k' Is Fs Io Fo -> Hk Hk' Hne Hp Hp'.
      rewrite answers_to_cons in Hp, Hp'.
      rewrite side_eqb_refl in Hp. rewrite side_eqb_other in Hp'.
      rewrite play2_cons, Hk.
      set (e := Settle k (Fetched o)) in *.
      set (s1 := step a e) in *.
      set (pos' := fun x : side =>
                     if side_eqb x sd then parked_again a s1
                     else option_map (fun j => shifted a j e) (pos x)).
      assert (Hsh : shifted a k' e = if Nat.ltb k k' then pred k' else k').
      { apply (shifted_settle a k k' o _ _ _ Hp). }
      assert (Hstay : pending s1 (shifted a k' e) (answers_to (other sd) sch) Io Fo).
      { apply pending_stays; [exact Hp'|]. intros r H. injection H as H _.
        congruence. }
      assert (Hpos' : pos' (other sd) = Some (shifted a k' e)).
      { unfold pos'. rewrite side_eqb_other_l, Hk'. reflexivity. }
      pose proof (pending_index _ _ _ _ _ Hp) as Hlk.
      pose proof (pending_index _ _ _ _ _ Hp') as Hlk'.
      destruct (pending_step a k o _ Is Fs Hp) as [Hl Hstep]. fold e s1 in Hl, Hstep.
      destruct (answers_to sd sch) as [|o' R'] eqn:ER.
      - destruct Hstep as [_ Hstep].
        destruct (updateTranscript_string Fs Is (set_tasks (remove_nth k (tasks a)) a))
          as (H1 & _ & _ & H4 & _ & _ & H7 & _).
        rewrite <- Hstep in H1, H4, H7. simpl in H1, H4, H7.
        assert (Hone : answers_to (other (other sd)) sch = []).
        { rewrite other_other. exact ER. }
        destruct (play2_one (other sd) sch s1 pos' (shifted a k' e) Io Fo
                    Hpos' Hstay Hone) as (G1 & G2 & G3 & G4).
        assert (Hlast : last_side ((sd, o) :: sch) = Some (other sd)).
        { assert (N : sch <> []).
          { intros ->. apply (pending_nonempty _ _ _ _ _ Hp'). reflexivity. }
          rewrite (last_side_cons _ _ N). apply last_side_only; assumption. }
        split; [|split; [|split]].
        + intros _. split.
          * rewrite G1, H1.
            rewrite (entry_same_language s1 a _ _ Hl).
            unfold entry at 1. simpl translationLanguage. fold (entry a Is Fs).
            apply append_assoc.
          * rewrite G3, H7. reflexivity.
        + intros H. rewrite Hlast in H. injection H as H.
          destruct sd; discriminate H.
        + rewrite G2. exact Hl.
        + rewrite G4, H4. destruct Hp as (text & rest & F & I & Hkk & _).
          f_equal. apply (length_remove_nth _ _ _ Hkk).
      - destruct Hstep as (k1 & Hpark & Hp1 & Ht & Hlt & Hlen & Hk1).
        assert (Hrem : S (length (remove_nth k (tasks a))) = length (tasks a)).
        { destruct Hp as (text & rest & F & I & Hkk & _).
          apply (length_remove_nth _ _ _ Hkk). }
        assert (Hne' : k1 <> shifted a k' e).
        { rewrite Hsh, Hk1. destruct (Nat.ltb_spec k k'); lia. }
        assert (Hpos1 : pos' sd = Some k1).
        { unfold pos'. rewrite side_eqb_refl. exact Hpark. }
        rewrite <- ER in Hp1.
        destruct (IH s1 pos' sd k1 (shifted a k' e) Is Fs Io Fo
                    Hpos1 Hpos' Hne' Hp1 Hstay) as (G1 & G2 & G3 & G4).
        assert (N : sch <> []).
        { intros ->. discriminate ER. }
        rewrite (last_side_cons _ _ N).
        rewrite !(entry_same_language s1 a _ _ Hl) in G1, G2.
        rewrite Ht, Hlt in G1, G2.
        split; [exact G1|]. split; [exact G2|].
        split; [rewrite G3; exact Hl | rewrite G4; exact Hlen]. }
    destruct (side_eqb m sd) eqn:E.
    + apply (Main sd k k' Is Fs Io Fo); try assumption.
      destruct m, sd; simpl in E; congruence.
    + assert (Em : m = other sd)
        by (destruct m, sd; simpl in E; try reflexivity; discriminate E).
      assert (Hk2 : pos (other (other sd)) = Some k) by (rewrite other_other; exact Hk).
      assert (Hp2 : pending a k (answers_to (other (other sd)) ((m, o) :: sch)) Is Fs)
        by (rewrite other_other; exact Hp).
      assert (Hne2 : k' <> k) by congruence.
      destruct (Main (other sd) k' k Io Fo Is Fs Em Hk' Hk2 Hne2 Hp' Hp2)
        as (G1 & G2 & G3 & G4).
      rewrite other_other in G1.
      split; [exact G2|]. split; [exact G1|]. split; [exact G3 | exact G4].
Qed.

Lemma last_side_none (sch : list (side * fetch_outcome)) :
  last_side sch = None -> sch = [].
Proof.
  induction sch as [|[m o] sch IH]; [reflexivity|]. simpl.
  destruct sch; [discriminate|]. intros H. specialize (IH H). discriminate IH.
Qed.

(** A suspended result handler, alone after the handlers suspended before
    it, through answers that are not its last. *)
Lemma run_pending (pre : list fetch_outcome) :
  forall (a : State) (n : nat) (R : list fetch_outcome) (Itot Fin : string),
    pending a n (pre ++ R)%list Itot Fin ->
    R <> [] ->
    length (tasks a) = S n ->
    let a' := run a (map (fun o => Settle n (Fetched o)) pre) in
    pending a' n R Itot Fin /\
    length (tasks a') = S n /\
    transcript a' = transcript a /\
    translationLanguage a' = translationLanguage a /\
    lastTranslation a' = lastTranslation a.
Proof.
  induction pre as [|o pre IH]; intros a n R Itot Fin Hp HR Hlen.
  - simpl. repeat split; assumption.
  - simpl app in Hp. simpl map. unfold run. simpl fold_left.
    fold (run (step a (Settle n (Fetched o)))
              (map (fun o0 => Settle n (Fetched o0)) pre)).
    destruct (pending_step a n o _ Itot Fin Hp) as [Hl Hstep].
    destruct (pre ++ R)%list as [|o' R'] eqn:E.
    { apply app_eq_nil in E. destruct E as [_ E]. congruence. }
    destruct Hstep as (k' & _ & Hp' & Ht & Hlt & Hlen' & Hk').
    assert (Hn : k' = n).
    { destruct Hp as (text & rest & F & I & Hk & _).
      pose proof (length_remove_nth _ _ _ Hk). lia. }
    rewrite Hn in Hp'. rewrite <- E in Hp'.
    destruct (IH (step a (Settle n (Fetched o))) n R Itot Fin Hp' HR)
      as (G1 & G2 & G3 & G4 & G5); [lia|].
    split; [exact G1|]. split; [exact G2|].
    split; [rewrite G3; exact Ht|]. split; [rewrite G4; exact Hl|].
    rewrite G5. exact Hlt.
Qed.

(** A result event with an entry to await leaves its handler pending. *)
Lemma result_delivery_pending (s : State) (ev : RecognitionEvent)
    (os : list fetch_outcome) (F : string) :
  let frs := skipn (resultIndex ev) (results ev) in
  let s0 := step s (Result ev) in
  isSupported s = true ->
  awaited frs <> [] ->
  length os = length (awaited frs) ->
  final_text frs os = Normal F ->
  pending s0 (length (tasks s)) os (interim_text frs) F /\
  length (tasks s0) = S (length (tasks s)) /\
  transcript s0 = transcript s /\
  translationLanguage s0 = translationLanguage s /\
  lastTranslation s0 = lastTranslation s.
Proof.
  intros frs s0 Hs Hne Hlen Hfin.
  destruct (awaited frs) as [|f aw] eqn:Ea; [congruence|].
  destruct (result_delivery_waiting s ev f aw Hs Ea)
    as (rest & pre & ipre & Haw & Hi & Hf & Hstep).
  unfold s0. rewrite Hstep. simpl.
  split; [|split; [rewrite length_app; simpl; lia | repeat split]].
  exists (frag_transcript f), rest, pre, ipre.
  split; [simpl; apply nth_error_last|].
  split; [rewrite Hlen, Haw; reflexivity|].
  split; [rewrite <- Hf; exact Hfin|].
  symmetry. exact Hi.
Qed.

(** Two result events, the second delivered after the first has had the
    answers [pre], then the answers [sch] in any order: the blocks of the
    two events are appended in the order in which their handlers end, and
    the last translation is that of the handler that ends last. *)
Lemma two_events (s : State) (e1 e2 : RecognitionEvent)
    (pre : list fetch_outcome) (sch : list (side * fetch_outcome))
    (F1 F2 : string) :
  let frs1 := skipn (resultIndex e1) (results e1) in
  let frs2 := skipn (resultIndex e2) (results e2) in
  isSupported s = true ->
  length (pre ++ answers_to First sch)%list = length (awaited frs1) ->
  length (answers_to Second sch) = length (awaited frs2) ->
  final_text frs1 (pre ++ answers_to First sch)%list = Normal F1 ->
  final_text frs2 (answers_to Second sch) = Normal F2 ->
  let s1 := uninterrupted s e1 pre in
  let k1 := if Nat.ltb (length pre) (length (awaited frs1))
            then Some (length (tasks s)) else None in
  let s2 := step s1 (Result e2) in
  let k2 := match awaited frs2 with
            | [] => None
            | _ :: _ => Some (length (tasks s1))
            end in
  let s' := play2 s2 (positions k1 k2) sch in
  let b1 := entry s (interim_text frs1) F1 in
  let b2 := entry s (interim_text frs2) F2 in
  (if first_ends_first k1 k2 sch
   then transcript s' = transcript s ++ b1 ++ b2 /\
        lastTranslation s' =
          (if Js.nonempty F2 then VStr F2
           else if Js.nonempty F1 then VStr F1 else lastTranslation s)
   else transcript s' = transcript s ++ b2 ++ b1 /\
        lastTranslation s' =
          (if Js.nonempty F1 then VStr F1
           else if Js.nonempty F2 then VStr F2 else lastTranslation s)) /\
  length (tasks s') = length (tasks s).
Proof.
  intros frs1 frs2 Hs Hlen1 Hlen2 Hfin1 Hfin2 s1 k1 s2 k2 s' b1 b2.
  rewrite length_app in Hlen1.
  assert (S1 : isSupported s1 = true).
  { unfold s1, uninterrupted. rewrite isSupported_run, isSupported_step. exact Hs. }
  destruct (Nat.ltb_spec (length pre) (length (awaited frs1))) as [Hlt | Hge].
  - (* the first handler is suspended when the second event arrives *)
    assert (HR : answers_to First sch <> []).
    { intros E. rewrite E in Hlen1. simpl in Hlen1. lia. }
    assert (Hne1 : awaited frs1 <> []).
    { intros E. rewrite E in Hlt. simpl in Hlt. lia. }
    rewrite <- length_app in Hlen1.
    destruct (result_delivery_pending s e1 _ F1 Hs Hne1 Hlen1 Hfin1)
      as (P0 & L0 & T0 & G0 & Q0).
    destruct (run_pending pre (step s (Result e1)) (length (tasks s))
                (answers_to First sch) (interim_text frs1) F1 P0 HR L0)
      as (P1 & L1 & T1 & G1 & Q1).
    fold (uninterrupted s e1 pre) in P1, L1, T1, G1, Q1. fold s1 in P1, L1, T1, G1, Q1.
    rewrite T0 in T1. rewrite G0 in G1. rewrite Q0 in Q1.
    assert (P2 : pending s2 (length (tasks s)) (answers_to First sch)
                   (interim_text frs1) F1).
    { apply (pending_stays s1 (length (tasks s)) (Result e2) _ _ _ P1).
      intros r H. discriminate H. }
    destruct (awaited frs2) as [|f2 aw2] eqn:Ea2.
    + (* the second event has nothing to await *)
      simpl in Hlen2. apply length_zero_iff_nil in Hlen2.
      destruct (result_delivery_finished s1 e2 S1 Ea2) as (F & HF & Hstep).
      fold frs2 in HF. rewrite HF in Hfin2. injection Hfin2 as ->.
      fold s2 frs2 in Hstep.
      destruct (updateTranscript_string F2 (interim_text frs2) s1)
        as (H1 & _ & _ & H4 & H5 & _ & H7 & _).
      rewrite <- Hstep in H1, H4, H5, H7.
      destruct (play2_one First sch s2 (positions k1 k2) (length (tasks s))
                  (interim_text frs1) F1 eq_refl P2 Hlen2) as (A1 & A2 & A3 & A4).
      fold s' in A1, A2, A3, A4. simpl first_ends_first.
      split; [split|].
      * rewrite A1, H1, T1.
        rewrite (entry_same_language s2 s), (entry_same_language s1 s);
          [apply append_assoc | exact G1 | congruence].
      * rewrite A3, H7, Q1. reflexivity.
      * rewrite H4, L1 in A4. injection A4 as A4. exact A4.
    + (* both handlers are suspended *)
      assert (Hne2 : awaited (skipn (resultIndex e2) (results e2)) <> []).
      { fold frs2. rewrite Ea2. discriminate. }
      fold frs2 in Hne2.
      destruct (result_delivery_pending s1 e2 (answers_to Second sch) F2 S1)
        as (P3 & L3 & T3 & G3 & Q3).
      { exact Hne2. } { fold frs2. rewrite Ea2. exact Hlen2. } { exact Hfin2. }
      fold s2 frs2 in P3, L3, T3, G3, Q3.
      assert (Hne : length (tasks s) <> length (tasks s1)) by lia.
      destruct (play2_two sch s2 (positions k1 k2) First (length (tasks s))
                  (length (tasks s1)) (interim_text frs1) F1 (interim_text frs2) F2
                  eq_refl eq_refl Hne P2 P3) as (A1 & A2 & A3 & A4).
      fold s' in A1, A2, A3, A4.
      assert (E1 : entry s2 (interim_text frs1) F1 = b1).
      { apply entry_same_language. congruence. }
      assert (E2 : entry s2 (interim_text frs2) F2 = b2).
      { apply entry_same_language. congruence. }
      rewrite E1, E2, T3, T1, Q3, Q1 in A1, A2.
      split; [|lia].
      unfold first_ends_first, k1, k2.
      destruct (last_side sch) as [[|]|] eqn:El.
      * apply A2. reflexivity.
      * apply A1. reflexivity.
      * apply last_side_none in El. subst sch. exfalso. apply HR. reflexivity.
  - (* the first handler has ended when the second event arrives *)
    assert (Hpre : length pre = length (awaited frs1)) by lia.
    assert (HR : answers_to First sch = []).
    { apply length_zero_iff_nil. lia. }
    rewrite HR, app_nil_r in Hfin1.
    pose proof (result_uninterrupted s e1 pre F1 Hs Hpre Hfin1) as Hun.
    fold s1 frs1 in Hun.
    destruct (updateTranscript_string F1 (interim_text frs1)
                (set_requests
                   (requests s ++
                      map (fun f => request_for s (frag_transcript f)) (awaited frs1))%list
                   s))
      as (H1 & _ & _ & H4 & H5 & _ & H7 & _).
    rewrite <- Hun in H1, H4, H5, H7. simpl in H1, H4, H5, H7.
    fold b1 in H1.
    destruct (awaited frs2) as [|f2 aw2] eqn:Ea2.
    + simpl in Hlen2. apply length_zero_iff_nil in Hlen2.
      assert (sch = []) by (apply answers_to_none; assumption). subst sch.
      destruct (result_delivery_finished s1 e2 S1 Ea2) as (F & HF & Hstep).
      fold frs2 in HF. rewrite HF in Hfin2. injection Hfin2 as ->.
      fold s2 frs2 in Hstep.
      destruct (updateTranscript_string F2 (interim_text frs2) s1)
        as (J1 & _ & _ & J4 & _ & _ & J7 & _).
      rewrite <- Hstep in J1, J4, J7.
      unfold s'. simpl play2. simpl first_ends_first.
      split; [split|].
      * rewrite J1, H1. rewrite (entry_same_language s1 s _ _ H5).
        apply append_assoc.
      * rewrite J7, H7. reflexivity.
      * rewrite J4, H4. reflexivity.
    + assert (Hne2 : awaited (skipn (resultIndex e2) (results e2)) <> []).
      { fold frs2. rewrite Ea2. discriminate. }
      destruct (result_delivery_pending s1 e2 (answers_to Second sch) F2 S1)
        as (P3 & L3 & T3 & G3 & Q3).
      { exact Hne2. } { fold frs2. rewrite Ea2. exact Hlen2. } { exact Hfin2. }
      fold s2 frs2 in P3, L3, T3, G3, Q3.
      destruct (play2_one Second sch s2 (positions k1 k2) (length (tasks s1))
                  (interim_text frs2) F2 eq_refl P3 HR) as (A1 & A2 & A3 & A4).
      fold s' in A1, A2, A3, A4. simpl first_ends_first.
      split; [split|].
      * rewrite A1, T3, H1.
        rewrite (entry_same_language s2 s); [apply append_assoc | congruence].
      * rewrite A3, Q3, H7. reflexivity.
      * rewrite L3, H4 in A4. injection A4 as A4. exact A4.
Qed.

(** C9, as the code has it.  Of two result events, the second delivered
    while the first is suspended or after it has ended, with the answers to
    their requests coming in any order and each translation converting to
    text: once every request has settled, the transcript holds what it held
    and, after it, the block of each event (none for an event whose
    translations, concatenated, are empty), with neither lost, in the order
    in which the two handlers ended, and no handler is left suspended.  The
    first event's block stands first when its handler has ended before the
    second event arrives, or when the last answer of all goes to the second
    event; the second event's block stands first when the last answer of all
    goes to the first event.  The final results of one event share one
    block. *)
Theorem two_final_results (s : State) :
  isSupported s = true ->
  (forall (e1 e2 : RecognitionEvent) (pre : list fetch_outcome)
          (sch : list (side * fetch_outcome)) (F1 F2 : string),
     let frs1 := skipn (resultIndex e1) (results e1) in
     let frs2 := skipn (resultIndex e2) (results e2) in
     length (pre ++ answers_to First sch)%list = length (awaited frs1) ->
     length (answers_to Second sch) = length (awaited frs2) ->
     final_text frs1 (pre ++ answers_to First sch)%list = Normal F1 ->
     final_text frs2 (answers_to Second sch) = Normal F2 ->
     let s1 := uninterrupted s e1 pre in
     let k1 := if Nat.ltb (length pre) (length (awaited frs1))
               then Some (length (tasks s)) else None in
     let s2 := step s1 (Result e2) in
     let k2 := match awaited frs2 with
               | [] => None
               | _ :: _ => Some (length (tasks s1))
               end in
     let s' := play2 s2 (positions k1 k2) sch in
     let b1 := entry s (interim_text frs1) F1 in
     let b2 := entry s (interim_text frs2) F2 in
     transcript s' =
       transcript s ++
         (if first_ends_first k1 k2 sch then b1 ++ b2 else b2 ++ b1) /\
     length (tasks s') = length (tasks s)) /\
  (forall (ev : RecognitionEvent) (os : list fetch_outcome) (F : string),
     let frs := skipn (resultIndex ev) (results ev) in
     length os = length (awaited frs) ->
     final_text frs os = Normal F ->
     transcript (uninterrupted s ev os) =
       transcript s ++ entry s (interim_text frs) F).
Proof.
  intros Hs. split.
  - intros e1 e2 pre sch F1 F2 frs1 frs2 Hlen1 Hlen2 Hfin1 Hfin2 s1 k1 s2 k2 s' b1 b2.
    destruct (two_events s e1 e2 pre sch F1 F2 Hs Hlen1 Hlen2 Hfin1 Hfin2) as [H L].
    fold frs1 frs2 s1 k1 s2 k2 s' b1 b2 in H, L.
    split; [|exact L].
    destruct (first_ends_first k1 k2 sch); destruct H as [H _]; exact H.
  - intros ev os F frs Hlen Hfin.
    rewrite (result_uninterrupted s ev os F Hs Hlen Hfin).
    destruct (updateTranscript_string F (interim_text frs)
                (set_requests
                   (requests s ++
                      map (fun f => request_for s (frag_transcript f)) (awaited frs))%list
                   s))
      as (H1 & _).
    exact H1.
Qed.

Lemma two_final_results_witness :
  let e1 := mkEvent 0 [mkFragment "ek" true] in
  let e2 := mkEvent 1 [mkFragment "ek" true; mkFragment "do" true] in
  let o1 := Parsed (translated "one") in
  let o2 := Parsed (translated "two") in
  let s2 := run example_ready [Result e1; Result e2] in
  transcript (play2 s2 (positions (Some 0%nat) (Some 1%nat)) [(First, o1); (Second, o2)])
    = block "" "English" "one" ++ block "" "English" "two" /\
  transcript (play2 s2 (positions (Some 0%nat) (Some 1%nat)) [(Second, o2); (First, o1)])
    = block "" "English" "two" ++ block "" "English" "one".
Proof.
  intros e1 e2 o1 o2 s2.
  destruct (two_final_results example_ready eq_refl) as [H _].
  split.
  - destruct (H e1 e2 [] [(First, o1); (Second, o2)] "one" "two"
                eq_refl eq_refl eq_refl eq_refl) as [E _].
    exact E.
  - destruct (H e1 e2 [] [(Second, o2); (First, o1)] "one" "two"
                eq_refl eq_refl eq_refl eq_refl) as [E _].
    exact E.
Defined.

(** C9 as stated fails.  With two result events delivered in order, the
    second request settling first puts the second block first.  A
    translation that has no text ends its handler, and the block of its
    event is lost; an empty translation gives no block.  Two final results
    of one event give one block. *)
Lemma second_translation_first :
  let e1 := mkEvent 0 [mkFragment "ek" true] in
  let e2 := mkEvent 1 [mkFragment "ek" true; mkFragment "do" true] in
  let o1 := Parsed (translated "one") in
  let o2 := Parsed (translated "two") in
  let s' := run example_ready
              [Result e1; Result e2; Settle 1%nat (Fetched o2); Settle 0%nat (Fetched o1)] in
  let lost := run example_ready
                [Result e1; Result e2;
                 Settle 0%nat (Fetched (Parsed (answering textless)));
                 Settle 0%nat (Fetched o2)] in
  let empty := run example_ready
                 [Result e1; Result e2;
                  Settle 0%nat (Fetched (Parsed (translated "")));
                  Settle 0%nat (Fetched o2)] in
  let both := mkEvent 0 [mkFragment "ek" true; mkFragment "do" true] in
  (transcript s' = block "" "English" "two" ++ block "" "English" "one" /\
   transcript s' <> block "" "English" "one" ++ block "" "English" "two" /\
   tasks s' = []) /\
  (transcript lost = block "" "English" "two" /\ tasks lost = []) /\
  (transcript empty = block "" "English" "two" /\ tasks empty = []) /\
  transcript (run example_ready
                [Result both; Settle 0%nat (Fetched o1); Settle 0%nat (Fetched o2)])
    = block "" "English" "onetwo".
Proof.
  vm_compute. split; [split; [reflexivity | split; [discriminate | reflexivity]]|].
  split; [split; reflexivity|]. split; [split; reflexivity | reflexivity].
Qed.

(** * Further properties of the handlers *)

(** ** Handlers that leave an observation alone *)

Lemma frame_ret {A B : Type} (f : State -> B) (a : A) : frame f (ret a).
Proof. intros s. reflexivity. Qed.

Lemma frame_throw {A B : Type} (f : State -> B) : frame f (@throw A).
Proof. intros s. reflexivity. Qed.

Lemma frame_gets {A B : Type} (f : State -> B) (g : State -> A) : frame f (gets g).
Proof. intros s. reflexivity. Qed.

Lemma frame_lift {A B : Type} (f : State -> B) (c : completion A) : frame f (lift c).
Proof. intros s. reflexivity. Qed.

Lemma frame_modify {B : Type} (f : State -> B) (g : State -> State) :
  (forall s, f (g s) = f s) -> frame f (modify g).
Proof. intros H s. apply H. Qed.

Lemma frame_bind {A B C : Type} (f : State -> C) (m : M A) (k : A -> M B) :
  frame f m -> (forall a, frame f (k a)) -> frame f (bind m k).
Proof.
  intros Hm Hk s. pose proof (Hm s) as E.
  unfold exec, bind in *. destruct (m s) as [[a|] s1]; simpl in E.
  - rewrite <- E. apply (Hk a s1).
  - exact E.
Qed.

Lemma frame_try_catch {A C : Type} (f : State -> C) (body handler : M A) :
  frame f body -> frame f handler -> frame f (try_catch body handler).
Proof.
  intros Hb Hh s. pose proof (Hb s) as E.
  unfold exec, try_catch in *. destruct (body s) as [[a|] s1]; simpl in E.
  - exact E.
  - rewrite <- E. apply (Hh s1).
Qed.

Lemma frame_if {A C : Type} (f : State -> C) (b : bool) (m1 m2 : M A) :
  frame f m1 -> frame f m2 -> frame f (if b then m1 else m2).
Proof. destruct b; auto. Qed.

Create HintDb frame.
#[local] Hint Resolve frame_ret frame_throw frame_gets frame_lift frame_bind
  frame_try_catch frame_if : frame.
#[local] Hint Extern 1 (frame _ (modify _)) =>
  (apply frame_modify; intros; first [reflexivity | solve [auto]]) : frame.
#[local] Hint Extern 2 (frame _ (call ?r)) => (destruct r; simpl) : frame.
#[local] Hint Extern 2 (frame _ (suspend _)) => unfold suspend : frame.
#[local] Hint Extern 2 (frame _ (speak _)) => unfold speak : frame.
#[local] Hint Extern 2 (frame _ audio_error) => unfold audio_error : frame.

Ltac frame_auto := intros; auto 20 with frame.

(** The handlers that run after an [await] write the transcript, the last
    translation, the display, the speak button, the status text, and the
    host's lists of requests and suspended handlers: an observation that
    depends on none of these is left alone by result events and by every
    resumption. *)
Section AsyncFrame.
Context {B : Type} (f : State -> B).
Hypothesis f_requests : forall x s, f (set_requests x s) = f s.
Hypothesis f_tasks : forall x s, f (set_tasks x s) = f s.
Hypothesis f_lastTranslation : forall x s, f (set_lastTranslation x s) = f s.
Hypothesis f_transcript : forall x s, f (set_transcript x s) = f s.
Hypothesis f_speakDisabled : forall x s, f (set_speakDisabled x s) = f s.
Hypothesis f_transcriptText : forall x s, f (set_transcriptText x s) = f s.
Hypothesis f_statusText : forall x s, f (set_statusText x s) = f s.

Lemma frame_updateTranscript (v : value) (i : string) :
  frame f (updateTranscript v i).
Proof. unfold updateTranscript. frame_auto. Qed.

Lemma frame_translateToEnglish_send (text : string) :
  frame f (translateToEnglish_send text).
Proof. unfold translateToEnglish_send. frame_auto. Qed.

Lemma frame_onresult_from (frs : list fragment) :
  forall a i : string, frame f (onresult_from frs a i).
Proof.
  induction frs as [|r rest IH]; intros a i; simpl.
  - apply frame_updateTranscript.
  - pose proof (frame_translateToEnglish_send (frag_transcript r)).
    destruct (isFinal r); [|apply IH].
    apply frame_bind; [assumption|]. intros [|]; [frame_auto | apply IH].
Qed.

Lemma frame_resume (t : task) (r : reply) (m : M unit) :
  resume t r = Some m -> frame f m.
Proof.
  pose proof frame_onresult_from. pose proof frame_updateTranscript.
  pose proof frame_translateToEnglish_send.
  destruct t, r; simpl; intros E; inversion E; subst; clear E; frame_auto.
  apply frame_try_catch; [|frame_auto].
  apply frame_bind; [frame_auto|]. intros [file|]; frame_auto.
Qed.

Lemma frame_step_settle (s : State) (k : nat) (r : reply) :
  f (step s (Settle k r)) = f s.
Proof.
  unfold step. simpl listener.
  assert (F : frame f
    (bind (gets tasks) (fun pending =>
       match nth_error pending k with
       | None => ret tt
       | Some t =>
           match resume t r with
           | None => ret tt
           | Some continuation =>
               bind (modify (set_tasks (remove_nth k pending)))
                    (fun _ => continuation)
           end
       end))).
  { apply frame_bind; [frame_auto|]. intros pending.
    destruct (nth_error pending k) as [t|]; [|frame_auto].
    destruct (resume t r) as [m|] eqn:E; [|frame_auto].
    pose proof (frame_resume t r m E). frame_auto. }
  apply F.
Qed.

Lemma frame_step_result (s : State) (ev : RecognitionEvent) :
  f (step s (Result ev)) = f s.
Proof.
  unfold step. simpl listener.
  assert (F : frame f
    (bind (gets isSupported) (fun supported =>
       if supported then onresult ev else ret tt))).
  { pose proof frame_onresult_from. unfold onresult. frame_auto. }
  apply F.
Qed.

Lemma frame_step_process (s : State) : f (step s ClickProcess) = f s.
Proof.
  unfold step. simpl listener.
  assert (F : frame f
    (bind (gets processDisabled) (fun disabled =>
       if disabled then ret tt else processAudioFile))).
  { unfold processAudioFile.
    apply frame_bind; [frame_auto|]. intros d. apply frame_if; [frame_auto|].
    apply frame_bind; [frame_auto|]. intros [file|]; frame_auto. }
  apply F.
Qed.
End AsyncFrame.

Lemma run_invariant (P : State -> Prop) :
  (forall s e, P s -> P (step s e)) ->
  forall es s, P s -> P (run s es).
Proof.
  intros H. unfold run. induction es as [|e es IH]; intros s Hs; simpl.
  - exact Hs.
  - apply IH. apply H. exact Hs.
Qed.

(** ** The recording controls *)

(** Only the start and stop buttons, a recognizer error and a change of the
    spoken language touch the recording controls. *)
Lemma recording_controls_step (s : State) (e : event) :
  match e with
  | ClickStart _ | ClickStop _ | Error _ _ | ChangeLanguage _ => True
  | _ => recording_controls (step s e) = recording_controls s
  end.
Proof.
  destruct e; try exact I.
  - apply (frame_modify recording_controls). reflexivity.
  - assert (F : frame recording_controls (handleFileSelect file))
      by (unfold handleFileSelect; destruct file; frame_auto).
    apply F.
  - apply frame_step_process; reflexivity.
  - assert (F : frame recording_controls (listener ClickSpeak))
      by (simpl; unfold speakTranslation; frame_auto).
    apply F.
  - apply frame_step_result; reflexivity.
  - assert (F : frame recording_controls (listener NoMatch))
      by (simpl; unfold onnomatch; frame_auto).
    apply F.
  - apply frame_step_settle; reflexivity.
  - reflexivity.
Qed.

Lemma recording_consistent_controls (s s' : State) :
  recording_controls s' = recording_controls s ->
  recording_consistent s -> recording_consistent s'.
Proof.
  unfold recording_controls, recording_consistent. intros E H R.
  injection E as E1 E2 E3 E4 E5 E6 E7.
  rewrite E1, E3, E4, E5, E6, E7. apply H. congruence.
Qed.

Lemma recording_consistent_step (s : State) (e : event) :
  recording_consistent s -> recording_consistent (step s e).
Proof.
  intros H. pose proof (recording_controls_step s e) as F.
  destruct e;
    try (apply (recording_consistent_controls s); [exact F | exact H]);
    clear F; unfold recording_consistent, step in *; simpl listener.
  - unfold startRecording. handler_unfold.
    destruct (startDisabled s) eqn:D, (isSupported s) eqn:U, start; simpl;
      intros R; try (rewrite ?U, ?D; auto; fail).
    destruct (H R) as (_ & X & _). discriminate X.
  - unfold stopRecording. handler_unfold.
    destruct (stopDisabled s) eqn:D, (isSupported s) eqn:U, stop; simpl;
      intros R; try discriminate;
      destruct (H R) as (A1 & A2 & A3 & A4 & A5); repeat split; congruence.
  - handler_unfold. simpl. destruct (isSupported s) eqn:U; simpl; intros R.
    + rewrite U. destruct (H R) as (_ & D & P & Q & _). auto.
    + destruct (H R) as (U' & _). congruence.
  - unfold onerror, stopRecording. handler_unfold. simpl.
    destruct (isSupported s) eqn:U, stop; simpl; rewrite ?U; simpl;
      intros R; try discriminate;
      destruct (H R) as (A1 & A2 & A3 & A4 & A5); repeat split; congruence.
Qed.

(** X1: on every page reached from the constructor, while the recording
    flag is set the start button is disabled, the stop button is enabled,
    the status carries the [recording] style, and the recognizer's language
    is the one selected. *)
Theorem recording_controls_consistent (supported : bool) (page : State)
    (es : list event) :
  let s := run (constructor supported page) es in
  isRecording s = true ->
  isSupported s = true /\ startDisabled s = true /\ stopDisabled s = false /\
  statusRecording s = true /\ recognitionLang s = languageSelect s.
Proof.
  intros s. subst s.
  apply (run_invariant recording_consistent recording_consistent_step).
  intros R. destruct supported; discriminate R.
Qed.

Lemma recording_controls_consistent_witness :
  let s := run (constructor true example_page)
               [ClickStart Returns; ChangeLanguage "te-IN"; NoMatch] in
  isRecording s = true /\ startDisabled s = true /\ stopDisabled s = false /\
  recognitionLang s = "te-IN".
Proof.
  intros s.
  destruct (recording_controls_consistent true example_page
              [ClickStart Returns; ChangeLanguage "te-IN"; NoMatch] eq_refl)
    as (_ & D & P & _ & L).
  unfold s.
  split; [reflexivity|]. split; [exact D|]. split; [exact P|].
  rewrite L. reflexivity.
Defined.

Lemma frame_step {B : Type} (f : State -> B) (s : State) (e : event) :
  frame f (listener e) -> f (step s e) = f s.
Proof. intros F. apply F. Qed.

(** Closes [f (step s e) = f s] for an event whose listener writes nothing
    that [f] reads. *)
Ltac frame_event :=
  first
    [ apply frame_step_result; reflexivity
    | apply frame_step_settle; reflexivity
    | apply frame_step_process; reflexivity
    | apply frame_step; simpl listener;
      unfold onerror, startRecording, stopRecording, onnomatch,
        speakTranslation, handleFileSelect;
      try match goal with
          | |- frame _ (match ?file with Some _ => _ | None => _ end) =>
              destruct file
          end;
      frame_auto ].

(** ** A browser without speech recognition *)

Lemma switched_off_step (s : State) (e : event) :
  switched_off s -> switched_off (step s e).
Proof.
  unfold switched_off. intros (U & R & D & P & L).
  pose proof (recording_controls_step s e) as C.
  destruct e;
    try (unfold recording_controls in C;
         injection C as C1 C2 C3 C4 _ C6 _;
         rewrite C1, C2, C3, C4, C6; auto; fail);
    clear C; unfold step; simpl listener;
    unfold onerror, startRecording, stopRecording; handler_unfold; simpl;
    rewrite ?U, ?D, ?P; simpl; rewrite ?U; simpl; auto.
Qed.

(** X2: when the browser has no speech recognition, on every page reached
    from the constructor the recording flag is false, both buttons stay
    disabled and the recognizer's language is never set; clicks on start
    and stop and the recognizer's callbacks change nothing at all. *)
Theorem unsupported_page_inert (page : State) (es : list event) :
  let s := run (constructor false page) es in
  isSupported s = false /\ isRecording s = false /\
  startDisabled s = true /\ stopDisabled s = true /\ recognitionLang s = "" /\
  (forall r, step s (ClickStart r) = s) /\
  (forall r, step s (ClickStop r) = s) /\
  (forall ev, step s (Result ev) = s) /\
  step s NoMatch = s /\
  (forall error r, step s (Error error r) = s).
Proof.
  intros s.
  assert (H : switched_off s).
  { apply (run_invariant switched_off switched_off_step). repeat split. }
  destruct H as (U & R & D & P & L).
  repeat split; try assumption; intros;
    unfold step; simpl listener; handler_unfold; rewrite ?U, ?D, ?P; reflexivity.
Qed.

(** ** The stored upload *)

Lemma upload_controls_step (s : State) (e : event) :
  match e with
  | ChangeFile _ => True
  | _ => upload_controls (step s e) = upload_controls s
  end.
Proof. destruct e; try exact I; frame_event. Qed.

Lemma upload_consistent_controls (s s' : State) :
  upload_controls s' = upload_controls s ->
  upload_consistent s -> upload_consistent s'.
Proof.
  unfold upload_controls, upload_consistent. intros E H f.
  injection E as E1 E2. rewrite E1, E2. apply H.
Qed.

Lemma upload_consistent_step (s : State) (e : event) :
  upload_consistent s -> upload_consistent (step s e).
Proof.
  intros H. pose proof (upload_controls_step s e) as F.
  destruct e;
    try (apply (upload_consistent_controls s); [exact F | exact H]).
  clear F. unfold upload_consistent, step. simpl listener.
  unfold handleFileSelect. destruct file as [g|].
  - destruct (Js.startsWith (file_type g) "audio/") eqn:T; handler_unfold; simpl;
      intros f E; [|discriminate].
    injection E as <-. split; [exact T | reflexivity].
  - handler_unfold. simpl. intros f E. discriminate.
Qed.

(** X3: on every page reached from the constructor, a stored upload has a
    type that starts with [audio/], and while an upload is stored the
    process button is enabled. *)
Theorem upload_is_audio (supported : bool) (page : State) (es : list event)
    (f : File) :
  let s := run (constructor supported page) es in
  uploadedAudio s = Some f ->
  Js.startsWith (file_type f) "audio/" = true /\ processDisabled s = false.
Proof.
  intros s. subst s. revert f.
  apply (run_invariant upload_consistent upload_consistent_step).
  intros f E. destruct supported; discriminate E.
Qed.

Lemma upload_is_audio_witness :
  let s := run (constructor true example_page)
               [ChangeFile (Some (mkFile "notes.txt" "text/plain"));
                ChangeFile (Some (mkFile "song_te.mp3" "audio/mpeg"));
                ClickStart Returns] in
  uploadedAudio s = Some (mkFile "song_te.mp3" "audio/mpeg") /\
  processDisabled s = false.
Proof.
  intros s. split; [reflexivity|].
  apply (upload_is_audio true example_page
           [ChangeFile (Some (mkFile "notes.txt" "text/plain"));
            ChangeFile (Some (mkFile "song_te.mp3" "audio/mpeg"));
            ClickStart Returns]
           (mkFile "song_te.mp3" "audio/mpeg")).
  reflexivity.
Defined.

(** ** The label of the speak button *)

Lemma speak_controls_step (s : State) (e : event) :
  match e with
  | ChangeTranslationLanguage _ => True
  | _ => speak_controls (step s e) = speak_controls s
  end.
Proof. destruct e; try exact I; frame_event. Qed.

(** X4: on every page reached from the constructor, the speak button reads
    the fixed label followed by the text of the selected target language. *)
Theorem speak_label_follows_language (supported : bool) (page : State)
    (es : list event) :
  let s := run (constructor supported page) es in
  speakText s = speakLabel ++ sel_text (translationLanguage s).
Proof.
  intros s. subst s.
  apply (run_invariant
           (fun s => speakText s = speakLabel ++ sel_text (translationLanguage s))).
  - intros s e H. pose proof (speak_controls_step s e) as F.
    assert (G : forall s', speak_controls s' = speak_controls s ->
                speakText s' = speakLabel ++ sel_text (translationLanguage s')).
    { unfold speak_controls. intros s' E. injection E as E1 E2.
      rewrite E1, E2. exact H. }
    destruct e; try (apply G; exact F).
    reflexivity.
  - destruct supported; reflexivity.
Qed.

(** ** Handlers that keep an invariant *)

Lemma preserves_ret {A : Type} (P : State -> Prop) (a : A) : preserves P (ret a).
Proof. intros s H. exact H. Qed.

Lemma preserves_throw {A : Type} (P : State -> Prop) : preserves P (@throw A).
Proof. intros s H. exact H. Qed.

Lemma preserves_gets {A : Type} (P : State -> Prop) (g : State -> A) :
  preserves P (gets g).
Proof. intros s H. exact H. Qed.

Lemma preserves_lift {A : Type} (P : State -> Prop) (c : completion A) :
  preserves P (lift c).
Proof. intros s H. exact H. Qed.

Lemma preserves_modify (P : State -> Prop) (g : State -> State) :
  (forall s, P s -> P (g s)) -> preserves P (modify g).
Proof. intros H s Hs. apply H. exact Hs. Qed.

Lemma preserves_bind {A B : Type} (P : State -> Prop) (m : M A) (k : A -> M B) :
  preserves P m -> (forall a, preserves P (k a)) -> preserves P (bind m k).
Proof.
  intros Hm Hk s Hs. pose proof (Hm s Hs) as E.
  unfold exec, bind in *. destruct (m s) as [[a|] s1]; simpl in E.
  - apply (Hk a s1). exact E.
  - exact E.
Qed.

Lemma preserves_try_catch {A : Type} (P : State -> Prop) (body handler : M A) :
  preserves P body -> preserves P handler -> preserves P (try_catch body handler).
Proof.
  intros Hb Hh s Hs. pose proof (Hb s Hs) as E.
  unfold exec, try_catch in *. destruct (body s) as [[a|] s1]; simpl in E.
  - exact E.
  - apply (Hh s1). exact E.
Qed.

Lemma preserves_if {A : Type} (P : State -> Prop) (b : bool) (m1 m2 : M A) :
  preserves P m1 -> preserves P m2 -> preserves P (if b then m1 else m2).
Proof. destruct b; auto. Qed.

Create HintDb preserves.
#[local] Hint Resolve preserves_ret preserves_throw preserves_gets
  preserves_lift preserves_bind preserves_try_catch preserves_if : preserves.
#[local] Hint Extern 1 (preserves _ (modify _)) =>
  (apply preserves_modify; intros; solve [auto]) : preserves.
#[local] Hint Extern 2 (preserves _ (suspend _)) => unfold suspend : preserves.
#[local] Hint Extern 2 (preserves _ audio_error) => unfold audio_error : preserves.

Ltac preserves_auto := intros; auto 20 with preserves.

(** An invariant that updateTranscript keeps, and that does not depend on
    the status text or on the host's lists of requests and suspended
    handlers, is kept by result events, by the process button and by every
    resumption. *)
Section AsyncPreserves.
Context (P : State -> Prop).
Hypothesis P_requests : forall x s, P s -> P (set_requests x s).
Hypothesis P_tasks : forall x s, P s -> P (set_tasks x s).
Hypothesis P_statusText : forall x s, P s -> P (set_statusText x s).
Hypothesis P_update : forall v i, preserves P (updateTranscript v i).

Lemma preserves_translateToEnglish_send (text : string) :
  preserves P (translateToEnglish_send text).
Proof. unfold translateToEnglish_send. preserves_auto. Qed.

Lemma preserves_onresult_from (frs : list fragment) :
  forall a i : string, preserves P (onresult_from frs a i).
Proof.
  induction frs as [|r rest IH]; intros a i; simpl.
  - apply P_update.
  - pose proof (preserves_translateToEnglish_send (frag_transcript r)).
    destruct (isFinal r); [|apply IH].
    apply preserves_bind; [assumption|]. intros [|]; [preserves_auto | apply IH].
Qed.

Lemma preserves_resume (t : task) (r : reply) (m : M unit) :
  resume t r = Some m -> preserves P m.
Proof.
  pose proof preserves_onresult_from. pose proof P_update.
  pose proof preserves_translateToEnglish_send.
  destruct t, r; simpl; intros E; inversion E; subst; clear E;
    preserves_auto.
  apply preserves_try_catch; [|preserves_auto].
  apply preserves_bind; [preserves_auto|]. intros [file|]; preserves_auto.
Qed.

Lemma preserves_async (s : State) (e : event) :
  P s ->
  match e with
  | Result _ | Settle _ _ | ClickProcess => P (step s e)
  | _ => True
  end.
Proof.
  intros Hs. destruct e; try exact I; unfold step; simpl listener.
  - assert (F : preserves P
      (bind (gets processDisabled) (fun disabled =>
         if disabled then ret tt else processAudioFile))).
    { unfold processAudioFile.
      apply preserves_bind; [preserves_auto|]. intros d.
      apply preserves_if; [preserves_auto|].
      apply preserves_bind; [preserves_auto|]. intros [file|]; preserves_auto. }
    apply F. exact Hs.
  - assert (F : preserves P
      (bind (gets isSupported) (fun supported =>
         if supported then onresult ev else ret tt))).
    { pose proof preserves_onresult_from. unfold onresult. preserves_auto. }
    apply F. exact Hs.
  - assert (F : preserves P
      (bind (gets tasks) (fun pending =>
         match nth_error pending k with
         | None => ret tt
         | Some t =>
             match resume t r with
             | None => ret tt
             | Some continuation =>
                 bind (modify (set_tasks (remove_nth k pending)))
                      (fun _ => continuation)
             end
         end))).
    { apply preserves_bind; [preserves_auto|]. intros pending.
      destruct (nth_error pending k) as [t|]; [|preserves_auto].
      destruct (resume t r) as [m|] eqn:E; [|preserves_auto].
      pose proof (preserves_resume t r m E). preserves_auto. }
    apply F. exact Hs.
Qed.
End AsyncPreserves.

(** ** The transcript, the last translation and the utterances *)

Lemma append_nonempty (a b : string) : b <> "" -> a ++ b <> "".
Proof.
  intros H E. destruct a; simpl in E; [exact (H E) | discriminate E].
Qed.

Lemma transcript_controls_step (s : State) (e : event) :
  match e with
  | Result _ | Settle _ _ | ClickSpeak | Synthesizer _ => True
  | _ => transcript_controls (step s e) = transcript_controls s
  end.
Proof. destruct e; try exact I; frame_event. Qed.

Lemma transcript_consistent_controls (s s' : State) :
  transcript_controls s' = transcript_controls s ->
  transcript_consistent s -> transcript_consistent s'.
Proof.
  unfold transcript_controls, transcript_consistent. intros E H.
  injection E as E1 E2 E3 E4 E5 E6. rewrite E1, E2, E3, E4, E5. exact H.
Qed.

Lemma transcript_consistent_update (v : value) (i : string) :
  preserves transcript_consistent (updateTranscript v i).
Proof.
  intros s (H0 & H1 & H2 & H3 & H4 & H5).
  unfold transcript_consistent, updateTranscript. handler_unfold.
  destruct (truthy v) eqn:T; simpl.
  - destruct (ToString v) as [text|] eqn:Ev; simpl.
    + assert (N : transcript s ++
                    "Original: " ++ i ++ Js.nl ++ sel_text (translationLanguage s)
                    ++ " Translation: " ++ text ++ Js.nl ++ Js.nl <> "")
        by (apply append_nonempty; discriminate).
      split; [right; exact T|]. split; [intros _; split; [exact T | reflexivity]|].
      split; [intros _ _ _; exact N|]. split; [eexists; reflexivity|].
      split; [intros _; exact N | exact H5].
    + split; [right; exact T|]. split.
      * intros N. split; [exact T | apply (H1 N)].
      * split; [intros _ text E; rewrite Ev in E; discriminate E|].
        split; [exact H3|]. split; assumption.
  - split; [exact H0|]. split; [exact H1|]. split; [exact H2|].
    split; [eexists; reflexivity|]. split; assumption.
Qed.

(** A click on the speak button changes nothing, or hands over one
    utterance for a truthy last translation that has a text. *)
Lemma step_speak_cases (s : State) :
  step s ClickSpeak = s \/
  (truthy (lastTranslation s) = true /\
   exists (text : string) (u : Utterance),
     ToString (lastTranslation s) = Normal text /\
     utt_text u = text /\
     utt_rate u = 9 # 10 /\ utt_pitch u = 1%Q /\
     step s ClickSpeak = set_spoken (spoken s ++ [u]) s).
Proof.
  unfold step. simpl listener. unfold speakTranslation. handler_unfold.
  destruct (speakDisabled s); simpl; [left; reflexivity|].
  destruct (truthy (lastTranslation s)); simpl; [|left; reflexivity].
  destruct (speaking s); simpl; [left; reflexivity|].
  destruct (ToString (lastTranslation s)) as [text|]; simpl; [|left; reflexivity].
  right. split; [reflexivity|].
  exists text,
         (mkUtterance text
            (if String.eqb (sel_value (translationLanguage s)) "en"
             then "en-US" else sel_value (translationLanguage s))
            (9 # 10) 1).
  split; [reflexivity|]. split; [reflexivity|]. split; [reflexivity|].
  split; reflexivity.
Qed.

Lemma transcript_consistent_step (s : State) (e : event) :
  transcript_consistent s -> transcript_consistent (step s e).
Proof.
  intros H.
  pose proof (transcript_controls_step s e) as F.
  pose proof (preserves_async transcript_consistent
                (fun _ _ K => K) (fun _ _ K => K) (fun _ _ K => K)
                transcript_consistent_update s e H) as G.
  destruct e; try exact G;
    try (apply (transcript_consistent_controls s); [exact F | exact H]);
    clear F G.
  - (* the speak button *)
    destruct (step_speak_cases s) as [E | (T & text & u & Et & _ & R & Q & E)];
      rewrite E; [exact H|].
    destruct H as (H0 & H1 & H2 & H3 & H4 & H5).
    pose proof (H2 T text Et) as N.
    unfold transcript_consistent. simpl.
    split; [exact H0|]. split; [exact H1|]. split; [exact H2|].
    split; [exact H3|]. split; [intros _; exact N|].
    apply Forall_app. split; [exact H5|].
    constructor; [split; assumption | constructor].
  - (* the synthesizer's flag *)
    exact H.
Qed.

Lemma transcript_consistent_reachable (supported : bool) (page : State)
    (es : list event) :
  transcript_consistent (run (constructor supported page) es).
Proof.
  apply (run_invariant transcript_consistent transcript_consistent_step).
  unfold transcript_consistent.
  destruct supported; simpl;
    (split; [left; reflexivity|];
     split; [intros N; destruct (N eq_refl)|];
     split; [intros T; discriminate T|];
     split; [eexists; reflexivity|];
     split; [intros N; destruct (N eq_refl) | constructor]).
Qed.

(** X5: on every page reached from the constructor, once the transcript is
    not empty the last translation is truthy and the speak button is
    enabled.  A truthy last translation means that the transcript is not
    empty, unless the last translation has no text (its conversion throws,
    and updateTranscript ended before it appended).  While the transcript
    is empty the last translation is the empty string it started as, or
    such a value without text.  The displayed text always starts with the
    whole transcript. *)
Theorem last_translation_with_transcript (supported : bool) (page : State)
    (es : list event) :
  let s := run (constructor supported page) es in
  (transcript s <> "" ->
   truthy (lastTranslation s) = true /\ speakDisabled s = false) /\
  (truthy (lastTranslation s) = true ->
   transcript s <> "" \/ ToString (lastTranslation s) = Thrown) /\
  (transcript s = "" ->
   lastTranslation s = VStr "" \/
   (truthy (lastTranslation s) = true /\ ToString (lastTranslation s) = Thrown)) /\
  (exists x : string, transcriptText s = transcript s ++ x).
Proof.
  intros s.
  destruct (transcript_consistent_reachable supported page es)
    as (H0 & H1 & H2 & H3 & _ & _).
  fold s in H0, H1, H2, H3.
  split; [exact H1|]. split; [|split; [|exact H3]].
  - intros T. destruct (ToString (lastTranslation s)) as [text|] eqn:E.
    + left. apply (H2 T text eq_refl).
    + right. reflexivity.
  - intros E. destruct H0 as [L | T]; [left; exact L|]. right.
    split; [exact T|].
    destruct (ToString (lastTranslation s)) as [text|] eqn:Et; [|reflexivity].
    exfalso. apply (H2 T text eq_refl). exact E.
Qed.

(** X6: on every page reached from the constructor, no utterance was handed
    to the synthesizer while the transcript was still empty, and every
    utterance handed over has rate 0.9 and pitch 1. *)
Theorem utterances_after_first_block (supported : bool) (page : State)
    (es : list event) :
  let s := run (constructor supported page) es in
  (transcript s = "" -> spoken s = []) /\
  Forall (fun u => utt_rate u = 9 # 10 /\ utt_pitch u = 1%Q) (spoken s).
Proof.
  intros s.
  destruct (transcript_consistent_reachable supported page es)
    as (_ & _ & _ & _ & H4 & H5).
  fold s in H4, H5. split; [|exact H5].
  intros E. destruct (spoken s) as [|u l]; [reflexivity|].
  exfalso. apply H4; [discriminate | exact E].
Qed.

Lemma last_translation_with_transcript_witness :
  let s := uninterrupted example_ready (mkEvent 0 [mkFragment "namaste" true])
             [Parsed (translated "hello")] in
  truthy (lastTranslation s) = true /\ speakDisabled s = false.
Proof.
  intros s.
  destruct (last_translation_with_transcript true example_page
              [Result (mkEvent 0 [mkFragment "namaste" true]);
               Settle 0%nat (Fetched (Parsed (translated "hello")))])
    as (H1 & _).
  apply H1. discriminate.
Defined.

Lemma utterances_after_first_block_witness :
  spoken (run (constructor true example_page) [ClickSpeak; NoMatch; ClickSpeak]) = [] /\
  spoken (run (constructor true example_page)
            [ ChangeFile (Some (mkFile "talk_hi.wav" "audio/wav")); ClickProcess;
              Settle 0 Loaded; Settle 0 Decoded; Settle 0 TimerFires;
              Settle 0 (Fetched (Parsed (answering textless))); ClickSpeak ]) = [].
Proof.
  split.
  - apply (utterances_after_first_block true example_page
             [ClickSpeak; NoMatch; ClickSpeak]).
    reflexivity.
  - apply (utterances_after_first_block true example_page
             [ ChangeFile (Some (mkFile "talk_hi.wav" "audio/wav")); ClickProcess;
               Settle 0 Loaded; Settle 0 Decoded; Settle 0 TimerFires;
               Settle 0 (Fetched (Parsed (answering textless))); ClickSpeak ]).
    reflexivity.
Defined.

(** ** What each event leaves alone *)

(** X7: only a result event or the resumption of a suspended handler can
    change the transcript, the last translation, the displayed text, the
    requests sent and the state of the speak button; only a click on the
    speak button hands an utterance to the synthesizer; only the file input
    changes the stored upload and the process button; only the two selects
    change the languages; only the start and stop buttons, a recognizer
    error and the spoken-language select touch the recording flag, the two
    buttons, the status styling and the recognizer's language; and result
    events, the selects, the file input and the speak button never write
    the status text. *)
Theorem events_leave_alone (s : State) (e : event) :
  match e with
  | Result _ | Settle _ _ => True
  | _ => translation_state (step s e) = translation_state s
  end /\
  match e with
  | ClickSpeak => True
  | _ => spoken (step s e) = spoken s
  end /\
  match e with
  | ChangeFile _ => True
  | _ => upload_controls (step s e) = upload_controls s
  end /\
  match e with
  | ChangeLanguage _ | ChangeTranslationLanguage _ => True
  | _ => language_selects (step s e) = language_selects s
  end /\
  match e with
  | ClickStart _ | ClickStop _ | Error _ _ | ChangeLanguage _ => True
  | _ => recording_controls (step s e) = recording_controls s
  end /\
  match e with
  | ClickStart _ | ClickStop _ | Error _ _ | NoMatch | ClickProcess
  | Settle _ _ => True
  | _ => statusText (step s e) = statusText s
  end.
Proof.
  split; [|split; [|split; [|split; [|split]]]];
    try exact (recording_controls_step s e);
    destruct e; try exact I; frame_event.
Qed.

(** ** Starting and stopping *)

(** X8: on a page that supports recognition and has its start button
    enabled, a successful start followed by a successful stop leaves the
    recording flag false, the start button enabled, the stop button
    disabled, the status unstyled and reading STOPPED, and nothing written
    to the transcript; starting again from there gives the very page the
    first start gave.  A second click on start while recording, and a
    second click on stop once stopped, change nothing. *)
Theorem start_stop_round_trip (s : State) (r : call_result) :
  isSupported s = true ->
  startDisabled s = false ->
  let s1 := step s (ClickStart Returns) in
  let s2 := step s1 (ClickStop Returns) in
  isRecording s1 = true /\
  step s1 (ClickStart r) = s1 /\
  isRecording s2 = false /\ startDisabled s2 = false /\ stopDisabled s2 = true /\
  statusRecording s2 = false /\ statusText s2 = Messages.STOPPED /\
  translation_state s2 = translation_state s /\
  step s2 (ClickStop r) = s2 /\
  step s2 (ClickStart Returns) = s1.
Proof.
  intros U D s1 s2. subst s1 s2.
  unfold step. simpl listener. unfold startRecording, stopRecording.
  handler_unfold. simpl. repeat (progress (rewrite ?U, ?D; simpl)).
  repeat split.
Qed.

Lemma start_stop_round_trip_witness :
  let s1 := step example_ready (ClickStart Returns) in
  let s2 := step s1 (ClickStop Returns) in
  step s1 (ClickStart Throws) = s1 /\
  statusText s2 = Messages.STOPPED /\
  step s2 (ClickStart Returns) = s1.
Proof.
  intros s1 s2.
  destruct (start_stop_round_trip example_ready Throws eq_refl eq_refl)
    as (_ & H1 & _ & _ & _ & _ & H2 & _ & _ & H3).
  split; [exact H1 | split; [exact H2 | exact H3]].
Defined.

(** ** The message of a recognizer error *)

Lemma errorMessage_cases (error : string) :
  (error = "network" /\ errorMessage error = Messages.NETWORK_ERROR) \/
  (error = "not-allowed" /\ errorMessage error = Messages.PERMISSION_ERROR) \/
  (error <> "network" /\ error <> "not-allowed" /\
   errorMessage error = Messages.ERROR_START).
Proof.
  unfold errorMessage.
  destruct (String.eqb_spec error "network") as [->|N1]; [left; split; reflexivity|].
  destruct (String.eqb_spec error "not-allowed") as [->|N2].
  - right. left. split; reflexivity.
  - right. right. repeat split; assumption.
Qed.

(** X9: on a page that supports recognition, the message the error callback
    picked is still the status after the callback exactly when
    [recognition.stop()] throws, and then nothing but the status text has
    changed.  The network message is picked for the code [network] only and
    the permission message for [not-allowed] only. *)
Theorem onerror_message_survives (error : string) (r : call_result) (s : State) :
  isSupported s = true ->
  (statusText (exec (onerror error r) s) = errorMessage error <-> r = Throws) /\
  exec (onerror error Throws) s = set_statusText (errorMessage error) s /\
  (errorMessage error = Messages.NETWORK_ERROR <-> error = "network") /\
  (errorMessage error = Messages.PERMISSION_ERROR <-> error = "not-allowed").
Proof.
  intros U.
  assert (T : exec (onerror error Throws) s = set_statusText (errorMessage error) s).
  { unfold onerror, stopRecording. handler_unfold. simpl. rewrite U. reflexivity. }
  assert (R : statusText (exec (onerror error Returns) s) = Messages.STOPPED).
  { unfold onerror, stopRecording. handler_unfold. simpl. rewrite U. reflexivity. }
  split; [|split; [exact T|]].
  - destruct r; split; intros H; try reflexivity; try discriminate.
    + rewrite R in H.
      destruct (errorMessage_cases error) as [[_ E] | [[_ E] | (_ & _ & E)]];
        rewrite E in H; discriminate H.
    + rewrite T. reflexivity.
  - destruct (errorMessage_cases error) as [[C E] | [[C E] | (N1 & N2 & E)]];
      rewrite E; split; split; intros H;
      try reflexivity; try discriminate; try congruence.
Qed.

Lemma onerror_message_survives_witness :
  statusText (exec (onerror "not-allowed" Throws) example_recording)
    = Messages.PERMISSION_ERROR /\
  isRecording (exec (onerror "not-allowed" Throws) example_recording) = true.
Proof.
  destruct (onerror_message_survives "not-allowed" Throws example_recording eq_refl)
    as (H & E & _).
  split.
  - rewrite (proj2 H eq_refl). reflexivity.
  - rewrite E. reflexivity.
Defined.

(** ** The transcription stub's answers *)

(** X10: whatever the filename, the stub answers one of the nine texts of
    its table, and never the empty string. *)
Theorem simulateAudioTranscription_in_table (filename : string) :
  In (simulateAudioTranscription filename) (map snd sampleTexts) /\
  Js.nonempty (simulateAudioTranscription filename) = true.
Proof.
  unfold simulateAudioTranscription, detectedLang.
  generalize (Js.toLowerCase filename) as lf. intros lf.
  change (map fst languageMapping) with
    ["en-US"; "hi-IN"; "te-IN"; "ta-IN"; "kn-IN"; "ml-IN"; "mr-IN"; "bn-IN"; "gu-IN"].
  unfold find.
  change (mapped "en-US") with "en". change (mapped "hi-IN") with "hi".
  change (mapped "te-IN") with "te". change (mapped "ta-IN") with "ta".
  change (mapped "kn-IN") with "kn". change (mapped "ml-IN") with "ml".
  change (mapped "mr-IN") with "mr". change (mapped "bn-IN") with "bn".
  change (mapped "gu-IN") with "gu".
  destruct (Js.includes lf "en"); [split; [simpl; auto 12 | reflexivity]|].
  destruct (Js.includes lf "hi"); [split; [simpl; auto 12 | reflexivity]|].
  destruct (Js.includes lf "te"); [split; [simpl; auto 12 | reflexivity]|].
  destruct (Js.includes lf "ta"); [split; [simpl; auto 12 | reflexivity]|].
  destruct (Js.includes lf "kn"); [split; [simpl; auto 12 | reflexivity]|].
  destruct (Js.includes lf "ml"); [split; [simpl; auto 12 | reflexivity]|].
  destruct (Js.includes lf "mr"); [split; [simpl; auto 12 | reflexivity]|].
  destruct (Js.includes lf "bn"); [split; [simpl; auto 12 | reflexivity]|].
  destruct (Js.includes lf "gu"); split; solve [simpl; auto 12 | reflexivity].
Qed.

Lemma simulateAudioTranscription_nonempty (filename : string) :
  Js.nonempty (simulateAudioTranscription filename) = true.
Proof.
  unfold simulateAudioTranscription, detectedLang.
  generalize (Js.toLowerCase filename) as lf. intros lf.
  change (map fst languageMapping) with
    ["en-US"; "hi-IN"; "te-IN"; "ta-IN"; "kn-IN"; "ml-IN"; "mr-IN"; "bn-IN"; "gu-IN"].
  unfold find.
  change (mapped "en-US") with "en". change (mapped "hi-IN") with "hi".
  change (mapped "te-IN") with "te". change (mapped "ta-IN") with "ta".
  change (mapped "kn-IN") with "kn". change (mapped "ml-IN") with "ml".
  change (mapped "mr-IN") with "mr". change (mapped "bn-IN") with "bn".
  change (mapped "gu-IN") with "gu".
  repeat match goal with
         | |- context [Js.includes lf ?c] => destruct (Js.includes lf c)
         end; reflexivity.
Qed.

(** The stub's answers are texts [encodeURIComponent] accepts. *)
Lemma simulateAudioTranscription_encodable (filename : string) :
  Js.lone_surrogate (simulateAudioTranscription filename) = false.
Proof.
  unfold simulateAudioTranscription, detectedLang.
  generalize (Js.toLowerCase filename) as lf. intros lf.
  change (map fst languageMapping) with
    ["en-US"; "hi-IN"; "te-IN"; "ta-IN"; "kn-IN"; "ml-IN"; "mr-IN"; "bn-IN"; "gu-IN"].
  unfold find.
  change (mapped "en-US") with "en". change (mapped "hi-IN") with "hi".
  change (mapped "te-IN") with "te". change (mapped "ta-IN") with "ta".
  change (mapped "kn-IN") with "kn". change (mapped "ml-IN") with "ml".
  change (mapped "mr-IN") with "mr". change (mapped "bn-IN") with "bn".
  change (mapped "gu-IN") with "gu".
  repeat match goal with
         | |- context [Js.includes lf ?c] => destruct (Js.includes lf c)
         end; reflexivity.
Qed.

(** ** Processing an uploaded file *)

Arguments step : simpl never.

Lemma step_click_process (s : State) (f : File) :
  uploadedAudio s = Some f ->
  processDisabled s = false ->
  step s ClickProcess
    = exec (suspend (TFileRead f)) (set_statusText Messages.PROCESSING_AUDIO s).
Proof.
  intros U D. unfold step. simpl listener. unfold processAudioFile.
  handler_unfold. rewrite D, U. reflexivity.
Qed.

(** Settling the handler suspended last. *)
Lemma settle_last_task (a : State) (l : list task) (t : task) (r : reply)
    (m : M unit) :
  tasks a = (l ++ [t])%list ->
  resume t r = Some m ->
  step a (Settle (length l) r) = exec m (set_tasks l a).
Proof.
  intros Ht Hm.
  rewrite (step_settle a (length l) t r m); [| rewrite Ht; apply nth_error_last | exact Hm].
  rewrite Ht, remove_nth_last. reflexivity.
Qed.

Lemma step_change_file (s : State) (file : option File) :
  step s (ChangeFile file) = exec (handleFileSelect file) s.
Proof. reflexivity. Qed.

(** The timer of the stub firing: the request for the stub's text is sent
    and the handler waits for its answer. *)
Lemma settle_file_delay (a : State) (l : list task) (filename : string) :
  tasks a = (l ++ [TFileDelay filename])%list ->
  let sample := simulateAudioTranscription filename in
  step a (Settle (length l) TimerFires) =
    set_tasks (l ++ [TFileTranslate sample])%list
      (set_requests (requests a ++ [request_for a sample])%list a).
Proof.
  intros Ht sample.
  erewrite (settle_last_task a l (TFileDelay filename) TimerFires);
    [| exact Ht | reflexivity].
  fold sample. unfold exec, try_catch, bind.
  rewrite translateToEnglish_send_run.
  unfold sample at 1. rewrite simulateAudioTranscription_encodable.
  reflexivity.
Qed.

(** The answer of the translation service in the file handler. *)
Lemma settle_file_translate (a : State) (l : list task) (sample : string)
    (o : fetch_outcome) :
  tasks a = (l ++ [TFileTranslate sample])%list ->
  step a (Settle (length l) (Fetched o)) =
    exec (try_catch
            (bind (updateTranscript (translateToEnglish_settle sample o) sample)
                  (fun _ => modify (set_statusText Messages.AUDIO_PROCESSED)))
            audio_error)
         (set_tasks l a).
Proof.
  intros Ht.
  apply (settle_last_task a l (TFileTranslate sample) (Fetched o)); [exact Ht|].
  reflexivity.
Qed.

(** X11: an uploaded file processed without interruption, when reading and
    decoding succeed: one request is sent, for the stub's text for the
    file's name.  When the value translateToEnglish returns is falsy,
    nothing is appended and the status reads AUDIO_PROCESSED.  When it is
    truthy and converts to text, it becomes the last translation, one block
    is appended with the stub's text as [Original:] and that text as the
    translation, the speak button is enabled and the status reads
    AUDIO_PROCESSED; in both cases the display ends with a [Speaking:] line
    holding the stub's text.  When it is truthy and its conversion throws,
    it has become the last translation, but nothing is appended, the
    display and the speak button are left as they were, and the status
    reads AUDIO_ERROR. *)
Theorem processAudioFile_runs (s : State) (f : File) (o : fetch_outcome) :
  uploadedAudio s = Some f ->
  processDisabled s = false ->
  let sample := simulateAudioTranscription (file_name f) in
  let v := translateToEnglish_settle sample o in
  let s' := run s (processing s [Loaded; Decoded; TimerFires; Fetched o]) in
  requests s' = (requests s ++ [request_for s sample])%list /\
  tasks s' = tasks s /\
  (truthy v = false ->
   statusText s' = Messages.AUDIO_PROCESSED /\
   transcript s' = transcript s /\
   lastTranslation s' = lastTranslation s /\
   transcriptText s' = transcript s' ++ "Speaking: " ++ sample) /\
  (truthy v = true ->
   forall text : string,
     ToString v = Normal text ->
     statusText s' = Messages.AUDIO_PROCESSED /\
     transcript s' =
       transcript s ++ block sample (sel_text (translationLanguage s)) text /\
     lastTranslation s' = v /\
     speakDisabled s' = false /\
     transcriptText s' = transcript s' ++ "Speaking: " ++ sample) /\
  (truthy v = true ->
   ToString v = Thrown ->
   statusText s' = Messages.AUDIO_ERROR /\
   transcript s' = transcript s /\
   lastTranslation s' = v /\
   speakDisabled s' = speakDisabled s /\
   transcriptText s' = transcriptText s).
Proof.
  intros U D sample v s'. subst s'. unfold run, processing. simpl.
  rewrite (step_click_process s f U D).
  erewrite (settle_last_task _ (tasks s) (TFileRead f) Loaded);
    [| reflexivity | reflexivity].
  erewrite (settle_last_task _ (tasks s) TFileDecode Decoded);
    [| reflexivity | reflexivity].
  handler_unfold. simpl. rewrite U. simpl.
  rewrite (settle_file_delay _ (tasks s) (file_name f)); [|reflexivity].
  fold sample.
  rewrite (settle_file_translate _ (tasks s) sample o); [|reflexivity].
  fold v. unfold updateTranscript, audio_error, block, request_for.
  handler_unfold. simpl.
  pose proof (simulateAudioTranscription_nonempty (file_name f)) as N.
  fold sample in N.
  split; [destruct (truthy v); simpl; [destruct (ToString v)|]; reflexivity|].
  split; [destruct (truthy v); simpl; [destruct (ToString v)|]; reflexivity|].
  split; [|split].
  - intros T. rewrite T. simpl. rewrite N. repeat split.
  - intros T text E. rewrite T, E. simpl. rewrite N. repeat split.
  - intros T E. rewrite T, E. simpl. repeat split.
Qed.

Lemma processAudioFile_runs_witness :
  let s := exec (handleFileSelect (Some (mkFile "talk_hi.wav" "audio/wav")))
                example_ready in
  let s' := run s (processing s [Loaded; Decoded; TimerFires;
                                 Fetched (Parsed (translated "Hello there"))]) in
  let t' := run s (processing s [Loaded; Decoded; TimerFires;
                                 Fetched (Parsed (answering textless))]) in
  statusText s' = Messages.AUDIO_PROCESSED /\
  lastTranslation s' = VStr "Hello there" /\
  requests s' =
    [mkRequest (simulateAudioTranscription "audio_hi_sample.mp3") (Code "hi") "en"] /\
  statusText t' = Messages.AUDIO_ERROR /\
  lastTranslation t' = textless /\
  transcript t' = "".
Proof.
  intros s s' t'.
  destruct (processAudioFile_runs s (mkFile "talk_hi.wav" "audio/wav")
              (Parsed (translated "Hello there")) eq_refl eq_refl)
    as (H1 & _ & _ & H2 & _).
  destruct (H2 eq_refl "Hello there" eq_refl) as (A1 & _ & A3 & _).
  destruct (processAudioFile_runs s (mkFile "talk_hi.wav" "audio/wav")
              (Parsed (answering textless)) eq_refl eq_refl)
    as (_ & _ & _ & _ & H3).
  destruct (H3 eq_refl eq_refl) as (B1 & B2 & B3 & _).
  fold s' in H1, A1, A3. fold t' in B1, B2, B3.
  split; [exact A1|]. split; [exact A3|]. split; [rewrite H1; reflexivity|].
  split; [exact B1|]. split; [exact B3 | exact B2].
Defined.

(** X12: when reading or decoding the uploaded file fails, or when the
    stored upload has been cleared by the time decoding ends (a file that is
    not audio, or no file, was selected meanwhile), the status reads
    AUDIO_ERROR, no request is sent, and the transcript, the last
    translation and the display are left as they were. *)
Theorem processAudioFile_fails (s : State) (f : File) :
  uploadedAudio s = Some f ->
  processDisabled s = false ->
  let failed (s' : State) :=
    statusText s' = Messages.AUDIO_ERROR /\
    translation_state s' = translation_state s /\
    tasks s' = tasks s in
  failed (run s (processing s [ReadFails])) /\
  failed (run s (processing s [Loaded; DecodeFails])) /\
  failed (run s (processing_after_change s None [Loaded; Decoded])) /\
  (forall g : File,
     Js.startsWith (file_type g) "audio/" = false ->
     failed (run s (processing_after_change s (Some g) [Loaded; Decoded]))).
Proof.
  intros U D failed. subst failed.
  unfold run, processing, processing_after_change. simpl.
  rewrite (step_click_process s f U D).
  split; [|split; [|split]].
  - erewrite (settle_last_task _ (tasks s) (TFileRead f) ReadFails);
      [| reflexivity | reflexivity].
    repeat split.
  - erewrite (settle_last_task _ (tasks s) (TFileRead f) Loaded);
      [| reflexivity | reflexivity].
    erewrite (settle_last_task _ (tasks s) TFileDecode DecodeFails);
      [| reflexivity | reflexivity].
    repeat split.
  - rewrite step_change_file.
    erewrite (settle_last_task _ (tasks s) (TFileRead f) Loaded);
      [| reflexivity | reflexivity].
    erewrite (settle_last_task _ (tasks s) TFileDecode Decoded);
      [| reflexivity | reflexivity].
    repeat split.
  - intros g G. rewrite step_change_file. unfold handleFileSelect. rewrite G.
    erewrite (settle_last_task _ (tasks s) (TFileRead f) Loaded);
      [| reflexivity | reflexivity].
    erewrite (settle_last_task _ (tasks s) TFileDecode Decoded);
      [| reflexivity | reflexivity].
    repeat split.
Qed.

Lemma processAudioFile_fails_witness :
  let s := exec (handleFileSelect (Some (mkFile "talk_hi.wav" "audio/wav")))
                example_ready in
  let s' := run s (processing_after_change s
                     (Some (mkFile "notes.txt" "text/plain")) [Loaded; Decoded]) in
  statusText s' = Messages.AUDIO_ERROR /\ requests s' = [].
Proof.
  intros s s'.
  destruct (processAudioFile_fails s (mkFile "talk_hi.wav" "audio/wav")
              eq_refl eq_refl) as (_ & _ & _ & H).
  destruct (H (mkFile "notes.txt" "text/plain") eq_refl) as (H1 & H2 & _).
  fold s' in H1, H2. split; [exact H1|].
  apply (f_equal (fun t => snd (fst t))) in H2. exact H2.
Defined.

(** X13: the stub is given the name of the upload stored when decoding
    ends, not the name of the file that was read: when another audio file
    is selected while the first is being read, the request sent carries the
    stub's text for the second file's name. *)
Theorem processAudioFile_reads_current_upload (s : State) (f g : File) :
  uploadedAudio s = Some f ->
  processDisabled s = false ->
  Js.startsWith (file_type g) "audio/" = true ->
  let s' := run s (processing_after_change s (Some g)
                     [Loaded; Decoded; TimerFires]) in
  (exists q : Request,
     requests s' = (requests s ++ [q])%list /\
     req_q q = simulateAudioTranscription (file_name g) /\
     q = request_for s (simulateAudioTranscription (file_name g))) /\
  tasks s' =
    (tasks s ++ [TFileTranslate (simulateAudioTranscription (file_name g))])%list /\
  uploadedAudio s' = Some g.
Proof.
  intros U D G s'. subst s'.
  unfold run, processing_after_change. simpl.
  rewrite (step_click_process s f U D).
  rewrite step_change_file. unfold handleFileSelect. rewrite G.
  erewrite (settle_last_task _ (tasks s) (TFileRead f) Loaded);
    [| reflexivity | reflexivity].
  erewrite (settle_last_task _ (tasks s) TFileDecode Decoded);
    [| reflexivity | reflexivity].
  handler_unfold. simpl.
  rewrite (settle_file_delay _ (tasks s) (file_name g)); [|reflexivity].
  split; [|split; reflexivity].
  eexists. split; [reflexivity|]. split; reflexivity.
Qed.

Lemma processAudioFile_reads_current_upload_witness :
  let s := exec (handleFileSelect (Some (mkFile "talk_hi.wav" "audio/wav")))
                example_ready in
  let s' := run s (processing_after_change s
                     (Some (mkFile "clip.mp3" "audio/mpeg"))
                     [Loaded; Decoded; TimerFires]) in
  requests s' = [mkRequest (simulateAudioTranscription "clip.mp3") (Code "hi") "en"].
Proof.
  intros s s'.
  destruct (processAudioFile_reads_current_upload s
              (mkFile "talk_hi.wav" "audio/wav") (mkFile "clip.mp3" "audio/mpeg")
              eq_refl eq_refl eq_refl) as ((q & H & _ & Hq) & _).
  fold s' in H. rewrite H, Hq. reflexivity.
Defined.

(** ** Between a result event and the settling of its request *)

Lemma step_result_single_state (s : State) (ev : RecognitionEvent) (t : string) :
  isSupported s = true ->
  single_final ev t ->
  Js.lone_surrogate t = false ->
  step s (Result ev)
    = set_tasks (tasks s ++ [TResult t [] "" ""])%list
        (set_requests (requests s ++ [request_for s t])%list s).
Proof.
  unfold single_final. intros U E L. rewrite (step_result s ev U), E.
  simpl onresult_from. unfold exec, bind.
  rewrite translateToEnglish_send_run, L. reflexivity.
Qed.

Lemma step_settle_translation (a : State) (l : list task) (t : string)
    (o : fetch_outcome) (tr : string) :
  tasks a = (l ++ [TResult t [] "" ""])%list ->
  ToString (translateToEnglish_settle t o) = Normal tr ->
  step a (Settle (length l) (Fetched o))
    = exec (updateTranscript (VStr tr) "") (set_tasks l a).
Proof.
  intros Ht Htr.
  rewrite (step_settle_result a (length l) t [] "" "" o);
    [| rewrite Ht; apply nth_error_last].
  rewrite Htr, Ht, remove_nth_last. reflexivity.
Qed.

Lemma step_change_translation (a : State) (sel : Select) :
  step a (ChangeTranslationLanguage sel)
    = set_speakText (speakLabel ++ sel_text sel) (set_translationLanguage sel a).
Proof. reflexivity. Qed.

(** X14: the request of a final result carries the target language
    selected when the result arrived, and its block the name of the target
    language selected when the request settles: when the target language
    is changed in between, the translation made for the old language is
    appended under the new language's name.  (The result's text is one
    [encodeURIComponent] accepts, and the translation converts to a text
    that is not empty.) *)
Theorem translation_labelled_at_settlement (s : State) (ev : RecognitionEvent)
    (t : string) (o : fetch_outcome) (sel : Select) (tr : string) :
  isSupported s = true ->
  single_final ev t ->
  Js.lone_surrogate t = false ->
  ToString (translateToEnglish_settle t o) = Normal tr ->
  Js.nonempty tr = true ->
  let s' := run s [Result ev; ChangeTranslationLanguage sel;
                   Settle (length (tasks s)) (Fetched o)] in
  requests s' = (requests s ++ [request_for s t])%list /\
  req_target (request_for s t) = sel_value (translationLanguage s) /\
  transcript s' = transcript s ++ block "" (sel_text sel) tr.
Proof.
  intros U E L Htr N s'. subst s'. unfold run. simpl fold_left.
  rewrite (step_result_single_state s ev t U E L).
  rewrite step_change_translation.
  rewrite (step_settle_translation _ (tasks s) t o tr) by (reflexivity || exact Htr).
  unfold updateTranscript. handler_unfold. simpl. rewrite N. simpl.
  repeat split.
Qed.

Lemma translation_labelled_at_settlement_witness :
  let s' := run example_ready
              [Result (mkEvent 0 [mkFragment "namaste" true]);
               ChangeTranslationLanguage (mkSelect "fr" "French");
               Settle 0%nat (Fetched (Parsed (translated "hello")))] in
  requests s' = [mkRequest "namaste" (Code "hi") "en"] /\
  transcript s' = block "" "French" "hello".
Proof.
  intros s'.
  destruct (translation_labelled_at_settlement example_ready
              (mkEvent 0 [mkFragment "namaste" true]) "namaste"
              (Parsed (translated "hello")) (mkSelect "fr" "French") "hello"
              eq_refl eq_refl eq_refl eq_refl eq_refl) as (H1 & _ & H3).
  split; [exact (eq_trans H1 eq_refl) | exact (eq_trans H3 eq_refl)].
Defined.

Lemma pending_translation_step (s : State) (e : event) :
  match e with
  | ClickStart _ | ClickStop _ | Error _ _ | NoMatch | ChangeLanguage _
  | ChangeFile _ | ClickSpeak | Synthesizer _ =>
      pending_translation_state (step s e) = pending_translation_state s
  | _ => True
  end.
Proof. destruct e; try exact I; frame_event. Qed.

(** X15: stopping does not cancel a translation under way.  Of the events
    that may come between a final result and the settling of its request,
    a click on start or stop, a recognizer error or no-match, a change of
    the spoken language, a file selection, a click on speak and a change of
    the synthesizer's flag leave the suspended handler in place: when the
    request settles, the block of its translation, converted to text, is
    appended all the same.  (The result's text is one [encodeURIComponent]
    accepts, so that there is a request.) *)
Theorem translation_not_cancelled (s : State) (ev : RecognitionEvent)
    (t : string) (o : fetch_outcome) (tr : string) (e : event) :
  isSupported s = true ->
  single_final ev t ->
  Js.lone_surrogate t = false ->
  ToString (translateToEnglish_settle t o) = Normal tr ->
  match e with
  | ClickStart _ | ClickStop _ | Error _ _ | NoMatch | ChangeLanguage _
  | ChangeFile _ | ClickSpeak | Synthesizer _ =>
      let s' := run s [Result ev; e; Settle (length (tasks s)) (Fetched o)] in
      transcript s' = transcript s ++ entry s "" tr /\
      requests s' = (requests s ++ [request_for s t])%list /\
      tasks s' = tasks s
  | _ => True
  end.
Proof.
  intros U E L Htr.
  assert (G : forall a : State,
    pending_translation_state a
      = pending_translation_state (step s (Result ev)) ->
    let s' := step a (Settle (length (tasks s)) (Fetched o)) in
    transcript s' = transcript s ++ entry s "" tr /\
    requests s' = (requests s ++ [request_for s t])%list /\
    tasks s' = tasks s).
  { intros a F. rewrite (step_result_single_state s ev t U E L) in F.
    unfold pending_translation_state in F. simpl in F.
    injection F as F1 F2 F3 F4 F5.
    rewrite (step_settle_translation a (tasks s) t o tr F1 Htr).
    unfold updateTranscript, entry, block. handler_unfold.
    simpl.
    destruct (Js.nonempty tr); simpl;
      rewrite F2, ?F3, F4; (split; [|split; reflexivity]);
      [reflexivity | symmetry; apply append_empty_r]. }
  pose proof (pending_translation_step (step s (Result ev)) e) as F.
  destruct e; try exact I; unfold run; simpl fold_left; apply G; exact F.
Qed.

Lemma translation_not_cancelled_witness :
  let s' := run example_recording
              [Result (mkEvent 0 [mkFragment "namaste" true]);
               ClickStop Returns;
               Settle 0%nat (Fetched (Parsed (translated "hello")))] in
  isRecording s' = false /\ transcript s' = block "" "English" "hello".
Proof.
  intros s'. split; [reflexivity|].
  destruct (translation_not_cancelled example_recording
              (mkEvent 0 [mkFragment "namaste" true]) "namaste"
              (Parsed (translated "hello")) "hello" (ClickStop Returns)
              eq_refl eq_refl eq_refl eq_refl) as (H & _).
  exact (eq_trans H eq_refl).
Defined.

(** ** A translation that is not a string *)

(** X16: the two callers of updateTranscript treat a falsy value returned
    by translateToEnglish differently.  When every call returns the same
    falsy value whose text is not empty (undefined, null, false or 0), a
    final result (with a text [encodeURIComponent] accepts, so that the
    call makes its request) appends a block with that text as the
    translation, for the loop adds the value to a string; an uploaded file
    appends nothing, for the value itself is tested, and the status still
    reads AUDIO_PROCESSED. *)
Theorem falsy_translation_two_ways (s : State) (ev : RecognitionEvent)
    (t : string) (f : File) (o : fetch_outcome) (v : value) (text : string) :
  isSupported s = true ->
  single_final ev t ->
  Js.lone_surrogate t = false ->
  uploadedAudio s = Some f ->
  processDisabled s = false ->
  (forall text, translateToEnglish_settle text o = v) ->
  truthy v = false ->
  ToString v = Normal text ->
  Js.nonempty text = true ->
  let by_voice := run s [Result ev; Settle (length (tasks s)) (Fetched o)] in
  let by_file := run s (processing s [Loaded; Decoded; TimerFires; Fetched o]) in
  transcript by_voice
    = transcript s ++ block "" (sel_text (translationLanguage s)) text /\
  lastTranslation by_voice = VStr text /\
  transcript by_file = transcript s /\
  lastTranslation by_file = lastTranslation s /\
  statusText by_file = Messages.AUDIO_PROCESSED.
Proof.
  intros U E L Uf D V T Ev N by_voice by_file. subst by_voice by_file.
  unfold run, processing. simpl.
  assert (Ev' : ToString (translateToEnglish_settle t o) = Normal text)
    by (rewrite V; exact Ev).
  split; [|split].
  - rewrite (step_result_single_state s ev t U E L).
    rewrite (step_settle_translation _ (tasks s) t o text) by (reflexivity || exact Ev').
    unfold updateTranscript, block. handler_unfold. simpl.
    rewrite N. reflexivity.
  - rewrite (step_result_single_state s ev t U E L).
    rewrite (step_settle_translation _ (tasks s) t o text) by (reflexivity || exact Ev').
    unfold updateTranscript. handler_unfold. simpl.
    rewrite N. reflexivity.
  - rewrite (step_click_process s f Uf D).
    erewrite (settle_last_task _ (tasks s) (TFileRead f) Loaded);
      [| reflexivity | reflexivity].
    erewrite (settle_last_task _ (tasks s) TFileDecode Decoded);
      [| reflexivity | reflexivity].
    handler_unfold. simpl. rewrite Uf. simpl.
    rewrite (settle_file_delay _ (tasks s) (file_name f)); [|reflexivity].
    rewrite (settle_file_translate _ (tasks s)
               (simulateAudioTranscription (file_name f)) o); [|reflexivity].
    rewrite V. unfold updateTranscript, audio_error. handler_unfold. simpl.
    rewrite T. simpl. repeat split.
Qed.

Lemma falsy_translation_two_ways_witness :
  let s := exec (handleFileSelect (Some (mkFile "talk_hi.wav" "audio/wav")))
                example_ready in
  let o := Parsed (VObj [ ("responseStatus", VNum "200");
                          ("responseData", VObj []) ]) in
  transcript (run s [Result (mkEvent 0 [mkFragment "namaste" true]);
                     Settle 0%nat (Fetched o)])
    = block "" "English" "undefined" /\
  transcript (run s (processing s [Loaded; Decoded; TimerFires; Fetched o])) = "".
Proof.
  intros s o.
  destruct (falsy_translation_two_ways s (mkEvent 0 [mkFragment "namaste" true])
              "namaste" (mkFile "talk_hi.wav" "audio/wav") o VUndefined "undefined"
              eq_refl eq_refl eq_refl eq_refl eq_refl (fun _ => eq_refl)
              eq_refl eq_refl eq_refl)
    as (H1 & _ & H3 & _).
  split; [exact (eq_trans H1 eq_refl) | exact (eq_trans H3 eq_refl)].
Defined.

(** ** A result event with nothing new *)

(** X17: a result event whose [resultIndex] is at or past the end of its
    results sends no request and leaves the transcript alone; it only
    resets the display to the transcript, removing a [Speaking:] line. *)
Theorem onresult_index_past_end (s : State) (ev : RecognitionEvent) :
  isSupported s = true ->
  (length (results ev) <= resultIndex ev)%nat ->
  step s (Result ev) = set_transcriptText (transcript s) s.
Proof.
  intros U L. unfold step. simpl listener. unfold onresult.
  rewrite (skipn_all2 (results ev)) by exact L.
  unfold updateTranscript. handler_unfold. simpl. rewrite U. simpl.
  rewrite append_empty_r. reflexivity.
Qed.

Lemma onresult_index_past_end_witness :
  let shown := step example_ready (Result (mkEvent 0 [mkFragment "nam" false])) in
  transcriptText shown = "Speaking: nam" /\
  transcriptText (step shown (Result (mkEvent 1 [mkFragment "nam" false]))) = "".
Proof.
  intros shown. split; [reflexivity|].
  rewrite (onresult_index_past_end shown (mkEvent 1 [mkFragment "nam" false]) eq_refl).
  - reflexivity.
  - simpl. apply le_n.
Defined.

(** ** The language pair of a request *)

Lemma assoc_In {A : Type} (k : string) (a : A) (l : list (string * A)) :
  assoc k l = Some a -> In (k, a) l.
Proof.
  induction l as [|[k' a'] l IH]; simpl; [discriminate|].
  destruct (String.eqb_spec k k') as [->|N]; intros H.
  - left. congruence.
  - right. apply IH. exact H.
Qed.

Lemma existsb_eqb_In (v : string) (l : list string) :
  existsb (String.eqb v) l = true <-> In v l.
Proof.
  rewrite existsb_exists. split.
  - intros (x & Hx & E). apply String.eqb_eq in E. subst x. exact Hx.
  - intros H. exists v. split; [exact H | apply String.eqb_refl].
Qed.

(** X18: after the spoken language is changed to [v], the request for a
    final result carries as its source the two-letter code the language
    mapping gives for [v]; when the mapping has no key [v] but
    [Object.prototype] has a member called [v], that member; and [auto]
    otherwise.  Its text is the result's text, a text
    [encodeURIComponent] accepts, and its target the value of the target
    select. *)
Theorem request_language_pair (s : State) (v : string) (ev : RecognitionEvent)
    (t : string) :
  isSupported s = true ->
  single_final ev t ->
  Js.lone_surrogate t = false ->
  exists source : SourceLang,
    requests (run s [ChangeLanguage v; Result ev])
      = (requests s ++ [mkRequest t source (sel_value (translationLanguage s))])%list /\
    (forall code, In (v, code) languageMapping -> source = Code code) /\
    ((forall code, ~ In (v, code) languageMapping) ->
     In v objectPrototypeNames -> source = Inherited v) /\
    ((forall code, ~ In (v, code) languageMapping) ->
     ~ In v objectPrototypeNames -> source = Code "auto").
Proof.
  intros U E L.
  exists (sourceLang_of v).
  split; [|split; [|split]].
  - unfold run. simpl fold_left.
    assert (C : step s (ChangeLanguage v)
                = set_recognitionLang v (set_languageSelect v s)).
    { unfold step. simpl listener. handler_unfold. simpl. rewrite U. reflexivity. }
    rewrite C.
    rewrite (step_result_single_state _ ev t) by (simpl; assumption).
    reflexivity.
  - intros code H. simpl in H.
    repeat (destruct H as [H | H]; [inversion H; subst; reflexivity|]).
    contradiction.
  - intros H P. unfold sourceLang_of.
    destruct (assoc v languageMapping) as [code|] eqn:A.
    + exfalso. apply (H code). apply assoc_In. exact A.
    + apply existsb_eqb_In in P. rewrite P. reflexivity.
  - intros H P. unfold sourceLang_of.
    destruct (assoc v languageMapping) as [code|] eqn:A.
    + exfalso. apply (H code). apply assoc_In. exact A.
    + destruct (existsb (String.eqb v) objectPrototypeNames) eqn:X; [|reflexivity].
      exfalso. apply P. apply existsb_eqb_In. exact X.
Qed.

Lemma request_language_pair_witness :
  requests (run example_ready
              [ChangeLanguage "ta-IN"; Result (mkEvent 0 [mkFragment "vanakkam" true])])
    = [mkRequest "vanakkam" (Code "ta") "en"] /\
  requests (run example_ready
              [ChangeLanguage "fr-FR"; Result (mkEvent 0 [mkFragment "bonjour" true])])
    = [mkRequest "bonjour" (Code "auto") "en"] /\
  requests (run example_ready
              [ChangeLanguage "constructor";
               Result (mkEvent 0 [mkFragment "bonjour" true])])
    = [mkRequest "bonjour" (Inherited "constructor") "en"].
Proof.
  assert (N : forall v, assoc v languageMapping = None ->
                        forall code, ~ In (v, code) languageMapping).
  { intros v A code H. simpl in H.
    repeat (destruct H as [H | H];
            [inversion H; subst; discriminate A|]).
    contradiction. }
  split; [|split].
  - destruct (request_language_pair example_ready "ta-IN"
                (mkEvent 0 [mkFragment "vanakkam" true]) "vanakkam"
                eq_refl eq_refl eq_refl)
      as (source & R & C & _).
    rewrite R. rewrite (C "ta"); [reflexivity | simpl; tauto].
  - destruct (request_language_pair example_ready "fr-FR"
                (mkEvent 0 [mkFragment "bonjour" true]) "bonjour"
                eq_refl eq_refl eq_refl)
      as (source & R & _ & _ & A).
    rewrite R. rewrite A; [reflexivity | apply N; reflexivity |].
    intros H. simpl in H.
    repeat (destruct H as [H | H]; [discriminate H|]). contradiction.
  - destruct (request_language_pair example_ready "constructor"
                (mkEvent 0 [mkFragment "bonjour" true]) "bonjour"
                eq_refl eq_refl eq_refl)
      as (source & R & _ & I & _).
    rewrite R. rewrite I; [reflexivity | apply N; reflexivity |].
    simpl. tauto.
Defined.

(** ** Speaking a translation *)

(** X19: after a final result (with a text [encodeURIComponent] accepts)
    has been translated to a value that converts to a text that is not
    empty, a click on the speak button while the synthesizer is idle hands
    over exactly one utterance: that text, in the target language ([en-US]
    for [en]), at rate 0.9 and pitch 1. *)
Theorem speak_after_translation (s : State) (ev : RecognitionEvent)
    (t : string) (o : fetch_outcome) (tr : string) :
  isSupported s = true ->
  single_final ev t ->
  Js.lone_surrogate t = false ->
  speaking s = false ->
  ToString (translateToEnglish_settle t o) = Normal tr ->
  Js.nonempty tr = true ->
  let target := sel_value (translationLanguage s) in
  spoken (run s [Result ev; Settle (length (tasks s)) (Fetched o); ClickSpeak])
    = (spoken s ++
         [mkUtterance tr
            (if String.eqb target "en" then "en-US" else target)
            (9 # 10) 1])%list.
Proof.
  intros U E L B Htr N target. subst target. unfold run. simpl fold_left.
  rewrite (step_result_single_state s ev t U E L).
  rewrite (step_settle_translation _ (tasks s) t o tr) by (reflexivity || exact Htr).
  unfold step. simpl listener.
  unfold updateTranscript, speakTranslation. handler_unfold. simpl.
  rewrite N. simpl. rewrite N, B. reflexivity.
Qed.

Lemma speak_after_translation_witness :
  spoken (run example_ready
            [Result (mkEvent 0 [mkFragment "namaste" true]);
             Settle 0%nat (Fetched (Parsed (translated "hello")));
             ClickSpeak])
    = [mkUtterance "hello" "en-US" (9 # 10) 1].
Proof.
  exact (eq_trans
           (speak_after_translation example_ready
              (mkEvent 0 [mkFragment "namaste" true]) "namaste"
              (Parsed (translated "hello")) "hello"
              eq_refl eq_refl eq_refl eq_refl eq_refl eq_refl)
           eq_refl).
Defined.

(** ** The case of a filename *)

Lemma lower_ascii_high (c : ascii) :
  (91 <= nat_of_ascii c)%nat -> Js.lower_ascii c = c.
Proof.
  intros H. unfold Js.lower_ascii.
  destruct (Nat.leb_spec (nat_of_ascii c) 90) as [L|L].
  - exfalso. apply (Nat.lt_irrefl 90).
    apply Nat.lt_le_trans with (nat_of_ascii c); [exact H | exact L].
  - rewrite andb_false_r. reflexivity.
Qed.

(** A byte outside ASCII is the lower-case form of itself only. *)
Lemma lower_ascii_byte (c d : ascii) :
  (128 <= nat_of_ascii c)%nat ->
  Js.lower_ascii c = Js.lower_ascii d -> d = c.
Proof.
  intros H E.
  rewrite (lower_ascii_high c) in E
    by (apply Nat.le_trans with 128%nat; [repeat constructor | exact H]).
  unfold Js.lower_ascii in E.
  destruct (Nat.leb_spec 65 (nat_of_ascii d)) as [L1|L1];
    destruct (Nat.leb_spec (nat_of_ascii d) 90) as [L2|L2]; simpl in E;
    try (symmetry; exact E).
  exfalso. rewrite E in H.
  rewrite nat_ascii_embedding in H by lia. lia.
Qed.

Lemma toLowerCase_plain (c : ascii) (r : string) :
  nat_of_ascii c <> 196%nat -> nat_of_ascii c <> 226%nat ->
  Js.toLowerCase (String c r) = String (Js.lower_ascii c) (Js.toLowerCase r).
Proof.
  intros N1 N2.
  destruct c as [[|] [|] [|] [|] [|] [|] [|] [|]];
    try reflexivity; exfalso; solve [apply N1; reflexivity | apply N2; reflexivity].
Qed.

Lemma toLowerCase_196 (c : ascii) (r : string) :
  nat_of_ascii c = 196%nat ->
  Js.toLowerCase (String c r) =
    match r with
    | String d r' =>
        if Nat.eqb (nat_of_ascii d) 176
        then String "i" (String (ascii_of_nat 204)
                           (String (ascii_of_nat 135) (Js.toLowerCase r')))
        else String c (Js.toLowerCase r)
    | EmptyString => String c EmptyString
    end.
Proof.
  intros E. apply (f_equal ascii_of_nat) in E. rewrite ascii_nat_embedding in E.
  subst c. destruct r; reflexivity.
Qed.

Lemma toLowerCase_226 (c : ascii) (r : string) :
  nat_of_ascii c = 226%nat ->
  Js.toLowerCase (String c r) =
    match r with
    | String d (String e r') =>
        if andb (Nat.eqb (nat_of_ascii d) 132) (Nat.eqb (nat_of_ascii e) 170)
        then String "k" (Js.toLowerCase r')
        else String c (Js.toLowerCase r)
    | _ => String c (Js.toLowerCase r)
    end.
Proof.
  intros E. apply (f_equal ascii_of_nat) in E. rewrite ascii_nat_embedding in E.
  subst c. destruct r as [|d [|e r']]; reflexivity.
Qed.

Lemma case_variant_byte (c d : ascii) (n : nat) :
  (128 <= n)%nat ->
  Js.lower_ascii c = Js.lower_ascii d ->
  Nat.eqb (nat_of_ascii c) n = Nat.eqb (nat_of_ascii d) n.
Proof.
  intros H E.
  destruct (Nat.eqb_spec (nat_of_ascii c) n) as [C|C];
    destruct (Nat.eqb_spec (nat_of_ascii d) n) as [D|D]; try reflexivity; exfalso.
  - apply D. rewrite (lower_ascii_byte c d) by (try rewrite C; assumption). exact C.
  - apply C. symmetry in E.
    rewrite (lower_ascii_byte d c) by (try rewrite D; assumption). exact D.
Qed.

Lemma toLowerCase_case_variant (n : nat) :
  forall a b : string,
    (String.length a <= n)%nat -> case_variant a b ->
    Js.toLowerCase a = Js.toLowerCase b.
Proof.
  induction n as [|n IH]; intros a b L V.
  - destruct V; [reflexivity | simpl in L; lia].
  - destruct V as [|c d a b E V]; [reflexivity|]. simpl in L.
    assert (Hr : Js.toLowerCase a = Js.toLowerCase b) by (apply IH; [lia | exact V]).
    pose proof (case_variant_byte c d 196 ltac:(lia) E) as B196.
    pose proof (case_variant_byte c d 226 ltac:(lia) E) as B226.
    destruct (Nat.eqb_spec (nat_of_ascii c) 196) as [C1|C1];
      destruct (Nat.eqb_spec (nat_of_ascii d) 196) as [D1|D1]; try discriminate.
    + (* both start the two bytes of U+0130 *)
      assert (d = c) by (apply lower_ascii_byte; [lia | exact E]). subst d.
      rewrite !toLowerCase_196 by assumption.
      destruct V as [|c2 d2 a b E2 V]; [reflexivity|].
      rewrite (case_variant_byte c2 d2 176 ltac:(lia) E2).
      destruct (Nat.eqb (nat_of_ascii d2) 176).
      * rewrite (IH a b); [reflexivity | simpl in L; lia | exact V].
      * rewrite Hr. reflexivity.
    + destruct (Nat.eqb_spec (nat_of_ascii c) 226) as [C2|C2];
        destruct (Nat.eqb_spec (nat_of_ascii d) 226) as [D2|D2]; try discriminate.
      * (* both start the three bytes of U+212A *)
        assert (d = c) by (apply lower_ascii_byte; [lia | exact E]). subst d.
        rewrite !toLowerCase_226 by assumption.
        destruct V as [|c2 d2 a b E2 V]; [reflexivity|].
        destruct V as [|c3 d3 a b E3 V].
        -- rewrite Hr. reflexivity.
        -- rewrite (case_variant_byte c2 d2 132 ltac:(lia) E2).
           rewrite (case_variant_byte c3 d3 170 ltac:(lia) E3).
           destruct (andb (Nat.eqb (nat_of_ascii d2) 132)
                          (Nat.eqb (nat_of_ascii d3) 170)).
           ++ rewrite (IH a b); [reflexivity | simpl in L; lia | exact V].
           ++ rewrite Hr. reflexivity.
      * rewrite !toLowerCase_plain by assumption. rewrite E, Hr. reflexivity.
Qed.

(** X20: the stub ignores the case of ASCII letters: two filenames that
    differ at most in the case of their ASCII letters get the same
    answer. *)
Theorem simulateAudioTranscription_ignores_case (a b : string) :
  case_variant a b ->
  simulateAudioTranscription a = simulateAudioTranscription b.
Proof.
  intros V. unfold simulateAudioTranscription, detectedLang.
  rewrite (toLowerCase_case_variant (String.length a) a b (le_n _) V).
  reflexivity.
Qed.

Lemma simulateAudioTranscription_ignores_case_witness :
  simulateAudioTranscription "Talk_TE.Mp3" = simulateAudioTranscription "talk_te.mp3".
Proof.
  apply simulateAudioTranscription_ignores_case.
  repeat (constructor; [reflexivity|]). constructor.
Defined.

(** ** Requests of one event are sent one after the other *)

(** The loop from any entry on, with fewer answers than it awaits. *)
Lemma onresult_from_partial (os : list fetch_outcome) :
  forall (frs : list fragment) (F I : string) (a : State) (F0 : string),
    (length os < length (awaited frs))%nat ->
    and_then (final_text frs os) (fun r => Normal (F ++ r)) = Normal F0 ->
    exists T : task,
      run (exec (onresult_from frs F I) a)
          (map (fun o => Settle (length (tasks a)) (Fetched o)) os)
      = set_tasks (tasks a ++ [T])%list
          (set_requests
             (requests a ++
                map (fun f => request_for a (frag_transcript f))
                    (firstn (S (length os)) (awaited frs)))%list
             a).
Proof.
  induction os as [|o os IH]; intros frs F I a F0 Hlen Hfin;
    (destruct (awaited frs) as [|f aw] eqn:Ea; [simpl in Hlen; lia|]);
    destruct (onresult_from_waiting frs F I a f aw Ea)
      as (rest & pre & ipre & Haw & Hi & Hf & Hrun).
  - unfold run. simpl. unfold exec. rewrite Hrun. eexists. reflexivity.
  - simpl in Hlen. rewrite Hf in Hfin. simpl in Hfin.
    destruct (ToString (translateToEnglish_settle (frag_transcript f) o))
      as [tr|] eqn:Htr; simpl in Hfin; [|discriminate].
    destruct (final_text rest os) as [r|] eqn:Hr; simpl in Hfin; [|discriminate].
    set (a2 := set_requests (requests a ++ [request_for a (frag_transcript f)])%list a).
    set (T := TResult (frag_transcript f) rest (F ++ pre) (I ++ ipre)).
    assert (E1 : exec (onresult_from frs F I) a = set_tasks (tasks a ++ [T])%list a2).
    { unfold exec. rewrite Hrun. reflexivity. }
    assert (E2 : step (set_tasks (tasks a ++ [T])%list a2)
                      (Settle (length (tasks a)) (Fetched o))
                 = exec (onresult_from rest ((F ++ pre) ++ tr) (I ++ ipre)) a2).
    { rewrite (step_settle_result _ (length (tasks a)) (frag_transcript f) rest
                 (F ++ pre) (I ++ ipre) o); [|apply nth_error_last].
      rewrite Htr. f_equal.
      change (tasks (set_tasks (tasks a ++ [T])%list a2)) with (tasks a ++ [T])%list.
      rewrite remove_nth_last. subst a2. destruct a. reflexivity. }
    rewrite E1. simpl map. unfold run. simpl fold_left. rewrite E2.
    change (length (tasks a)) with (length (tasks a2)).
    fold (run (exec (onresult_from rest ((F ++ pre) ++ tr) (I ++ ipre)) a2)
              (map (fun o0 => Settle (length (tasks a2)) (Fetched o0)) os)).
    destruct (IH rest ((F ++ pre) ++ tr) (I ++ ipre) a2 (((F ++ pre) ++ tr) ++ r))
      as [T' HT'].
    + rewrite Haw. lia.
    + rewrite Hr. reflexivity.
    + exists T'. rewrite HT', Haw. subst a2. simpl firstn. simpl map.
      unfold request_for at 2. simpl. rewrite <- app_assoc.
      destruct a. reflexivity.
Qed.

(** X21: the translations of one result event are requested one after the
    other.  While fewer answers have come than the event has entries that
    await one, each converting to text, exactly one more request has been
    sent than answers have come, for the first such entries in order; the
    handler is suspended, and nothing has been written to the transcript,
    the last translation or the display. *)
Theorem onresult_requests_in_turn (s : State) (ev : RecognitionEvent)
    (os : list fetch_outcome) (F : string) :
  let frs := skipn (resultIndex ev) (results ev) in
  isSupported s = true ->
  (length os < length (awaited frs))%nat ->
  final_text frs os = Normal F ->
  let s' := uninterrupted s ev os in
  requests s' =
    (requests s ++
       map (fun f => request_for s (frag_transcript f))
           (firstn (S (length os)) (awaited frs)))%list /\
  length (tasks s') = S (length (tasks s)) /\
  transcript s' = transcript s /\
  lastTranslation s' = lastTranslation s /\
  transcriptText s' = transcriptText s.
Proof.
  intros frs U Hlen Hfin s'. subst s'. unfold uninterrupted.
  rewrite (step_result s ev U). fold frs.
  destruct (onresult_from_partial os frs "" "" s F Hlen) as [T E].
  { rewrite Hfin. reflexivity. }
  rewrite E. simpl. split; [reflexivity|]. split; [|repeat split].
  rewrite length_app. simpl. lia.
Qed.

Lemma onresult_requests_in_turn_witness :
  let ev := mkEvent 0 [mkFragment "ek" true; mkFragment "do" true;
                       mkFragment "teen" true] in
  let s' := uninterrupted example_ready ev [Parsed (translated "one")] in
  requests s' = [mkRequest "ek" (Code "hi") "en"; mkRequest "do" (Code "hi") "en"] /\
  transcript s' = "".
Proof.
  intros ev s'.
  assert (L : (1 < 3)%nat) by (repeat constructor).
  destruct (onresult_requests_in_turn example_ready ev [Parsed (translated "one")]
              "one" eq_refl L eq_refl) as (H1 & _ & H2 & _).
  split; [exact (eq_trans H1 eq_refl) | exact (eq_trans H2 eq_refl)].
Defined.

(** ** The last translation after two results *)

(** X22: of two result events in flight, each with translations that
    convert to a text that is not empty, the last translation, which the
    speak button reads, is the text of the event whose handler ends last:
    the second event's when the first handler ends first, the first
    event's when the second handler ends first. *)
Theorem last_translation_settles_last (s : State) (e1 e2 : RecognitionEvent)
    (pre : list fetch_outcome) (sch : list (side * fetch_outcome))
    (F1 F2 : string) :
  let frs1 := skipn (resultIndex e1) (results e1) in
  let frs2 := skipn (resultIndex e2) (results e2) in
  isSupported s = true ->
  length (pre ++ answers_to First sch)%list = length (awaited frs1) ->
  length (answers_to Second sch) = length (awaited frs2) ->
  final_text frs1 (pre ++ answers_to First sch)%list = Normal F1 ->
  final_text frs2 (answers_to Second sch) = Normal F2 ->
  Js.nonempty F1 = true ->
  Js.nonempty F2 = true ->
  let s1 := uninterrupted s e1 pre in
  let k1 := if Nat.ltb (length pre) (length (awaited frs1))
            then Some (length (tasks s)) else None in
  let s2 := step s1 (Result e2) in
  let k2 := match awaited frs2 with
            | [] => None
            | _ :: _ => Some (length (tasks s1))
            end in
  lastTranslation (play2 s2 (positions k1 k2) sch)
    = VStr (if first_ends_first k1 k2 sch then F2 else F1).
Proof.
  intros frs1 frs2 Hs Hlen1 Hlen2 Hfin1 Hfin2 N1 N2 s1 k1 s2 k2.
  destruct (two_events s e1 e2 pre sch F1 F2 Hs Hlen1 Hlen2 Hfin1 Hfin2) as [H _].
  fold frs1 frs2 s1 k1 s2 k2 in H.
  destruct (first_ends_first k1 k2 sch); destruct H as [_ H]; rewrite H.
  - rewrite N2. reflexivity.
  - rewrite N1. reflexivity.
Qed.

Lemma last_translation_settles_last_witness :
  let e1 := mkEvent 0 [mkFragment "ek" true] in
  let e2 := mkEvent 1 [mkFragment "ek" true; mkFragment "do" true] in
  let s2 := run example_ready [Result e1; Result e2] in
  lastTranslation
    (play2 s2 (positions (Some 0%nat) (Some 1%nat))
       [(Second, Parsed (translated "two")); (First, Parsed (translated "one"))])
    = VStr "one" /\
  play2 s2 (positions (Some 0%nat) (Some 1%nat))
    [(Second, Parsed (translated "two")); (First, Parsed (translated "one"))]
  = run example_ready
      [Result e1; Result e2;
       Settle 1%nat (Fetched (Parsed (translated "two")));
       Settle 0%nat (Fetched (Parsed (translated "one")))].
Proof.
  intros e1 e2 s2. split; [|vm_compute; reflexivity].
  exact (last_translation_settles_last example_ready e1 e2 []
           [(Second, Parsed (translated "two")); (First, Parsed (translated "one"))]
           "one" "two" eq_refl eq_refl eq_refl eq_refl eq_refl eq_refl eq_refl).
Defined.

